(** * TripGo server: trip lifecycle, trip metrics, odometer ledger and
      reverse-geocoding cache

    A shallow embedding of the trip request handlers (the current version,
    which carries the ledger and geocoding logic, and the older copy that is
    kept in [routes/trips.js]), of the [Trip] model with its
    [calculateMetrics] hook, and of [utils/reverseGeocode.js].

    Conventions of the embedding.
    - A finite JavaScript number is an exact rational ([Q]); [NaN] is kept
      as a separate value where the code can produce it.  Rounding error of
      IEEE doubles is therefore not represented.
    - [Math.sin], [Math.cos], [Math.sqrt], [Math.atan2], [Math.PI] and the
      string/number conversions of the language are primitives of the
      JavaScript runtime; they are fields of the class [JsRuntime].
    - A string is the sequence of its UTF-16 code units, each below 256
      (one [ascii] each), so that [String.length] is the [length] of the
      JavaScript string; strings with code units from 256 on are not
      represented.
    - Instants ([Date]) are integer milliseconds since the epoch ([Z]).
    - MongoDB object ids are natural numbers; a collection is the list of
      its documents in insertion order; the [userdata] collection, which is
      unique per user, is a finite map keyed by the user id.
    - Every handler runs atomically: interleavings of concurrent requests
      at the [await] points are not represented.  The [createdAt] and
      [updatedAt] stamps are left out. *)

From Stdlib Require Import QArith Qround Qabs ZArith Lia Lqa Ascii.
From stdpp Require Import base option list gmap strings pretty.

(** ** JavaScript values *)

Inductive JsNumber : Type :=
| NaN
| Num (q : Q).

(** The JSON values a request body field can hold ([JsUndefined] is an
    absent field). *)
Inductive JsValue : Type :=
| JsUndefined
| JsNull
| JsBool (b : bool)
| JsNum (q : Q)
| JsStr (s : string).

Class JsRuntime : Type := {
  Math_PI : Q;
  Math_sin : Q -> Q;
  Math_cos : Q -> Q;
  Math_sqrt : Q -> Q;
  Math_atan2 : Q -> Q -> Q;
  StringToNumber : string -> JsNumber;
  NumberToString : Q -> string
}.

(** [!!v] of JavaScript. *)
Definition truthy (v : JsValue) : bool :=
  match v with
  | JsUndefined | JsNull => false
  | JsBool b => b
  | JsNum q => negb (Qeq_bool q 0)
  | JsStr s => negb (String.eqb s "")
  end.

(** [Number(v)] *)
Definition Number `{JsRuntime} (v : JsValue) : JsNumber :=
  match v with
  | JsUndefined => NaN
  | JsNull => Num 0%Q
  | JsBool b => Num (if b then 1%Q else 0%Q)
  | JsNum q => Num q
  | JsStr s => StringToNumber s
  end.

(** [x || 0] on a number: [0] and [NaN] are falsy. *)
Definition orZero (x : JsNumber) : Q :=
  match x with
  | NaN => 0%Q
  | Num q => if Qeq_bool q 0 then 0%Q else q
  end.

(** [Math.max(a, b)] on finite numbers. *)
Definition Math_max (a b : Q) : Q := if Qlt_le_dec a b then b else a.

(** [String.prototype.trim] strips white space and line terminators; those
    below 256 are TAB, LF, VT, FF, CR (9 to 13), SP (32) and NBSP (160). *)
Definition isWhiteSpace (a : ascii) : bool :=
  let n := nat_of_ascii a in
  (n =? 32)%nat || ((9 <=? n)%nat && (n <=? 13)%nat) || (n =? 160)%nat.

Fixpoint trimStart (s : string) : string :=
  match s with
  | EmptyString => EmptyString
  | String a r => if isWhiteSpace a then trimStart r else s
  end.

Definition trim (s : string) : string :=
  String.rev (trimStart (String.rev (trimStart s))).

(** ** The odometer rounding rule

    [roundDistance] is declared three times in the trip handlers (in
    [endTrip], [addRoutePoint] and [addRoutePointsBulk]) with the same body:
<<
    const base = Math.floor(Number(d) || 0);
    const frac = (Number(d) || 0) - base;
    return base + (frac > 0.5 ? 1 : 0);
>> *)
Definition roundDistance (d : JsNumber) : Z :=
  let base := Qfloor (orZero d) in
  let frac := (orZero d - inject_Z base)%Q in
  (base + (if Qlt_le_dec (1 # 2) frac then 1 else 0))%Z.

(** ** The Trip model *)

Record TripPoint : Type := {
  latitude : Q;
  longitude : Q;
  timestamp : Q;
  accuracy : Q
}.

Inductive Status : Type := active | completed.

Global Instance Status_eq_dec : EqDecision Status.
Proof. solve_decision. Defined.

Record Trip : Type := {
  _id : nat;
  userId : nat;
  purpose : string;
  startTime : Z;
  endTime : option Z;
  startOdometer : Q;
  endOdometer : option Q;
  startLocation : option string;
  endLocation : option string;
  distance : Q;
  duration : Z;
  route : list TripPoint;
  status : Status;
  averageSpeed : Q
}.

Definition set_metrics (d : Q) (du : Z) (sp : Q) (t : Trip) : Trip :=
  {| _id := _id t; userId := userId t; purpose := purpose t;
     startTime := startTime t; endTime := endTime t;
     startOdometer := startOdometer t; endOdometer := endOdometer t;
     startLocation := startLocation t; endLocation := endLocation t;
     distance := d; duration := du; route := route t;
     status := status t; averageSpeed := sp |}.

Definition set_route (r : list TripPoint) (t : Trip) : Trip :=
  {| _id := _id t; userId := userId t; purpose := purpose t;
     startTime := startTime t; endTime := endTime t;
     startOdometer := startOdometer t; endOdometer := endOdometer t;
     startLocation := startLocation t; endLocation := endLocation t;
     distance := distance t; duration := duration t; route := r;
     status := status t; averageSpeed := averageSpeed t |}.

Definition set_startLocation (l : option string) (t : Trip) : Trip :=
  {| _id := _id t; userId := userId t; purpose := purpose t;
     startTime := startTime t; endTime := endTime t;
     startOdometer := startOdometer t; endOdometer := endOdometer t;
     startLocation := l; endLocation := endLocation t;
     distance := distance t; duration := duration t; route := route t;
     status := status t; averageSpeed := averageSpeed t |}.

Definition set_endLocation (l : option string) (t : Trip) : Trip :=
  {| _id := _id t; userId := userId t; purpose := purpose t;
     startTime := startTime t; endTime := endTime t;
     startOdometer := startOdometer t; endOdometer := endOdometer t;
     startLocation := startLocation t; endLocation := l;
     distance := distance t; duration := duration t; route := route t;
     status := status t; averageSpeed := averageSpeed t |}.

(** The three assignments of [endTrip]: [endTime], [endOdometer], [status]. *)
Definition set_completed (e : Z) (odo : Q) (t : Trip) : Trip :=
  {| _id := _id t; userId := userId t; purpose := purpose t;
     startTime := startTime t; endTime := Some e;
     startOdometer := startOdometer t; endOdometer := Some odo;
     startLocation := startLocation t; endLocation := endLocation t;
     distance := distance t; duration := duration t; route := route t;
     status := completed; averageSpeed := averageSpeed t |}.

Section Metrics.
Context `{JsRuntime}.

(** [tripSchema.methods.calculateHaversineDistance] *)
Definition calculateHaversineDistance (point1 point2 : TripPoint) : Q :=
  let R := 6371%Q in
  let dLat := ((latitude point2 - latitude point1) * Math_PI / 180)%Q in
  let dLon := ((longitude point2 - longitude point1) * Math_PI / 180)%Q in
  let a :=
    (Math_sin (dLat / 2) * Math_sin (dLat / 2) +
     Math_cos (latitude point1 * Math_PI / 180) *
     Math_cos (latitude point2 * Math_PI / 180) *
     Math_sin (dLon / 2) * Math_sin (dLon / 2))%Q in
  let c := (2 * Math_atan2 (Math_sqrt a) (Math_sqrt (1 - a)))%Q in
  (R * c)%Q.

(** The loop [for (let i = 1; i < route.length; i++) totalDistance +=
    haversine(route[i-1], route[i])]: [prev] is [route[i-1]], [rest] is
    [route[i..]], [acc] is [totalDistance]. *)
Fixpoint sumLegs (prev : TripPoint) (rest : list TripPoint) (acc : Q) : Q :=
  match rest with
  | [] => acc
  | curr :: rest' =>
      sumLegs curr rest' (acc + calculateHaversineDistance prev curr)%Q
  end.

Definition totalDistance (r : list TripPoint) : Q :=
  if (2 <=? length r)%nat then
    match r with
    | [] => 0%Q
    | first :: rest => sumLegs first rest 0%Q
    end
  else 0%Q.

(** [tripSchema.methods.calculateMetrics], as a function on the document. *)
Definition calculateMetrics (t : Trip) : Trip :=
  let d := totalDistance (route t) in
  match endTime t with
  | Some e =>
      let durSec := ((e - startTime t) / 1000)%Z in
      let dur := Z.max 0 durSec in
      let speed :=
        if (0 <? dur)%Z then ((d / inject_Z dur) * (36 # 10))%Q else 0%Q in
      set_metrics d dur speed t
  | None => set_metrics d (duration t) (averageSpeed t) t
  end.

(** The distance as the specification words it: the sum, over the pairs
    of consecutive fixes, of the great-circle distance. *)
Fixpoint consecutivePairs (r : list TripPoint) : list (TripPoint * TripPoint) :=
  match r with
  | p :: ((q :: _) as rest) => (p, q) :: consecutivePairs rest
  | _ => []
  end.

Definition specDistance (r : list TripPoint) : Q :=
  fold_right (fun pq s => (calculateHaversineDistance pq.1 pq.2 + s)%Q) 0%Q
             (consecutivePairs r).
End Metrics.

(** ** Mongoose: casting and validation of a Trip document *)

Module Raw.
(** A route entry as it arrives in a JSON body. *)
Record Point : Type := {
  latitude : JsValue;
  longitude : JsValue;
  accuracy : JsValue;
  timestamp : JsValue
}.
End Raw.

(** The cast of a [Number] path: [null], [undefined] and the empty string
    give no value (and the path is [required]); strings and booleans go
    through [Number]; [NaN] is a cast error. *)
Definition castNumber `{JsRuntime} (v : JsValue) : option Q :=
  match v with
  | JsUndefined | JsNull => None
  | JsBool b => Some (if b then 1%Q else 0%Q)
  | JsNum q => Some q
  | JsStr s =>
      if String.eqb s "" then None
      else match StringToNumber s with Num q => Some q | NaN => None end
  end.

Definition castPoint `{JsRuntime} (p : Raw.Point) : option TripPoint :=
  match castNumber (Raw.latitude p), castNumber (Raw.longitude p),
        castNumber (Raw.timestamp p), castNumber (Raw.accuracy p) with
  | Some la, Some lo, Some ts, Some ac =>
      Some {| latitude := la; longitude := lo; timestamp := ts; accuracy := ac |}
  | _, _, _, _ => None
  end.

Fixpoint castRoute `{JsRuntime} (r : list Raw.Point) : option (list TripPoint) :=
  match r with
  | [] => Some []
  | p :: r' =>
      match castPoint p, castRoute r' with
      | Some p', Some r'' => Some (p' :: r'')
      | _, _ => None
      end
  end.

(** The cast of a [String] path with [trim: true]. *)
Definition castString `{JsRuntime} (v : JsValue) : option string :=
  match v with
  | JsUndefined | JsNull => None
  | JsBool b => Some (if b then "true" else "false")
  | JsNum q => Some (trim (NumberToString q))
  | JsStr s => Some (trim s)
  end.

(** [tripPointSchema]: the [min]/[max] validators. *)
Definition validPoint (p : TripPoint) : bool :=
  Qle_bool (-90) (latitude p) && Qle_bool (latitude p) 90 &&
  Qle_bool (-180) (longitude p) && Qle_bool (longitude p) 180 &&
  Qle_bool 0 (accuracy p).

Definition validLocation (l : option string) : bool :=
  match l with
  | None => true
  | Some s => (String.length s <=? 500)%nat
  end.

(** [tripSchema]: the validators of the paths the handlers assign.  The
    derived paths [distance], [duration] and [averageSpeed] are assigned by
    the [pre('save')] hook, which runs after validation.  [minlength] and
    [maxlength] compare the [length] of the string, its number of UTF-16
    code units, which is [String.length] here. *)
Definition validate (t : Trip) : bool :=
  negb (String.eqb (purpose t) "") &&
  (3 <=? String.length (purpose t))%nat &&
  (String.length (purpose t) <=? 200)%nat &&
  match endTime t with
  | None => true
  | Some e => (startTime t <? e)%Z
  end &&
  Qle_bool 0 (startOdometer t) &&
  match endOdometer t with
  | None => true
  | Some v => Qle_bool 0 v && (Qeq_bool v 0 || Qle_bool (startOdometer t) v)
  end &&
  validLocation (startLocation t) &&
  validLocation (endLocation t) &&
  forallb validPoint (route t).

(** ** utils/reverseGeocode.js *)

Module ReverseGeocode.

(** The parsed body of the upstream answer: the [address] object and the
    [display_name], with string values. *)
Record Json : Type := {
  address : option (gmap string string);
  display_name : option string
}.

(** What the upstream request yields for a coordinate: [None] stands for a
    request error, a body that does not parse, or the JSON [null]. *)
Definition Upstream : Type := Q -> Q -> option Json.

Record Entry : Type := {
  name : string;
  timestamp : Z
}.

Definition CACHE_TTL_MS : Z := 1000 * 60 * 60 * 6.

(** The five digits after the point: [k] is below [100000]. *)
Definition fractionDigits (k : Z) : string :=
  match pretty (Z.to_N (100000 + k)) with
  | String _ digits => digits
  | EmptyString => EmptyString
  end.

(** [x.toFixed(5)]: the integer [n] closest to [|x| * 10^5], the larger one
    on a tie, printed with the sign of [x]. *)
Definition toFixed5 (x : Q) : string :=
  let n := Qfloor (Qabs x * 100000 + (1 # 2))%Q in
  (if Qlt_le_dec x 0 then "-" else "") +:+
  pretty (Z.to_N (n / 100000)) +:+ "." +:+ fractionDigits (n mod 100000).

Definition cacheKey (lat lon : Q) : string :=
  toFixed5 lat +:+ "," +:+ toFixed5 lon.

Definition getCached (now : Z) (lat lon : Q) (cache : gmap string Entry)
  : option string :=
  match cache !! cacheKey lat lon with
  | Some entry =>
      if (now - timestamp entry <? CACHE_TTL_MS)%Z then Some (name entry)
      else None
  | None => None
  end.

Definition setCache (now : Z) (lat lon : Q) (nm : string)
    (cache : gmap string Entry) : gmap string Entry :=
  <[cacheKey lat lon := {| name := nm; timestamp := now |}]> cache.

Definition fields : list string :=
  ["suburb"; "neighbourhood"; "quarter"; "hamlet"; "village"; "town"; "city";
   "municipality"; "state_district"; "state"; "country"].

(** [v || null] on an optional string. *)
Definition orNull (v : option string) : option string :=
  match v with
  | Some s => if String.eqb s "" then None else Some s
  | None => None
  end.

Fixpoint firstField (addr : gmap string string) (fs : list string)
  : option string :=
  match fs with
  | [] => None
  | f :: fs' =>
      match orNull (addr !! f) with
      | Some s => Some s
      | None => firstField addr fs'
      end
  end.

Definition extractName (json : option Json) : option string :=
  match json with
  | None => None
  | Some j =>
      match address j with
      | None => orNull (display_name j)
      | Some addr =>
          match firstField addr fields with
          | Some s => Some s
          | None => orNull (display_name j)
          end
      end
  end.

(** The outcome of one call: the returned name, the cache afterwards, and
    whether the upstream service was queried. *)
Record Result : Type := {
  result : option string;
  cacheAfter : gmap string Entry;
  queried : bool
}.

(** [tGet] is the clock read by [getCached], [tSet] the clock read by
    [setCache] once the upstream answer has arrived. *)
Definition reverseGeocode (tGet tSet : Z) (upstream : Upstream)
    (lat lon : option Q) (cache : gmap string Entry) : Result :=
  match lat, lon with
  | Some la, Some lo =>
      match orNull (getCached tGet la lo cache) with
      | Some cached =>
          {| result := Some cached; cacheAfter := cache; queried := false |}
      | None =>
          let json := upstream la lo in
          match extractName json with
          | Some nm =>
              {| result := Some nm;
                 cacheAfter := setCache tSet la lo nm cache;
                 queried := true |}
          | None =>
              {| result := None; cacheAfter := cache; queried := true |}
          end
      end
  | _, _ => {| result := None; cacheAfter := cache; queried := false |}
  end.

End ReverseGeocode.

(** ** The stores *)

(** A document of the [userdata] collection (models/UserData.js). *)
Record UserData : Type := {
  currentOdometer : Q;
  activeTrip : option nat
}.

Record World : Type := {
  trips : list Trip;
  userData : gmap nat UserData;
  cache : gmap string ReverseGeocode.Entry;
  nextId : nat
}.

Definition initial : World :=
  {| trips := []; userData := ∅; cache := ∅; nextId := 0 |}.

Definition withCache (c : gmap string ReverseGeocode.Entry) (w : World) : World :=
  {| trips := trips w; userData := userData w; cache := c; nextId := nextId w |}.

Definition withUserData (u : gmap nat UserData) (w : World) : World :=
  {| trips := trips w; userData := u; cache := cache w; nextId := nextId w |}.

Definition withTrips (ts : list Trip) (w : World) : World :=
  {| trips := ts; userData := userData w; cache := cache w; nextId := nextId w |}.

Inductive Response : Type :=
| Success (code : nat) (data : option Trip)
| Failure (code : nat) (error : string).

(** ** Queries and writes on the trips collection *)

Definition isActiveOf (uid : nat) (t : Trip) : bool :=
  (userId t =? uid)%nat && bool_decide (status t = active).

(** [tripSchema.statics.findActiveTrip]: [findOne({ userId, status: 'active' })] *)
Definition findActiveTrip (uid : nat) (ts : list Trip) : option Trip :=
  List.find (isActiveOf uid) ts.

(** [Trip.findOne({ _id, userId })] *)
Definition findOwned (id uid : nat) (ts : list Trip) : option Trip :=
  List.find (fun t => (_id t =? id)%nat && (userId t =? uid)%nat) ts.

(** [Trip.findOne({ _id, userId, status: 'active' })] *)
Definition findOwnedActive (id uid : nat) (ts : list Trip) : option Trip :=
  List.find (fun t => (_id t =? id)%nat && isActiveOf uid t) ts.

(** The write of a saved document over the stored one with its [_id]. *)
Definition replaceById (t' : Trip) (ts : list Trip) : list Trip :=
  map (fun x => if (_id x =? _id t')%nat then t' else x) ts.

(** [Trip.findByIdAndDelete(id)]; ids are unique in the collection. *)
Definition findByIdAndDelete (id : nat) (ts : list Trip) : list Trip :=
  List.filter (fun x => negb (_id x =? id)%nat) ts.

Section Handlers.
Context `{JsRuntime}.

(** [trip.save()] on a loaded document: validation, then the
    [pre('save')] hook, then the write.  [None] is a rejected save. *)
Definition save (t : Trip) (ts : list Trip) : option (Trip * list Trip) :=
  if validate t then
    let t' := calculateMetrics t in Some (t', replaceById t' ts)
  else None.

(** [Trip.create({ userId, purpose, startOdometer, route, status: 'active',
    startLocation })]: the schema defaults, the casts, then as [save]. *)
Definition Trip_create (now : Z) (id uid : nat) (purp : string)
    (startOdo : JsNumber) (r : list Raw.Point) (startLoc : option string)
  : option Trip :=
  match startOdo, castRoute r with
  | Num so, Some r' =>
      let t := {| _id := id; userId := uid; purpose := trim purp;
                  startTime := now; endTime := None;
                  startOdometer := so; endOdometer := None;
                  startLocation := trim <$> startLoc; endLocation := None;
                  distance := 0%Q; duration := 0%Z; route := r';
                  status := active; averageSpeed := 0%Q |} in
      if validate t then Some (calculateMetrics t) else None
  | _, _ => None
  end.

(** ** Writes on the userdata collection *)

(** [findOneAndUpdate({ userId }, { $set: { activeTrip }, $max: {
    currentOdometer } }, { upsert: true })] *)
Definition setActiveAndMaxOdometer (uid tripId : nat) (v : Q)
    (ud : gmap nat UserData) : gmap nat UserData :=
  match ud !! uid with
  | Some u =>
      <[uid := {| currentOdometer := Math_max (currentOdometer u) v;
                  activeTrip := Some tripId |}]> ud
  | None =>
      <[uid := {| currentOdometer := v; activeTrip := Some tripId |}]> ud
  end.

(** [findOneAndUpdate({ userId, activeTrip: { $ne: trip._id } }, { $set: {
    activeTrip: trip._id } })] *)
Definition syncActiveTrip (uid tripId : nat) (ud : gmap nat UserData)
  : gmap nat UserData :=
  match ud !! uid with
  | Some u =>
      if bool_decide (activeTrip u = Some tripId) then ud
      else <[uid := {| currentOdometer := currentOdometer u;
                       activeTrip := Some tripId |}]> ud
  | None => ud
  end.

(** [findOneAndUpdate({ userId }, { $set: { currentOdometer } })] *)
Definition setLiveOdometer (uid : nat) (v : Q) (ud : gmap nat UserData)
  : gmap nat UserData :=
  match ud !! uid with
  | Some u =>
      <[uid := {| currentOdometer := v; activeTrip := activeTrip u |}]> ud
  | None => ud
  end.

(** [findOneAndUpdate({ userId }, { $inc: { currentOdometer }, $set: {
    activeTrip: null } }, { upsert: true })] *)
Definition incOdometerAndClear (uid : nat) (by_ : Q) (ud : gmap nat UserData)
  : gmap nat UserData :=
  match ud !! uid with
  | Some u =>
      <[uid := {| currentOdometer := (currentOdometer u + by_)%Q;
                  activeTrip := None |}]> ud
  | None => <[uid := {| currentOdometer := by_; activeTrip := None |}]> ud
  end.

(** ** Request bodies *)

Record CreateBody : Type := {
  create_purpose : JsValue;
  create_startOdometer : JsValue;
  create_route : option (list Raw.Point)
}.

Record UpdateBody : Type := {
  update_route : option (list Raw.Point);
  update_startLocation : JsValue;
  update_endLocation : JsValue
}.

Record EndBody : Type := {
  end_endOdometer : JsValue;
  end_endLocation : JsValue
}.

(** ** The handlers.  [now] is the clock of the request, [upstream] what the
    geocoding service answers during it, [uid] is [req.user.id]. *)

Definition createTrip (now : Z) (upstream : ReverseGeocode.Upstream)
    (uid : nat) (body : CreateBody) (w : World) : World * Response :=
  let purp := create_purpose body in
  let startOdo := create_startOdometer body in
  if negb (truthy purp) || negb (truthy startOdo) then
    (w, Failure 400 "Please provide purpose and start odometer reading")
  else
    match findActiveTrip uid (trips w) with
    | Some _ =>
        (w, Failure 400 "You already have an active trip. Please end it before starting a new one.")
    | None =>
        let firstPoint :=
          match create_route body with
          | Some (p :: _) => Some p
          | _ => None
          end in
        let geo :=
          match firstPoint with
          | Some p =>
              match Raw.latitude p, Raw.longitude p with
              | JsNum la, JsNum lo =>
                  let g := ReverseGeocode.reverseGeocode now now upstream
                             (Some la) (Some lo) (cache w) in
                  (ReverseGeocode.result g, ReverseGeocode.cacheAfter g)
              | _, _ => (None, cache w)
              end
          | None => (None, cache w)
          end in
        let w1 := withCache geo.2 w in
        let created :=
          match purp with
          | JsStr s =>
              Trip_create now (nextId w) uid (trim s) (Number startOdo)
                          (default [] (create_route body)) geo.1
          | _ => None
          end in
        match created with
        | Some trip =>
            let ledger :=
              match Number startOdo with
              | Num v => setActiveAndMaxOdometer uid (_id trip) v (userData w)
              | NaN => userData w
              end in
            ({| trips := trips w ++ [trip]; userData := ledger;
                cache := geo.2; nextId := S (nextId w) |},
             Success 201 (Some trip))
        | None => (w1, Failure 500 "Server error while creating trip")
        end
    end.

Definition updateTrip (uid id : nat) (body : UpdateBody) (w : World)
  : World * Response :=
  match findOwned id uid (trips w) with
  | None => (w, Failure 404 "Trip not found")
  | Some trip =>
      if bool_decide (status trip = completed) then
        (w, Failure 400 "Cannot update completed trip")
      else
        (* [trip.route = route]: an entry that does not cast makes the save
           fail *)
        let routed :=
          match update_route body with
          | Some r => (fun r' => set_route r' trip) <$> castRoute r
          | None => Some trip
          end in
        let located (t : Trip) :=
          let t1 := if truthy (update_startLocation body)
                    then set_startLocation (castString (update_startLocation body)) t
                    else t in
          if truthy (update_endLocation body)
          then set_endLocation (castString (update_endLocation body)) t1
          else t1 in
        match routed with
        | Some t =>
            match save (located t) (trips w) with
            | Some (t', ts') => (withTrips ts' w, Success 200 (Some t'))
            | None => (w, Failure 500 "Server error while updating trip")
            end
        | None => (w, Failure 500 "Server error while updating trip")
        end
  end.

Definition endTrip (now : Z) (upstream : ReverseGeocode.Upstream)
    (uid id : nat) (body : EndBody) (w : World) : World * Response :=
  match findOwnedActive id uid (trips w) with
  | None => (w, Failure 404 "Active trip not found")
  | Some trip =>
      let roundedDistance := roundDistance (Num (orZero (Num (distance trip)))) in
      let computedEndOdo := (startOdometer trip + inject_Z roundedDistance)%Q in
      let finalEndOdometer := Math_max computedEndOdo (startOdometer trip) in
      let t1 := set_completed now finalEndOdometer trip in
      let located :=
        if truthy (end_endLocation body) then
          (set_endLocation (castString (end_endLocation body)) t1, cache w)
        else
          match last (route trip) with
          | Some lastPoint =>
              let g := ReverseGeocode.reverseGeocode now now upstream
                         (Some (latitude lastPoint))
                         (Some (longitude lastPoint)) (cache w) in
              (match ReverseGeocode.result g with
               | Some endLocName => set_endLocation (Some (trim endLocName)) t1
               | None => t1
               end, ReverseGeocode.cacheAfter g)
          | None => (t1, cache w)
          end in
      match save located.1 (trips w) with
      | Some (t', ts') =>
          ({| trips := ts';
              userData := incOdometerAndClear uid (inject_Z roundedDistance)
                            (userData w);
              cache := located.2; nextId := nextId w |},
           Success 200 (Some t'))
      | None => (withCache located.2 w, Failure 500 "Server error while ending trip")
      end
  end.

Definition deleteTrip (uid id : nat) (w : World) : World * Response :=
  match findOwned id uid (trips w) with
  | None => (w, Failure 404 "Trip not found")
  | Some _ => (withTrips (findByIdAndDelete id (trips w)) w, Success 200 None)
  end.

(** [trip.route.push(...)] followed by [trip.save()] and by the live
    odometer write, shared by the two append handlers. *)
Definition pushAndSave (uid : nat) (trip : Trip) (pts : list TripPoint)
    (failure : string) (w : World) : World * Response :=
  let synced := withUserData (syncActiveTrip uid (_id trip) (userData w)) w in
  match save (set_route (route trip ++ pts) trip) (trips w) with
  | Some (t', ts') =>
      let estDistance := roundDistance (Num (orZero (Num (distance t')))) in
      ({| trips := ts';
          userData := setLiveOdometer uid
                        (startOdometer t' + inject_Z estDistance)%Q
                        (userData synced);
          cache := cache w; nextId := nextId w |},
       Success 200 (Some t'))
  | None => (synced, Failure 500 failure)
  end.

Definition addRoutePoint (uid : nat) (body : Raw.Point) (w : World)
  : World * Response :=
  if negb (truthy (Raw.latitude body)) || negb (truthy (Raw.longitude body)) ||
     negb (truthy (Raw.accuracy body)) || negb (truthy (Raw.timestamp body))
  then
    (w, Failure 400 "Please provide latitude, longitude, accuracy, and timestamp")
  else
    match findActiveTrip uid (trips w) with
    | None => (w, Failure 404 "No active trip found")
    | Some trip =>
        match Number (Raw.latitude body), Number (Raw.longitude body),
              Number (Raw.accuracy body), Number (Raw.timestamp body) with
        | Num la, Num lo, Num ac, Num ts =>
            let newPoint := {| latitude := la; longitude := lo;
                               timestamp := ts; accuracy := ac |} in
            pushAndSave uid trip [newPoint]
                        "Server error while adding route point" w
        | _, _, _, _ =>
            (* a [NaN] field is rejected by the save *)
            (withUserData (syncActiveTrip uid (_id trip) (userData w)) w,
             Failure 500 "Server error while adding route point")
        end
    end.

(** The loop that fills [sanitized]. *)
Definition sanitize (points : list Raw.Point) : list TripPoint :=
  omap (fun p =>
          match Raw.latitude p, Raw.longitude p, Raw.accuracy p, Raw.timestamp p with
          | JsNum la, JsNum lo, JsNum ac, JsNum ts =>
              Some {| latitude := la; longitude := lo;
                      timestamp := ts; accuracy := ac |}
          | _, _, _, _ => None
          end) points.

Definition addRoutePointsBulk (uid : nat) (points : option (list Raw.Point))
    (w : World) : World * Response :=
  match points with
  | None | Some [] => (w, Failure 400 "Provide non-empty points array")
  | Some pts =>
      match findActiveTrip uid (trips w) with
      | None => (w, Failure 404 "No active trip found")
      | Some trip =>
          let synced :=
            withUserData (syncActiveTrip uid (_id trip) (userData w)) w in
          match sanitize pts with
          | [] => (synced, Failure 400 "No valid points provided")
          | sanitized =>
              pushAndSave uid trip sanitized
                          "Server error while adding route points" w
          end
      end
  end.

End Handlers.

(** ** The older copy of the handlers, routes/trips.js: its [endTrip] *)

Module Legacy.
Section Handlers.
Context `{JsRuntime}.

Definition endTrip (now : Z) (uid id : nat) (body : EndBody) (w : World)
  : World * Response :=
  if negb (truthy (end_endOdometer body)) then
    (w, Failure 400 "Please provide end odometer reading")
  else
    match findOwnedActive id uid (trips w) with
    | None => (w, Failure 404 "Active trip not found")
    | Some trip =>
        match Number (end_endOdometer body) with
        | Num endOdo =>
            if Qlt_le_dec endOdo (startOdometer trip) then
              (w, Failure 400 "End odometer reading must be greater than or equal to start reading")
            else
              let t1 := set_completed now endOdo trip in
              let t2 := if truthy (end_endLocation body)
                        then set_endLocation (castString (end_endLocation body)) t1
                        else t1 in
              match save t2 (trips w) with
              | Some (t', ts') => (withTrips ts' w, Success 200 (Some t'))
              | None => (w, Failure 500 "Server error while ending trip")
              end
        | NaN =>
            (* [NaN < startOdometer] is false, then the cast of [NaN] fails *)
            (w, Failure 500 "Server error while ending trip")
        end
    end.
End Handlers.
End Legacy.

(** ** Requests and reachable states *)

Inductive Request : Type :=
| CreateTrip (now : Z) (upstream : ReverseGeocode.Upstream) (uid : nat)
    (body : CreateBody)
| UpdateTrip (uid id : nat) (body : UpdateBody)
| EndTrip (now : Z) (upstream : ReverseGeocode.Upstream) (uid id : nat)
    (body : EndBody)
| DeleteTrip (uid id : nat)
| AddRoutePoint (uid : nat) (body : Raw.Point)
| AddRoutePointsBulk (uid : nat) (points : option (list Raw.Point)).

Definition handle `{JsRuntime} (r : Request) (w : World) : World * Response :=
  match r with
  | CreateTrip now upstream uid body => createTrip now upstream uid body w
  | UpdateTrip uid id body => updateTrip uid id body w
  | EndTrip now upstream uid id body => endTrip now upstream uid id body w
  | DeleteTrip uid id => deleteTrip uid id w
  | AddRoutePoint uid body => addRoutePoint uid body w
  | AddRoutePointsBulk uid points => addRoutePointsBulk uid points w
  end.

(** The states the server can be in: the empty database, then any sequence
    of trip requests; the handlers of routes/userdata.js write the userdata
    collection only, with values chosen by the client. *)
Inductive reachable `{JsRuntime} : World -> Prop :=
| reachable_initial : reachable initial
| reachable_handle (r : Request) (w : World) :
    reachable w -> reachable (handle r w).1
| reachable_userdata (ud : gmap nat UserData) (w : World) :
    reachable w -> reachable (withUserData ud w).

(** The states that requests to either version of the trip routes can
    reach: as [reachable], with the End of routes/trips.js as one more
    step. *)
Inductive reachableEither `{JsRuntime} : World -> Prop :=
| either_initial : reachableEither initial
| either_handle (r : Request) (w : World) :
    reachableEither w -> reachableEither (handle r w).1
| either_legacy_end (now : Z) (uid id : nat) (body : EndBody) (w : World) :
    reachableEither w -> reachableEither (Legacy.endTrip now uid id body w).1
| either_userdata (ud : gmap nat UserData) (w : World) :
    reachableEither w -> reachableEither (withUserData ud w).

(** The error classes of the specification, read off the responses: the
    two 400 answers that report a broken lifecycle rule are conflicts, the
    other 400 answers are input errors. *)
Inductive ErrorKind : Type := InvalidInput | Conflict | NotFound | PersistenceFailure.

Definition errorKind (r : Response) : option ErrorKind :=
  match r with
  | Success _ _ => None
  | Failure code msg =>
      if (code =? 404)%nat then Some NotFound
      else if (code =? 400)%nat then
        if String.eqb msg "You already have an active trip. Please end it before starting a new one."
           || String.eqb msg "Cannot update completed trip"
        then Some Conflict else Some InvalidInput
      else Some PersistenceFailure
  end.

(** The value of a string of decimal digits. *)
Fixpoint digitsValue (s : string) (acc : nat) : option nat :=
  match s with
  | EmptyString => Some acc
  | String a r =>
      match Ascii.is_nat a with
      | Some d => digitsValue r (10 * acc + d)%nat
      | None => None
      end
  end.

Definition digitsToNumber (s : string) : JsNumber :=
  match digitsValue s 0%nat with
  | Some n => Num (inject_Z (Z.of_nat n))
  | None => NaN
  end.

(** A runtime to evaluate the handlers on concrete requests: first-order
    rational approximations of the numeric primitives around small angles,
    and conversions that know the unsigned decimal integers only.  The
    theorems hold for every runtime.  Most worked requests have routes of
    fewer than two fixes and give their numbers as JSON numbers, so that
    nothing evaluated there goes through these primitives; where one does,
    the numbers it shows are those of this runtime, not of the real
    functions. *)
Definition rationalRuntime : JsRuntime :=
  {| Math_PI := 355 # 113;
     Math_sin := fun x => x;
     Math_cos := fun x => (1 - x * x / 2)%Q;
     Math_sqrt := fun x => ((1 + x) / 2)%Q;
     Math_atan2 := fun y x => (y / x)%Q;
     StringToNumber := digitsToNumber;
     NumberToString := fun q => pretty (Qfloor q) |}.

(** ** Invariants of the stores *)

(** The number of trips of [uid] whose status is [active]. *)
Definition activeCount (uid : nat) (ts : list Trip) : nat :=
  length (List.filter (isActiveOf uid) ts).

Section Invariants.
Context `{JsRuntime}.

(** The derived fields agree with the route and the times of the document. *)
Definition metricsFresh (t : Trip) : Prop :=
  distance t = totalDistance (route t).

Definition timingFresh (t : Trip) : Prop :=
  match endTime t with
  | None => duration t = 0%Z /\ averageSpeed t = 0%Q
  | Some e =>
      duration t = Z.max 0 ((e - startTime t) / 1000) /\
      averageSpeed t =
        if (0 <? duration t)%Z
        then (distance t / inject_Z (duration t) * (36 # 10))%Q else 0%Q
  end.

(** A stored document also passes the validators it was saved under. *)
Definition tripInv (t : Trip) : Prop :=
  metricsFresh t /\ timingFresh t /\
  (status t = active <-> endTime t = None) /\ validate t = true.

Definition storeInv (ts : list Trip) (next : nat) : Prop :=
  NoDup (_id <$> ts) /\
  Forall (fun t => (_id t < next)%nat) ts /\
  Forall tripInv ts /\
  forall uid, (activeCount uid ts <= 1)%nat.

Definition worldInv (w : World) : Prop := storeInv (trips w) (nextId w).

(** A handler keeps the invariant, and the document it answers with is
    the stored one. *)
Definition handlerOk (out : World * Response) : Prop :=
  worldInv out.1 /\
  forall c t, out.2 = Success c (Some t) -> t ∈ trips out.1 /\ tripInv t.
End Invariants.

(** What a handler may do to a loaded document before it saves it: keep
    the status and the times, or complete the trip. *)
Definition editOf (trip t : Trip) : Prop :=
  _id t = _id trip /\ userId t = userId trip /\
  ((status t = status trip /\ endTime t = endTime trip /\
    duration t = duration trip /\ averageSpeed t = averageSpeed trip) \/
   (status t = completed /\ endTime t <> None)).

(** The ledger value a request finds; for a user without a record it is
    the schema default of [currentOdometer], 0 (models/UserData.js). *)
Definition previousOdometer (uid : nat) (w : World) : Q :=
  match userData w !! uid with
  | Some u => currentOdometer u
  | None => 0%Q
  end.

(** ** Worked requests *)

Section WorkedRequests.
#[local] Existing Instance rationalRuntime.

Definition noUpstream : ReverseGeocode.Upstream := fun _ _ => None.

Definition suburbUpstream : ReverseGeocode.Upstream :=
  fun _ _ =>
    Some {| ReverseGeocode.address := Some {[ "suburb" := "Indiranagar" ]};
            ReverseGeocode.display_name := Some "Indiranagar, Bengaluru" |}.

Definition commute (startOdo : JsValue) : CreateBody :=
  {| create_purpose := JsStr "Commute";
     create_startOdometer := startOdo;
     create_route := None |}.

(** User 7 has started the trip with id 0 at odometer 100. *)
Definition oneActiveTrip : World :=
  (createTrip 1000 noUpstream 7 (commute (JsNum 100)) initial).1.

(** User 7 has a ledger record at 80 and no trip. *)
Definition ledgerAt80 : World :=
  withUserData {[ 7%nat := {| currentOdometer := 80; activeTrip := None |} ]}
               initial.

(** The document a Start of user 7 at odometer 100 creates at time 1000. *)
Definition startedAt100 : Trip :=
  {| _id := 0; userId := 7; purpose := "Commute"; startTime := 1000;
     endTime := None; startOdometer := 100; endOdometer := None;
     startLocation := None; endLocation := None; distance := 0;
     duration := 0; route := []; status := active; averageSpeed := 0 |}.

(** The document a Start of user 7 at odometer 50 creates at time 1000. *)
Definition startedAt50 : Trip :=
  {| _id := 0; userId := 7; purpose := "Commute"; startTime := 1000;
     endTime := None; startOdometer := 50; endOdometer := None;
     startLocation := None; endLocation := None; distance := 0;
     duration := 0; route := []; status := active; averageSpeed := 0 |}.

Definition fixAt (lat lon acc : Q) : Raw.Point :=
  {| Raw.latitude := JsNum lat; Raw.longitude := JsNum lon;
     Raw.accuracy := JsNum acc; Raw.timestamp := JsNum 1700000000000 |}.

Definition clientEnd (odo : Q) : EndBody :=
  {| end_endOdometer := JsNum odo; end_endLocation := JsUndefined |}.
End WorkedRequests.

(** ** The read-only trip handlers, the virtual of the model, and the
    handlers of routes/userdata.js *)

(** [getTrip]: [Trip.findOne({ _id, userId })], 404 when there is none. *)
Definition getTrip (uid id : nat) (w : World) : Response :=
  match findOwned id uid (trips w) with
  | None => Failure 404 "Trip not found"
  | Some trip => Success 200 (Some trip)
  end.

(** [getActiveTrip]: [Trip.findActiveTrip(req.user.id)]. *)
Definition getActiveTrip (uid : nat) (w : World) : Response :=
  match findActiveTrip uid (trips w) with
  | None => Failure 404 "No active trip found"
  | Some trip => Success 200 (Some trip)
  end.

(** [tripSchema.virtual('odometerDistance')]:
    [this.endOdometer ? this.endOdometer - this.startOdometer : 0]. *)
Definition odometerDistance (t : Trip) : Q :=
  match endOdometer t with
  | Some v => if Qeq_bool v 0 then 0%Q else (v - startOdometer t)%Q
  | None => 0%Q
  end.

(** [req.user.id] of a trip request. *)
Definition requestUser (r : Request) : nat :=
  match r with
  | CreateTrip _ _ uid _ => uid
  | UpdateTrip uid _ _ => uid
  | EndTrip _ _ uid _ _ => uid
  | DeleteTrip uid _ => uid
  | AddRoutePoint uid _ => uid
  | AddRoutePointsBulk uid _ => uid
  end.

Inductive UserDataResponse : Type :=
| UserDataSuccess (data : UserData)
| UserDataFailure (code : nat) (error : string).

(** [getUserData]: [UserData.findByUserId], and [UserData.create({ userId,
    currentOdometer: 0, activeTrip: null })] when there is no record. *)
Definition getUserData (uid : nat) (w : World) : World * UserDataResponse :=
  match userData w !! uid with
  | Some u => (w, UserDataSuccess u)
  | None =>
      let u := {| currentOdometer := 0; activeTrip := None |} in
      (withUserData (<[uid := u]> (userData w)) w, UserDataSuccess u)
  end.

(** [v < 0] of JavaScript, the left operand going through [Number]. *)
Definition lessThanZero `{JsRuntime} (v : JsValue) : bool :=
  match Number v with
  | NaN => false
  | Num q => if Qlt_le_dec q 0 then true else false
  end.

(** [updateOdometer]: the check [currentOdometer === undefined ||
    currentOdometer < 0], then [UserData.createOrUpdate(req.user.id, {
    currentOdometer })], that is [findOneAndUpdate({ userId }, {
    currentOdometer, updatedAt }, { new, upsert, runValidators })]: the value
    is cast as a [Number] path and validated ([required], [min: 0]); a
    record made by the upsert reads with the default [activeTrip: null]. *)
Definition updateOdometer `{JsRuntime} (uid : nat) (v : JsValue) (w : World)
  : World * UserDataResponse :=
  if match v with JsUndefined => true | _ => false end || lessThanZero v then
    (w, UserDataFailure 400 "Valid odometer reading is required")
  else
    match castNumber v with
    | Some q =>
        if Qle_bool 0 q then
          let u := {| currentOdometer := q;
                      activeTrip := userData w !! uid ≫= activeTrip |} in
          (withUserData (<[uid := u]> (userData w)) w, UserDataSuccess u)
        else (w, UserDataFailure 500 "Server error")
    | None => (w, UserDataFailure 500 "Server error")
    end.

(** The four things a trip request can do to the collection: nothing (a
    failure), insert the document it answers with, overwrite one Active
    document of the caller with the document it answers with, or delete one
    document of the caller. *)
Definition noTripChange (w : World) (out : World * Response) : Prop :=
  (exists code msg, out.2 = Failure code msg) /\
  trips out.1 = trips w /\ nextId out.1 = nextId w.

Definition inserted (uid : nat) (w : World) (out : World * Response) : Prop :=
  exists t, out.2 = Success 201 (Some t) /\
    trips out.1 = trips w ++ [t] /\ _id t = nextId w /\ userId t = uid /\
    status t = active /\ findActiveTrip uid (trips w) = None /\
    endOdometer t = None.

Definition overwritten (uid : nat) (w : World) (out : World * Response) : Prop :=
  exists trip t', out.2 = Success 200 (Some t') /\
    trip ∈ trips w /\ userId trip = uid /\ status trip = active /\
    _id t' = _id trip /\ userId t' = uid /\
    startOdometer t' = startOdometer trip /\ startTime t' = startTime trip /\
    purpose t' = purpose trip /\
    ((status t' = active /\ endOdometer t' = endOdometer trip) \/
     (status t' = completed /\ route t' = route trip /\
      endOdometer t' =
        Some (Math_max
                (startOdometer trip +
                 inject_Z (roundDistance (Num (orZero (Num (distance trip))))))
                (startOdometer trip)))) /\
    trips out.1 = replaceById t' (trips w) /\ nextId out.1 = nextId w.

Definition deleted (uid id : nat) (w : World) (out : World * Response) : Prop :=
  exists trip, out.2 = Success 200 None /\
    trip ∈ trips w /\ _id trip = id /\ userId trip = uid /\
    trips out.1 = findByIdAndDelete id (trips w) /\ nextId out.1 = nextId w.

(** ** Fixes sent one at a time, and the text of a cache key *)

(** The JSON body that carries a fix as four numbers. *)
Definition bodyOf (p : TripPoint) : Raw.Point :=
  {| Raw.latitude := JsNum (latitude p); Raw.longitude := JsNum (longitude p);
     Raw.accuracy := JsNum (accuracy p); Raw.timestamp := JsNum (timestamp p) |}.

(** The state after the fixes [ps] were sent by user [uid] in one
    [addRoutePoint] request each, in this order. *)
Definition appendEach `{JsRuntime} (uid : nat) (ps : list TripPoint)
    (w : World) : World :=
  foldl (fun w' p => (addRoutePoint uid (bodyOf p) w').1) w ps.

Fixpoint allChars (P : ascii -> bool) (s : string) : bool :=
  match s with
  | EmptyString => true
  | String c s' => P c && allChars P s'
  end.

Definition isDigit (c : ascii) : bool :=
  (48 <=? nat_of_ascii c)%nat && (nat_of_ascii c <=? 57)%nat.

Definition notComma (c : ascii) : bool := negb (Ascii.eqb c ",").

(** The integer that [x.toFixed(5)] prints, in units of [10^-5]: the [n] of
    [ReverseGeocode.toFixed5]. *)
Definition fixed5 (x : Q) : Z := Qfloor (Qabs x * 100000 + (1 # 2))%Q.

(** ** More worked requests *)

Section MoreWorkedRequests.
#[local] Existing Instance rationalRuntime.

(** User 7 has appended one fix to the trip of [oneActiveTrip]. *)
Definition oneFixAppended : World :=
  (addRoutePoint 7 (fixAt (1297 # 100) (7759 # 100) 5) oneActiveTrip).1.

(** User 7 has ended the trip of [oneActiveTrip] at time 5000. *)
Definition oneEndedTrip : World :=
  (endTrip 5000 noUpstream 7 0 (clientEnd 500) oneActiveTrip).1.

(** The document of [oneEndedTrip]. *)
Definition endedAt100 : Trip :=
  {| _id := 0; userId := 7; purpose := "Commute"; startTime := 1000;
     endTime := Some 5000%Z; startOdometer := 100; endOdometer := Some 100%Q;
     startLocation := None; endLocation := None; distance := 0;
     duration := 4; route := []; status := completed;
     averageSpeed := 0 # 40 |}.

(** A second runtime for worked examples, whose primitives obey the laws
    that some of the properties below assume of the sine (odd), the square
    root (0 at 0, never negative) and the arc tangent (0 for a zero first
    argument, not negative for a non-negative one). *)
Definition lawfulRuntime : JsRuntime :=
  {| Math_PI := 355 # 113;
     Math_sin := fun x => x;
     Math_cos := fun x => (1 - x * x / 2)%Q;
     Math_sqrt := fun x => Qabs x;
     Math_atan2 := fun y x => (y / (1 + Qabs x))%Q;
     StringToNumber := digitsToNumber;
     NumberToString := fun q => pretty (Qfloor q) |}.

(** The document of [oneFixAppended]. *)
Definition oneFixTrip : Trip :=
  set_route [ {| latitude := 1297 # 100; longitude := 7759 # 100;
                 timestamp := 1700000000000; accuracy := 5 |} ]
            startedAt100.

(** An Update that carries a start location only. *)
Definition renameStart : UpdateBody :=
  {| update_route := None; update_startLocation := JsStr "Home";
     update_endLocation := JsUndefined |}.

(** The address of an upstream answer with a village and a city. *)
Definition hampiAddress : gmap string string :=
  {[ "village" := "Hampi"; "city" := "Hosapete" ]}.

(** Two fixes. *)
Definition bengaluru : TripPoint :=
  {| latitude := 1297 # 100; longitude := 7759 # 100;
     timestamp := 1700000000000; accuracy := 5 |}.

Definition mysuru : TripPoint :=
  {| latitude := 1230 # 100; longitude := 7664 # 100;
     timestamp := 1700000600000; accuracy := 8 |}.
End MoreWorkedRequests.

(** Worked requests whose route has a leg of positive length: under
    [lawfulRuntime] the leg from [bengaluru] to [mysuru] rounds to 1 (the
    number is that of this runtime, not of the real functions). *)
Section LawfulWorkedRequests.
#[local] Existing Instance lawfulRuntime.

(** User 7 has sent the two fixes as one batch to the trip of
    [oneActiveTrip]. *)
Definition twoFixBatch : Request :=
  AddRoutePointsBulk 7 (Some [bodyOf bengaluru; bodyOf mysuru]).

Definition twoFixesAppended : World := (handle twoFixBatch oneActiveTrip).1.

(** The document of [twoFixesAppended]. *)
Definition twoFixTrip : Trip :=
  calculateMetrics (set_route [bengaluru; mysuru] startedAt100).

(** User 7 has then ended the trip at time 5000. *)
Definition twoFixesEnded : World :=
  (endTrip 5000 noUpstream 7 0 (clientEnd 500) twoFixesAppended).1.

(** The document of [twoFixesEnded]. *)
Definition twoFixEnded : Trip :=
  calculateMetrics (set_completed 5000 101 twoFixTrip).

(** A fix whose four fields are sent as strings. *)
Definition stringFix : Raw.Point :=
  {| Raw.latitude := JsStr "12"; Raw.longitude := JsStr "77";
     Raw.accuracy := JsStr "5"; Raw.timestamp := JsStr "1700" |}.

(** User 7 has an Active trip, and a ledger record that is behind: it
    stands at 80 and points at no trip. *)
Definition ledgerBehind : World :=
  withUserData {[ 7%nat := {| currentOdometer := 80; activeTrip := None |} ]}
               oneActiveTrip.
End LawfulWorkedRequests.

(** ** Lemmas on the collection operations *)

Lemma find_elem_of {A} (f : A -> bool) (l : list A) (x : A) :
  List.find f l = Some x -> x ∈ l /\ f x = true.
Proof.
  intros Hf. apply find_some in Hf as [Hin Hfx].
  split; [by apply list_elem_of_In | done].
Qed.

Lemma activeCount_none (uid : nat) (ts : list Trip) :
  findActiveTrip uid ts = None -> activeCount uid ts = 0%nat.
Proof.
  unfold findActiveTrip, activeCount.
  induction ts as [|t ts IH]; simpl; [done|].
  destruct (isActiveOf uid t); [done|]. exact IH.
Qed.

Lemma activeCount_some (uid : nat) (ts : list Trip) (t : Trip) :
  findActiveTrip uid ts = Some t -> (1 <= activeCount uid ts)%nat.
Proof.
  unfold findActiveTrip, activeCount.
  induction ts as [|x ts IH]; simpl; [done|].
  destruct (isActiveOf uid x); simpl; [lia | exact IH].
Qed.

Lemma activeCount_app (uid : nat) (ts1 ts2 : list Trip) :
  activeCount uid (ts1 ++ ts2) = (activeCount uid ts1 + activeCount uid ts2)%nat.
Proof. unfold activeCount. by rewrite List.filter_app, length_app. Qed.

Lemma activeCount_delete (uid id : nat) (ts : list Trip) :
  (activeCount uid (findByIdAndDelete id ts) <= activeCount uid ts)%nat.
Proof.
  unfold activeCount, findByIdAndDelete.
  induction ts as [|x ts IH]; simpl; [done|].
  destruct (negb (_id x =? id)%nat); simpl;
    destruct (isActiveOf uid x); simpl; lia.
Qed.

Lemma ids_replaceById (t' : Trip) (ts : list Trip) :
  _id <$> replaceById t' ts = _id <$> ts.
Proof.
  unfold replaceById. induction ts as [|x ts IH]; csimpl; [done|].
  rewrite IH. f_equal.
  destruct (Nat.eqb_spec (_id x) (_id t')); congruence.
Qed.

Lemma elem_of_replaceById (t' x : Trip) (ts : list Trip) :
  x ∈ replaceById t' ts -> x = t' \/ x ∈ ts.
Proof.
  unfold replaceById. induction ts as [|y ts IH]; simpl.
  - intros Hx. by apply elem_of_nil in Hx.
  - intros Hx. apply elem_of_cons in Hx as [->|Hx].
    + destruct (_id y =? _id t')%nat; [by left | right; apply elem_of_cons; by left].
    + destruct (IH Hx) as [->|Hin]; [by left | right; apply elem_of_cons; by right].
Qed.

Lemma replaceById_elem_of (t' trip : Trip) (ts : list Trip) :
  trip ∈ ts -> _id t' = _id trip -> t' ∈ replaceById t' ts.
Proof.
  unfold replaceById. induction ts as [|y ts IH]; simpl; intros Hin Hid.
  - by apply elem_of_nil in Hin.
  - apply elem_of_cons in Hin as [->|Hin].
    + rewrite Hid, Nat.eqb_refl. apply elem_of_cons; by left.
    + apply elem_of_cons; right. by apply IH.
Qed.

(** With unique ids, the write replaces the one stored document. *)
Lemma activeCount_replaceById (uid : nat) (t' trip : Trip) (ts : list Trip) :
  NoDup (_id <$> ts) -> trip ∈ ts -> _id t' = _id trip ->
  (isActiveOf uid t' = true -> isActiveOf uid trip = true) ->
  (activeCount uid (replaceById t' ts) <= activeCount uid ts)%nat.
Proof.
  unfold activeCount, replaceById.
  induction ts as [|x ts IH]; simpl; intros Hnd Hin Hid Hact; [done|].
  apply NoDup_cons in Hnd as [Hx Hnd].
  destruct (Nat.eqb_spec (_id x) (_id t')) as [Heq|Hne].
  - assert (x = trip) as ->.
    { apply elem_of_cons in Hin as [->|Hin]; [done|].
      exfalso. apply Hx. rewrite Heq, Hid. by apply list_elem_of_fmap_2. }
    assert (map (fun y => if (_id y =? _id t')%nat then t' else y) ts = ts) as ->.
    { clear IH Hin Hnd. induction ts as [|y ts IH]; simpl; [done|].
      destruct (Nat.eqb_spec (_id y) (_id t')) as [Hy|Hy].
      - exfalso. apply Hx. rewrite <- Hid, <- Hy. apply elem_of_cons; by left.
      - f_equal. apply IH. intros Hin. apply Hx. apply elem_of_cons; by right. }
    destruct (isActiveOf uid t') eqn:Ht'; simpl.
    + rewrite (Hact eq_refl). simpl. lia.
    + destruct (isActiveOf uid trip); simpl; lia.
  - apply elem_of_cons in Hin as [->|Hin]; [congruence|].
    specialize (IH Hnd Hin Hid Hact).
    destruct (isActiveOf uid x); simpl; lia.
Qed.

Section Preservation.
Context `{JsRuntime}.

Lemma storeInv_append (ts : list Trip) (n : nat) (t : Trip) :
  storeInv ts n -> _id t = n -> tripInv t ->
  (status t = active -> findActiveTrip (userId t) ts = None) ->
  storeInv (ts ++ [t]) (S n).
Proof.
  intros (Hnd & Hlt & Hinv & Hcnt) Hid Ht Hact. repeat split.
  - rewrite fmap_app. apply NoDup_app. split; [done|]. split.
    + intros i Hi Hi'. apply list_elem_of_fmap in Hi as (x & -> & Hx).
      rewrite Forall_forall in Hlt. specialize (Hlt x Hx).
      apply list_elem_of_singleton in Hi'. simpl in Hi'. lia.
    + apply NoDup_singleton.
  - apply Forall_app. split.
    + eapply Forall_impl; [exact Hlt|]. simpl. intros; lia.
    + apply Forall_singleton. lia.
  - apply Forall_app. split; [done | by apply Forall_singleton].
  - intros uid. rewrite activeCount_app. unfold activeCount at 2. simpl.
    destruct (isActiveOf uid t) eqn:Hu; simpl; [|specialize (Hcnt uid); lia].
    unfold isActiveOf in Hu. apply andb_true_iff in Hu as [Hu Hs].
    apply Nat.eqb_eq in Hu. apply bool_decide_eq_true in Hs.
    rewrite <- Hu, (activeCount_none _ _ (Hact Hs)). lia.
Qed.

Lemma storeInv_replace (ts : list Trip) (n : nat) (trip t' : Trip) :
  storeInv ts n -> trip ∈ ts -> _id t' = _id trip -> userId t' = userId trip ->
  (status t' = active -> status trip = active) -> tripInv t' ->
  storeInv (replaceById t' ts) n.
Proof.
  intros (Hnd & Hlt & Hinv & Hcnt) Hin Hid Hu Hs Ht'. repeat split.
  - by rewrite ids_replaceById.
  - rewrite Forall_forall in Hlt. apply Forall_forall. intros x Hx.
    apply elem_of_replaceById in Hx as [->|Hx]; [|by apply Hlt].
    rewrite Hid. by apply Hlt.
  - rewrite Forall_forall in Hinv. apply Forall_forall. intros x Hx.
    apply elem_of_replaceById in Hx as [->|Hx]; [done | by apply Hinv].
  - intros uid. etrans; [|exact (Hcnt uid)].
    apply (activeCount_replaceById uid t' trip); try done.
    unfold isActiveOf. rewrite Hu. intros Ha.
    apply andb_true_iff in Ha as [Ha1 Ha2]. apply bool_decide_eq_true in Ha2.
    rewrite Ha1. simpl. apply bool_decide_eq_true. by apply Hs.
Qed.

Lemma elem_of_findByIdAndDelete (id : nat) (x : Trip) (ts : list Trip) :
  x ∈ findByIdAndDelete id ts -> x ∈ ts.
Proof.
  unfold findByIdAndDelete. intros Hx.
  apply list_elem_of_In in Hx. apply List.filter_In in Hx as [Hx _].
  by apply list_elem_of_In.
Qed.

Lemma storeInv_delete (ts : list Trip) (n id : nat) :
  storeInv ts n -> storeInv (findByIdAndDelete id ts) n.
Proof.
  intros (Hnd & Hlt & Hinv & Hcnt). repeat split.
  - clear Hlt Hinv Hcnt. unfold findByIdAndDelete.
    induction ts as [|x ts IH]; csimpl; [done|].
    apply NoDup_cons in Hnd as [Hx Hnd].
    destruct (negb (_id x =? id)%nat); csimpl; [|by apply IH].
    apply NoDup_cons. split; [|by apply IH].
    intros Hin. apply Hx. apply list_elem_of_fmap in Hin as (y & -> & Hy).
    apply list_elem_of_fmap_2. by apply (elem_of_findByIdAndDelete id).
  - rewrite Forall_forall in Hlt. apply Forall_forall. intros x Hx.
    apply Hlt. by apply (elem_of_findByIdAndDelete id).
  - rewrite Forall_forall in Hinv. apply Forall_forall. intros x Hx.
    apply Hinv. by apply (elem_of_findByIdAndDelete id).
  - intros uid. etrans; [apply activeCount_delete | apply Hcnt].
Qed.

(** [calculateMetrics] touches the three derived fields only. *)
Lemma calculateMetrics_fields (t : Trip) :
  _id (calculateMetrics t) = _id t /\
  userId (calculateMetrics t) = userId t /\
  status (calculateMetrics t) = status t /\
  route (calculateMetrics t) = route t /\
  startTime (calculateMetrics t) = startTime t /\
  endTime (calculateMetrics t) = endTime t /\
  startOdometer (calculateMetrics t) = startOdometer t /\
  endOdometer (calculateMetrics t) = endOdometer t.
Proof.
  unfold calculateMetrics.
  destruct (endTime t) eqn:He; simpl; rewrite ?He; done.
Qed.

Lemma calculateMetrics_distance (t : Trip) :
  distance (calculateMetrics t) = totalDistance (route t).
Proof. unfold calculateMetrics. by destruct (endTime t). Qed.

(** The hook re-establishes the invariant of a document, provided the
    [duration] and [averageSpeed] it leaves alone (no [endTime]) are still
    the defaults. *)
Lemma validate_calculateMetrics (t : Trip) :
  validate (calculateMetrics t) = validate t.
Proof.
  unfold calculateMetrics.
  destruct (endTime t) eqn:He; unfold validate; simpl; rewrite ?He; done.
Qed.

Lemma calculateMetrics_tripInv (t : Trip) :
  (endTime t = None -> duration t = 0%Z /\ averageSpeed t = 0%Q) ->
  (status t = active <-> endTime t = None) ->
  validate t = true ->
  tripInv (calculateMetrics t).
Proof.
  intros Hdef Hst Hv. unfold tripInv. rewrite validate_calculateMetrics.
  unfold metricsFresh, timingFresh, calculateMetrics.
  destruct (endTime t) as [e|] eqn:He; simpl; rewrite ?He.
  - repeat split; try done; apply Hst.
  - destruct (Hdef eq_refl) as [-> ->]. repeat split; try done; apply Hst.
Qed.

Lemma save_Some (t t' : Trip) (ts ts' : list Trip) :
  save t ts = Some (t', ts') ->
  validate t = true /\ t' = calculateMetrics t /\ ts' = replaceById t' ts.
Proof.
  unfold save. destruct (validate t); [|done].
  intros [= <- <-]. done.
Qed.
End Preservation.

Section HandlersPreserve.
Context `{JsRuntime}.

Lemma save_storeInv (ts ts' : list Trip) (n : nat) (trip t t' : Trip) :
  storeInv ts n -> trip ∈ ts -> editOf trip t ->
  save t ts = Some (t', ts') ->
  storeInv ts' n /\ tripInv t' /\ t' ∈ ts'.
Proof.
  intros Hinv Hin (Hid & Hu & Hed) Hsave.
  apply save_Some in Hsave as (Hv & -> & ->).
  destruct (calculateMetrics_fields t) as (Fid & Fu & Fs & _ & _ & Fe & _).
  assert (tripInv trip) as (_ & Htime & Hst & _).
  { destruct Hinv as (_ & _ & Hall & _). rewrite Forall_forall in Hall. auto. }
  assert (tripInv (calculateMetrics t)) as Hnew.
  { apply calculateMetrics_tripInv.
    - destruct Hed as [(_ & He & Hd & Ha)|(_ & He)]; [|done].
      intros Hnone. rewrite He in Hnone. unfold timingFresh in Htime.
      rewrite Hnone in Htime. by rewrite Hd, Ha.
    - destruct Hed as [(Hs & He & _)|(Hs & He)].
      + by rewrite Hs, He.
      + rewrite Hs. split; [done | by intros].
    - exact Hv. }
  split; [|split; [done|]].
  - apply (storeInv_replace ts n trip); try done; try congruence.
    rewrite Fs. destruct Hed as [(Hs & _)|(Hs & _)]; congruence.
  - apply (replaceById_elem_of _ trip); [done | congruence].
Qed.

Lemma Trip_create_Some (now : Z) (id uid : nat) (purp : string)
    (so : JsNumber) (r : list Raw.Point) (loc : option string) (trip : Trip) :
  Trip_create now id uid purp so r loc = Some trip ->
  _id trip = id /\ userId trip = uid /\ status trip = active /\
  so = Num (startOdometer trip) /\ startTime trip = now /\
  (0 <= startOdometer trip)%Q /\ tripInv trip.
Proof.
  unfold Trip_create. destruct so as [|q]; [done|].
  destruct (castRoute r) as [r'|]; [|done].
  match goal with |- context [validate ?t] => set (t0 := t) end.
  destruct (validate t0) eqn:Hv; [|done]. intros [= <-].
  assert (tripInv (calculateMetrics t0)) as Hinv
    by (by apply calculateMetrics_tripInv).
  assert (0 <= q)%Q as Hq.
  { unfold validate in Hv. repeat (apply andb_true_iff in Hv as [Hv ?]).
    by apply Qle_bool_iff. }
  destruct (calculateMetrics_fields t0) as (-> & -> & -> & _ & -> & _ & -> & _).
  done.
Qed.

Lemma handlerOk_failure (w : World) (code : nat) (msg : string) :
  worldInv w -> handlerOk (w, Failure code msg).
Proof. intros Hw. split; [done | intros ? ? [=]]. Qed.

Lemma handlerOk_saved (w : World) (ud : gmap nat UserData)
    (c : gmap string ReverseGeocode.Entry) (trip t t' : Trip)
    (ts' : list Trip) (code : nat) :
  worldInv w -> trip ∈ trips w -> editOf trip t ->
  save t (trips w) = Some (t', ts') ->
  handlerOk ({| trips := ts'; userData := ud; cache := c; nextId := nextId w |},
             Success code (Some t')).
Proof.
  intros Hw Hin He Hs.
  destruct (save_storeInv _ _ _ _ _ _ Hw Hin He Hs) as (Hst & Ht' & Hin').
  split; [exact Hst | intros ? ? [= _ <-]; done].
Qed.

Lemma createTrip_ok now upstream uid body (w : World) :
  worldInv w -> handlerOk (createTrip now upstream uid body w).
Proof.
  intros Hw. unfold createTrip.
  destruct (negb (truthy (create_purpose body)) ||
            negb (truthy (create_startOdometer body)));
    [by apply handlerOk_failure|].
  destruct (findActiveTrip uid (trips w)) eqn:Hact;
    [by apply handlerOk_failure|].
  match goal with |- context [match ?c with Some _ => _ | None => _ end] =>
    destruct c as [trip|] eqn:Hc end; [|by apply handlerOk_failure].
  assert (_id trip = nextId w /\ userId trip = uid /\ tripInv trip)
    as (Hid & Hu & Ht).
  { destruct (create_purpose body); try done.
    apply Trip_create_Some in Hc. tauto. }
  split.
  - unfold worldInv. simpl. apply storeInv_append; try done.
    intros _. by rewrite Hu.
  - intros ? ? [= _ <-]. simpl. split; [|done].
    apply elem_of_app. right. by apply list_elem_of_singleton.
Qed.

Lemma updateTrip_ok uid id body (w : World) :
  worldInv w -> handlerOk (updateTrip uid id body w).
Proof.
  intros Hw. unfold updateTrip.
  destruct (findOwned id uid (trips w)) as [trip|] eqn:Hf;
    [|by apply handlerOk_failure].
  apply find_elem_of in Hf as [Hin _].
  case_bool_decide; [by apply handlerOk_failure|].
  match goal with |- context [match ?c with Some _ => _ | None => _ end] =>
    destruct c as [t|] eqn:Hc end; [|by apply handlerOk_failure].
  match goal with |- context [save ?x (trips w)] =>
    destruct (save x (trips w)) as [[t' ts']|] eqn:Hs end;
    [|by apply handlerOk_failure].
  eapply (handlerOk_saved w _ _ trip); [exact Hw | exact Hin | | exact Hs].
  assert (editOf trip t) as (E1 & E2 & E3).
  { destruct (update_route body) as [r|]; simpl in Hc.
    - destruct (castRoute r); simplify_eq/=. unfold editOf; simpl. tauto.
    - simplify_eq. unfold editOf. tauto. }
  repeat case_match; unfold editOf; simpl; tauto.
Qed.

Lemma deleteTrip_ok uid id (w : World) :
  worldInv w -> handlerOk (deleteTrip uid id w).
Proof.
  intros Hw. unfold deleteTrip.
  destruct (findOwned id uid (trips w)); [|by apply handlerOk_failure].
  split; [|intros ? ? [=]].
  unfold worldInv. simpl. by apply storeInv_delete.
Qed.

Lemma findOwnedActive_Some id uid (ts : list Trip) (trip : Trip) :
  findOwnedActive id uid ts = Some trip ->
  trip ∈ ts /\ _id trip = id /\ userId trip = uid /\ status trip = active.
Proof.
  unfold findOwnedActive, isActiveOf. intros Hf.
  apply find_elem_of in Hf as [Hin Hp].
  apply andb_true_iff in Hp as [Hi Hp]. apply andb_true_iff in Hp as [Hu Hs].
  apply Nat.eqb_eq in Hi, Hu. by apply bool_decide_eq_true in Hs.
Qed.

Lemma findActiveTrip_Some uid (ts : list Trip) (trip : Trip) :
  findActiveTrip uid ts = Some trip ->
  trip ∈ ts /\ userId trip = uid /\ status trip = active.
Proof.
  unfold findActiveTrip, isActiveOf. intros Hf.
  apply find_elem_of in Hf as [Hin Hp].
  apply andb_true_iff in Hp as [Hu Hs].
  apply Nat.eqb_eq in Hu. by apply bool_decide_eq_true in Hs.
Qed.

Lemma endTrip_ok now upstream uid id body (w : World) :
  worldInv w -> handlerOk (endTrip now upstream uid id body w).
Proof.
  intros Hw. unfold endTrip.
  destruct (findOwnedActive id uid (trips w)) as [trip|] eqn:Hf;
    [|by apply handlerOk_failure].
  apply findOwnedActive_Some in Hf as (Hin & _).
  match goal with |- context [save ?x (trips w)] =>
    destruct (save x (trips w)) as [[t' ts']|] eqn:Hs end;
    [|by apply handlerOk_failure].
  eapply (handlerOk_saved w _ _ trip); [exact Hw | exact Hin | | exact Hs].
  repeat case_match; unfold editOf; simpl; (split; [done|split; [done|by right]]).
Qed.

Lemma pushAndSave_ok uid (trip : Trip) pts failure (w : World) :
  worldInv w -> trip ∈ trips w ->
  handlerOk (pushAndSave uid trip pts failure w).
Proof.
  intros Hw Hin. unfold pushAndSave.
  destruct (save _ (trips w)) as [[t' ts']|] eqn:Hs;
    [|by apply handlerOk_failure].
  eapply (handlerOk_saved w _ _ trip); [exact Hw | exact Hin | | exact Hs].
  unfold editOf; simpl. tauto.
Qed.

Lemma addRoutePoint_ok uid body (w : World) :
  worldInv w -> handlerOk (addRoutePoint uid body w).
Proof.
  intros Hw. unfold addRoutePoint.
  case_match; [by apply handlerOk_failure|].
  destruct (findActiveTrip uid (trips w)) as [trip|] eqn:Hf;
    [|by apply handlerOk_failure].
  apply findActiveTrip_Some in Hf as (Hin & _).
  repeat case_match; try (by apply handlerOk_failure);
    by apply pushAndSave_ok.
Qed.

Lemma addRoutePointsBulk_ok uid points (w : World) :
  worldInv w -> handlerOk (addRoutePointsBulk uid points w).
Proof.
  intros Hw. unfold addRoutePointsBulk.
  destruct points as [[|p pts]|]; try (by apply handlerOk_failure).
  destruct (findActiveTrip uid (trips w)) as [trip|] eqn:Hf;
    [|by apply handlerOk_failure].
  apply findActiveTrip_Some in Hf as (Hin & _).
  destruct (sanitize (p :: pts)); [by apply handlerOk_failure|].
  by apply pushAndSave_ok.
Qed.

Lemma handle_ok (r : Request) (w : World) :
  worldInv w -> handlerOk (handle r w).
Proof.
  destruct r; simpl.
  - apply createTrip_ok.
  - apply updateTrip_ok.
  - apply endTrip_ok.
  - apply deleteTrip_ok.
  - apply addRoutePoint_ok.
  - apply addRoutePointsBulk_ok.
Qed.

Lemma reachable_inv (w : World) : reachable w -> worldInv w.
Proof.
  induction 1 as [|r w _ IH|ud w _ IH].
  - unfold worldInv, storeInv, activeCount. simpl.
    split; [constructor|]. split; [constructor|]. split; [constructor|].
    intros _. lia.
  - by apply handle_ok.
  - exact IH.
Qed.
End HandlersPreserve.

(** ** The rounding rule *)

Lemma orZero_Qeq (d : Q) : (orZero (Num d) == d)%Q.
Proof.
  unfold orZero. destruct (Qeq_bool d 0) eqn:Hd; [|reflexivity].
  apply Qeq_bool_iff in Hd. by rewrite Hd.
Qed.

Lemma orZero_idempotent (x : JsNumber) : orZero (Num (orZero x)) = orZero x.
Proof.
  destruct x as [|q]; simpl; [done|].
  destruct (Qeq_bool q 0) eqn:Hq; simpl; [done | by rewrite Hq].
Qed.

Lemma roundDistance_orZero (x : JsNumber) :
  roundDistance (Num (orZero x)) = roundDistance x.
Proof. unfold roundDistance. by rewrite orZero_idempotent. Qed.

(** The rule only looks at the value of the number, not at the fraction
    that represents it. *)
Lemma roundDistance_Qeq (d : Q) :
  roundDistance (Num d) =
  (Qfloor d + (if Qlt_le_dec (1 # 2) (d - inject_Z (Qfloor d)) then 1 else 0))%Z.
Proof.
  unfold roundDistance.
  pose proof (orZero_Qeq d) as He.
  assert (Qfloor (orZero (Num d)) = Qfloor d) as Hfl by (by rewrite He).
  rewrite Hfl.
  destruct (Qlt_le_dec (1 # 2) (orZero (Num d) - inject_Z (Qfloor d))) as [H1|H1];
    destruct (Qlt_le_dec (1 # 2) (d - inject_Z (Qfloor d))) as [H2|H2];
    try reflexivity; exfalso; rewrite He in H1; lra.
Qed.

Lemma roundDistance_nonneg (d : Q) : (0 <= d)%Q -> (0 <= roundDistance (Num d))%Z.
Proof.
  intros Hd. rewrite roundDistance_Qeq.
  assert (0 <= Qfloor d)%Z.
  { change 0%Z with (Qfloor 0). by apply Qfloor_resp_le. }
  destruct (Qlt_le_dec _ _); lia.
Qed.

(** C3. For every distance [d] (a fortiori for every [d >= 0]) the odometer
    rounding returns [floor d], plus one exactly when the fractional part
    [d - floor d] is strictly above one half: round-half-down.  Hence
    [roundDistance 2.5 = 2], [roundDistance 2.51 = 3], [roundDistance 2.0 = 2]
    and [roundDistance 0.49 = 0]. *)
Theorem roundDistance_round_half_down :
  (forall d : Q,
     roundDistance (Num d) =
     (Qfloor d +
      (if Qlt_le_dec (1 # 2) (d - inject_Z (Qfloor d)) then 1 else 0))%Z) /\
  roundDistance (Num (25 # 10)) = 2%Z /\
  roundDistance (Num (251 # 100)) = 3%Z /\
  roundDistance (Num (2 # 1)) = 2%Z /\
  roundDistance (Num (49 # 100)) = 0%Z.
Proof.
  split; [exact roundDistance_Qeq|]. repeat split; reflexivity.
Qed.

(** ** The metrics computation *)

Section MetricsFacts.
Context `{JsRuntime}.

Lemma specDistance_cons2 (p q : TripPoint) (rest : list TripPoint) :
  specDistance (p :: q :: rest) =
  (calculateHaversineDistance p q + specDistance (q :: rest))%Q.
Proof. reflexivity. Qed.

Lemma sumLegs_specDistance (rest : list TripPoint) :
  forall (prev : TripPoint) (acc : Q),
    (sumLegs prev rest acc == acc + specDistance (prev :: rest))%Q.
Proof.
  induction rest as [|curr rest IH]; intros prev acc.
  - unfold specDistance. simpl. lra.
  - simpl sumLegs. rewrite IH, specDistance_cons2. lra.
Qed.

Lemma totalDistance_short (r : list TripPoint) :
  (length r < 2)%nat -> totalDistance r = 0%Q.
Proof.
  intros Hlen. unfold totalDistance.
  destruct (Nat.leb_spec 2 (length r)); [lia | done].
Qed.

Lemma totalDistance_specDistance (r : list TripPoint) :
  (totalDistance r == specDistance r)%Q.
Proof.
  unfold totalDistance. destruct (Nat.leb_spec 2 (length r)) as [Hlen|Hlen].
  - destruct r as [|first rest]; [reflexivity|].
    rewrite sumLegs_specDistance. lra.
  - destruct r as [|p [|q r]]; simpl in Hlen; try lia; reflexivity.
Qed.

(** The order of the additions of the loop, on a route of three fixes. *)
Lemma totalDistance_three (p q r : TripPoint) :
  totalDistance [p; q; r] =
  (0 + calculateHaversineDistance p q + calculateHaversineDistance q r)%Q.
Proof. reflexivity. Qed.

Lemma sumLegs_nonneg (rest : list TripPoint) :
  (forall p q, 0 <= calculateHaversineDistance p q)%Q ->
  forall (prev : TripPoint) (acc : Q), (0 <= acc)%Q -> (0 <= sumLegs prev rest acc)%Q.
Proof.
  intros Hh. induction rest as [|curr rest IH]; intros prev acc Hacc; simpl.
  - exact Hacc.
  - apply IH. specialize (Hh prev curr). lra.
Qed.

Lemma totalDistance_nonneg (r : list TripPoint) :
  (forall p q, 0 <= calculateHaversineDistance p q)%Q ->
  (0 <= totalDistance r)%Q.
Proof.
  intros Hh. unfold totalDistance.
  destruct (2 <=? length r)%nat; [|lra].
  destruct r as [|first rest]; [lra|]. apply sumLegs_nonneg; [done | lra].
Qed.

(** C4. The metrics computation sets [distance] to 0 for a route of fewer
    than two fixes and otherwise to the sum, over the consecutive pairs of
    fixes, of the haversine distance (Earth radius 6371 km); with an
    [endTime] it sets [duration] to [max 0 (floor ((endTime - startTime) /
    1000))] seconds and [averageSpeed] to [distance / duration * 3.6] when
    the duration is positive and to 0 otherwise; and for every trip that is
    Active in a reachable state there is no [endTime] and the computation
    gives duration 0 and average speed 0. *)
Theorem calculateMetrics_correct :
  (forall t : Trip,
     ((length (route t) < 2)%nat -> distance (calculateMetrics t) = 0%Q) /\
     (distance (calculateMetrics t) == specDistance (route t))%Q /\
     (forall p q : TripPoint,
        calculateHaversineDistance p q =
        (6371 * (2 * Math_atan2
           (Math_sqrt
              (Math_sin ((latitude q - latitude p) * Math_PI / 180 / 2) *
               Math_sin ((latitude q - latitude p) * Math_PI / 180 / 2) +
               Math_cos (latitude p * Math_PI / 180) *
               Math_cos (latitude q * Math_PI / 180) *
               Math_sin ((longitude q - longitude p) * Math_PI / 180 / 2) *
               Math_sin ((longitude q - longitude p) * Math_PI / 180 / 2)))
           (Math_sqrt
              (1 -
               (Math_sin ((latitude q - latitude p) * Math_PI / 180 / 2) *
                Math_sin ((latitude q - latitude p) * Math_PI / 180 / 2) +
                Math_cos (latitude p * Math_PI / 180) *
                Math_cos (latitude q * Math_PI / 180) *
                Math_sin ((longitude q - longitude p) * Math_PI / 180 / 2) *
                Math_sin ((longitude q - longitude p) * Math_PI / 180 / 2))))))%Q) /\
     (forall e : Z, endTime t = Some e ->
        duration (calculateMetrics t) = Z.max 0 ((e - startTime t) / 1000) /\
        averageSpeed (calculateMetrics t) =
          if (0 <? duration (calculateMetrics t))%Z
          then (distance (calculateMetrics t) /
                inject_Z (duration (calculateMetrics t)) * (36 # 10))%Q
          else 0%Q)) /\
  (forall (w : World) (t : Trip),
     reachable w -> t ∈ trips w -> status t = active ->
     endTime t = None /\
     duration (calculateMetrics t) = 0%Z /\
     averageSpeed (calculateMetrics t) = 0%Q).
Proof.
  split.
  - intros t. rewrite calculateMetrics_distance. split; [|split; [|split]].
    + apply totalDistance_short.
    + apply totalDistance_specDistance.
    + reflexivity.
    + intros e He. unfold calculateMetrics. rewrite He. simpl. done.
  - intros w t Hw Hin Hact.
    apply reachable_inv in Hw as (_ & _ & Hall & _).
    rewrite Forall_forall in Hall.
    destruct (Hall t Hin) as (_ & Htime & Hst & _).
    apply Hst in Hact. unfold timingFresh in Htime. rewrite Hact in Htime.
    unfold calculateMetrics. rewrite Hact. simpl. tauto.
Qed.
End MetricsFacts.

(** ** Trimming, and the uniqueness of stored documents *)










Lemma unique_id (ts : list Trip) (x y : Trip) :
  NoDup (_id <$> ts) -> x ∈ ts -> y ∈ ts -> _id x = _id y -> x = y.
Proof.
  induction ts as [|z ts IH]; csimpl; intros Hnd Hx Hy Hid.
  - by apply elem_of_nil in Hx.
  - apply NoDup_cons in Hnd as [Hz Hnd].
    apply elem_of_cons in Hx as [->|Hx]; apply elem_of_cons in Hy as [->|Hy].
    + done.
    + exfalso. apply Hz. rewrite Hid. by apply list_elem_of_fmap_2.
    + exfalso. apply Hz. rewrite <- Hid. by apply list_elem_of_fmap_2.
    + by apply IH.
Qed.

Lemma unique_active (uid : nat) (ts : list Trip) (x y : Trip) :
  (activeCount uid ts <= 1)%nat -> x ∈ ts -> y ∈ ts ->
  isActiveOf uid x = true -> isActiveOf uid y = true -> x = y.
Proof.
  unfold activeCount. intros Hc Hx Hy Hax Hay.
  assert (x ∈ List.filter (isActiveOf uid) ts) as Hx'.
  { apply list_elem_of_In, List.filter_In. by rewrite <- list_elem_of_In. }
  assert (y ∈ List.filter (isActiveOf uid) ts) as Hy'.
  { apply list_elem_of_In, List.filter_In. by rewrite <- list_elem_of_In. }
  destruct (List.filter (isActiveOf uid) ts) as [|a [|b l]]; simpl in Hc.
  - by apply elem_of_nil in Hx'.
  - apply list_elem_of_singleton in Hx', Hy'. congruence.
  - lia.
Qed.

Lemma isActiveOf_true (uid : nat) (t : Trip) :
  isActiveOf uid t = true <-> userId t = uid /\ status t = active.
Proof.
  unfold isActiveOf. rewrite andb_true_iff, Nat.eqb_eq, bool_decide_eq_true.
  done.
Qed.

(** ** Lifecycle invariants *)

Section Lifecycle.
Context `{JsRuntime}.

Lemma tripInv_calculateMetrics (t : Trip) :
  tripInv t -> calculateMetrics t = t.
Proof.
  intros (Hd & Htime & _). unfold metricsFresh in Hd.
  unfold timingFresh in Htime. unfold calculateMetrics.
  destruct t as [i u p st et so eo sl el d du r s av]. simpl in *.
  destruct et as [e|]; unfold set_metrics; simpl.
  - destruct Htime as [Hdu Hav]. rewrite <- Hdu, <- Hd, <- Hav. done.
  - by rewrite <- Hd.
Qed.

Lemma findActiveTrip_exists (uid : nat) (ts : list Trip) (t : Trip) :
  t ∈ ts -> userId t = uid -> status t = active ->
  exists t', findActiveTrip uid ts = Some t'.
Proof.
  intros Hin Hu Hs. unfold findActiveTrip.
  destruct (List.find (isActiveOf uid) ts) as [t'|] eqn:Hf; [by exists t'|].
  exfalso. apply list_elem_of_In in Hin.
  pose proof (find_none _ _ Hf t Hin) as Hno.
  unfold isActiveOf in Hno. rewrite Hu, Nat.eqb_refl in Hno. simpl in Hno.
  by apply bool_decide_eq_false in Hno.
Qed.

(** What the invariant of a stored document says in the terms of the
    specification: the distance is the sum of the great-circle distances of
    the consecutive fixes, the duration and the speed of an ended trip are
    the ones its times and distance give, and the hook changes nothing. *)
Lemma tripInv_fresh (t : Trip) :
  tripInv t ->
  (distance t == specDistance (route t))%Q /\
  (forall e, endTime t = Some e ->
     duration t = Z.max 0 ((e - startTime t) / 1000) /\
     averageSpeed t =
       if (0 <? duration t)%Z
       then (distance t / inject_Z (duration t) * (36 # 10))%Q else 0%Q) /\
  calculateMetrics t = t.
Proof.
  intros Ht. pose proof Ht as (Hd & Htime & _).
  split; [|split].
  - unfold metricsFresh in Hd. rewrite Hd. apply totalDistance_specDistance.
  - intros e He. unfold timingFresh in Htime. by rewrite He in Htime.
  - by apply tripInv_calculateMetrics.
Qed.

(** C5. In every reachable state, after any request (Start, AppendFix single
    or bulk, Update, End, Delete) every persisted trip, and the trip the
    request answers with, has its [distance] equal to the sum of the
    great-circle distances of the consecutive fixes of its current route,
    the duration and average speed of an ended trip are the ones its times
    and distance give, and re-running the computation changes none of its
    derived fields. *)
Theorem derived_fields_never_stale (r : Request) (w : World) :
  reachable w ->
  Forall (fun t =>
            (distance t == specDistance (route t))%Q /\
            (forall e, endTime t = Some e ->
               duration t = Z.max 0 ((e - startTime t) / 1000) /\
               averageSpeed t =
                 if (0 <? duration t)%Z
                 then (distance t / inject_Z (duration t) * (36 # 10))%Q
                 else 0%Q) /\
            calculateMetrics t = t)
         (trips (handle r w).1) /\
  forall c t, (handle r w).2 = Success c (Some t) ->
    t ∈ trips (handle r w).1 /\
    (distance t == specDistance (route t))%Q /\
    (forall e, endTime t = Some e ->
       duration t = Z.max 0 ((e - startTime t) / 1000) /\
       averageSpeed t =
         if (0 <? duration t)%Z
         then (distance t / inject_Z (duration t) * (36 # 10))%Q
         else 0%Q) /\
    calculateMetrics t = t.
Proof.
  intros Hw. apply reachable_inv in Hw.
  destruct (handle_ok r w Hw) as ((_ & _ & Hall & _) & Hdata).
  split.
  - eapply Forall_impl; [exact Hall|]. simpl. intros t Ht.
    by apply tripInv_fresh.
  - intros c t Hr. destruct (Hdata c t Hr) as [Hin Ht].
    split; [done|]. by apply tripInv_fresh.
Qed.


End Lifecycle.

Section LifecycleExamples.
#[local] Existing Instance rationalRuntime.

Lemma oneActiveTrip_reachable : reachable oneActiveTrip.
Proof.
  exact (reachable_handle (CreateTrip 1000 noUpstream 7 (commute (JsNum 100)))
                          initial reachable_initial).
Qed.


(** On [oneActiveTrip], where user 7 has an Active trip: a second Start of
    user 7 is a Conflict, and a Start of user 8, who has none, creates the
    trip with id 1. *)
Lemma single_active_trip_examples :
  errorKind (createTrip 2000 noUpstream 7 (commute (JsNum 120)) oneActiveTrip).2 =
    Some Conflict /\
  (createTrip 2000 noUpstream 7 (commute (JsNum 120)) oneActiveTrip).1 =
    oneActiveTrip /\
  exists t,
    (createTrip 2000 noUpstream 8 (commute (JsNum 120)) oneActiveTrip).2 =
      Success 201 (Some t) /\
    _id t = 1%nat /\ userId t = 8%nat /\ status t = active /\
    trips (createTrip 2000 noUpstream 8 (commute (JsNum 120)) oneActiveTrip).1 =
      trips oneActiveTrip ++ [t].
Proof.
  split; [reflexivity|]. split; [reflexivity|].
  eexists. split; [reflexivity|]. repeat split.
Qed.

End LifecycleExamples.

Section LawfulLifecycleExamples.
#[local] Existing Instance lawfulRuntime.

Lemma lawful_oneActiveTrip_reachable : reachable oneActiveTrip.
Proof.
  exact (reachable_handle (CreateTrip 1000 noUpstream 7 (commute (JsNum 100)))
                          initial reachable_initial).
Qed.

Lemma twoFixesAppended_reachable : reachable twoFixesAppended.
Proof.
  exact (reachable_handle twoFixBatch oneActiveTrip
                          lawful_oneActiveTrip_reachable).
Qed.

Lemma twoFixesEnded_reachable : reachable twoFixesEnded.
Proof.
  exact (reachable_handle (EndTrip 5000 noUpstream 7 0 (clientEnd 500))
                          twoFixesAppended twoFixesAppended_reachable).
Qed.

Lemma twoFixTrip_stored :
  trips twoFixesAppended = [twoFixTrip] /\
  route twoFixTrip = [bengaluru; mysuru] /\
  (0 < distance twoFixTrip)%Q /\
  roundDistance (Num (distance twoFixTrip)) = 1%Z.
Proof. repeat split; vm_compute; reflexivity. Qed.

(** The trip of [twoFixesAppended] has two fixes and a positive distance;
    a third fix is appended to it. *)
Lemma derived_fields_never_stale_witness :
  reachable twoFixesAppended /\
  (exists t,
     (handle (AddRoutePoint 7 (bodyOf bengaluru)) twoFixesAppended).2 =
       Success 200 (Some t) /\
     route t = [bengaluru; mysuru; bengaluru] /\
     (distance twoFixTrip < distance t)%Q) /\
  Forall (fun t =>
            (distance t == specDistance (route t))%Q /\
            (forall e, endTime t = Some e ->
               duration t = Z.max 0 ((e - startTime t) / 1000) /\
               averageSpeed t =
                 if (0 <? duration t)%Z
                 then (distance t / inject_Z (duration t) * (36 # 10))%Q
                 else 0%Q) /\
            calculateMetrics t = t)
         (trips (handle (AddRoutePoint 7 (bodyOf bengaluru))
                        twoFixesAppended).1) /\
  forall c t,
    (handle (AddRoutePoint 7 (bodyOf bengaluru)) twoFixesAppended).2 =
      Success c (Some t) ->
    t ∈ trips (handle (AddRoutePoint 7 (bodyOf bengaluru))
                      twoFixesAppended).1 /\
    (distance t == specDistance (route t))%Q /\
    (forall e, endTime t = Some e ->
       duration t = Z.max 0 ((e - startTime t) / 1000) /\
       averageSpeed t =
         if (0 <? duration t)%Z
         then (distance t / inject_Z (duration t) * (36 # 10))%Q
         else 0%Q) /\
    calculateMetrics t = t.
Proof.
  split; [exact twoFixesAppended_reachable|].
  split.
  { eexists. split; [vm_compute; reflexivity|].
    split; vm_compute; reflexivity. }
  apply (derived_fields_never_stale (AddRoutePoint 7 (bodyOf bengaluru))
                                    twoFixesAppended).
  exact twoFixesAppended_reachable.
Defined.
End LawfulLifecycleExamples.

(** ** Start: input checks and the ledger *)

Section Start.
Context `{JsRuntime}.

(** Start answers with the input error exactly when [purpose] or
    [startOdometer] is falsy. *)
Lemma createTrip_InvalidInput now upstream uid body (w : World) :
  errorKind (createTrip now upstream uid body w).2 = Some InvalidInput <->
  truthy (create_purpose body) = false \/
  truthy (create_startOdometer body) = false.
Proof.
  unfold createTrip.
  destruct (truthy (create_purpose body)); simpl; [|by split; [left|]].
  destruct (truthy (create_startOdometer body)); simpl; [|by split; [right|]].
  split; [|intros [|]; done].
  destruct (findActiveTrip uid (trips w)); [done|].
  by repeat case_match.
Qed.

(** C8. After every successful Start the ledger record of the user points
    at the new trip and its [currentOdometer] is the maximum of the previous
    value (0 for a user without a record) and the trip's [startOdometer]:
    it is not below either of them and it is one of them, so that a Start
    never lowers the ledger.  The records of the other users are left
    alone. *)
Theorem createTrip_ledger now upstream uid body (w : World) c t :
  (createTrip now upstream uid body w).2 = Success c (Some t) ->
  (exists u,
     userData (createTrip now upstream uid body w).1 !! uid = Some u /\
     activeTrip u = Some (_id t) /\
     (previousOdometer uid w <= currentOdometer u)%Q /\
     (startOdometer t <= currentOdometer u)%Q /\
     ((currentOdometer u == previousOdometer uid w)%Q \/
      (currentOdometer u == startOdometer t)%Q)) /\
  (forall uid', uid' <> uid ->
     userData (createTrip now upstream uid body w).1 !! uid' =
     userData w !! uid').
Proof.
  unfold createTrip, previousOdometer.
  destruct (negb (truthy (create_purpose body)) ||
            negb (truthy (create_startOdometer body))); [done|].
  destruct (findActiveTrip uid (trips w)) eqn:Hact; [done|].
  match goal with |- context [match ?c with Some _ => _ | None => _ end] =>
    destruct c as [trip|] eqn:Hc end; [|done].
  simpl. intros [= _ <-].
  assert (Number (create_startOdometer body) = Num (startOdometer trip) /\
          (0 <= startOdometer trip)%Q) as [-> Hso].
  { destruct (create_purpose body); try done.
    apply Trip_create_Some in Hc. tauto. }
  unfold setActiveAndMaxOdometer.
  destruct (userData w !! uid) as [u0|] eqn:Hu; split.
  - eexists. rewrite lookup_insert_eq. split; [done|]. simpl.
    split; [done|]. unfold Math_max.
    destruct (Qlt_le_dec (currentOdometer u0) (startOdometer trip));
      (split; [lra|]); (split; [lra|]); [right | left]; reflexivity.
  - intros uid' Hne. by rewrite lookup_insert_ne.
  - eexists. rewrite lookup_insert_eq. split; [done|]. simpl.
    split; [done|]. split; [done|]. split; [lra|]. right. reflexivity.
  - intros uid' Hne. by rewrite lookup_insert_ne.
Qed.
End Start.

Section StartExamples.
#[local] Existing Instance rationalRuntime.

(** A Start at 50 on a ledger that stands at 80: the ledger stays at 80
    and points at the new trip. *)
Lemma createTrip_ledger_witness :
  (createTrip 1000 noUpstream 7 (commute (JsNum 50)) ledgerAt80).2 =
    Success 201 (Some startedAt50) /\
  previousOdometer 7 ledgerAt80 = 80%Q /\
  userData (createTrip 1000 noUpstream 7 (commute (JsNum 50)) ledgerAt80).1
    !! 7%nat = Some {| currentOdometer := 80; activeTrip := Some 0%nat |} /\
  (exists u,
     userData (createTrip 1000 noUpstream 7 (commute (JsNum 50)) ledgerAt80).1
       !! 7%nat = Some u /\
     activeTrip u = Some (_id startedAt50) /\
     (previousOdometer 7 ledgerAt80 <= currentOdometer u)%Q /\
     (startOdometer startedAt50 <= currentOdometer u)%Q /\
     ((currentOdometer u == previousOdometer 7 ledgerAt80)%Q \/
      (currentOdometer u == startOdometer startedAt50)%Q)) /\
  (forall uid', uid' <> 7%nat ->
     userData (createTrip 1000 noUpstream 7 (commute (JsNum 50)) ledgerAt80).1
       !! uid' = userData ledgerAt80 !! uid').
Proof.
  split; [reflexivity|]. split; [reflexivity|]. split; [reflexivity|].
  apply (createTrip_ledger 1000 noUpstream 7 (commute (JsNum 50)) ledgerAt80
           201 startedAt50).
  reflexivity.
Defined.

(** Starting at 100 on a ledger at 80 raises it to 100; starting at 50
    leaves it at 80. *)
Lemma createTrip_ledger_examples :
  userData (createTrip 1000 noUpstream 7 (commute (JsNum 100)) ledgerAt80).1
    !! 7%nat = Some {| currentOdometer := 100; activeTrip := Some 0%nat |} /\
  userData (createTrip 1000 noUpstream 7 (commute (JsNum 50)) ledgerAt80).1
    !! 7%nat = Some {| currentOdometer := 80; activeTrip := Some 0%nat |}.
Proof. split; reflexivity. Qed.

(** C6. The claim says a Start with [startOdometer = 0] and a valid
    purpose succeeds; the handler answers it with the input error, because
    [!startOdometer] holds of 0, although the schema admits 0 ([min: 0]). *)
Theorem createTrip_zero_odometer_rejected :
  findActiveTrip 7 (trips initial) = None /\
  createTrip 1000 noUpstream 7 (commute (JsNum 0)) initial =
    (initial, Failure 400 "Please provide purpose and start odometer reading") /\
  errorKind (createTrip 1000 noUpstream 7 (commute (JsNum 0)) initial).2 =
    Some InvalidInput.
Proof. repeat split; reflexivity. Qed.

(** A whitespace-only purpose, a purpose shorter than three characters and
    a negative odometer pass the presence check and are rejected by the
    schema: the answer is the generic 500, not the input error. *)
Lemma createTrip_schema_rejections :
  (createTrip 1000 noUpstream 7
     {| create_purpose := JsStr "   "; create_startOdometer := JsNum 100;
        create_route := None |} initial).2 =
    Failure 500 "Server error while creating trip" /\
  (createTrip 1000 noUpstream 7 (commute (JsNum (-5))) initial).2 =
    Failure 500 "Server error while creating trip".
Proof. split; reflexivity. Qed.
End StartExamples.

(** ** End: the final odometer *)

Section EndTrip.
Context `{JsRuntime}.

Lemma Math_max_left (a b : Q) : (b <= a)%Q -> Math_max a b = a.
Proof. intros Hab. unfold Math_max. destruct (Qlt_le_dec a b); [lra | done]. Qed.

Lemma endTrip_Success now upstream uid id body (w : World) c t' :
  (endTrip now upstream uid id body w).2 = Success c (Some t') ->
  exists trip t ts',
    trip ∈ trips w /\ save t (trips w) = Some (t', ts') /\
    startOdometer t = startOdometer trip /\ route t = route trip /\
    status t = completed /\
    endOdometer t =
      Some (Math_max
              (startOdometer trip +
               inject_Z (roundDistance (Num (orZero (Num (distance trip))))))
              (startOdometer trip)).
Proof.
  unfold endTrip.
  destruct (findOwnedActive id uid (trips w)) as [trip|] eqn:Hf; [|done].
  apply findOwnedActive_Some in Hf as (Hin & _).
  set (final := Math_max _ _).
  match goal with |- context [save ?x (trips w)] =>
    destruct (save x (trips w)) as [[t1 ts']|] eqn:Hs end; [|done].
  cbn [snd]. intros [= _ <-].
  eexists trip, _, ts'. split; [done|]. split; [exact Hs|].
  assert (Math_max
            (startOdometer trip +
             inject_Z (roundDistance (Num (orZero (Num (distance trip))))))
            (startOdometer trip) = final) as -> by reflexivity.
  clearbody final. repeat case_match; done.
Qed.

(** The current handler: whatever the body holds, a successful End stores
    [startOdometer + roundDistance distance], the distance being the one the
    save has just recomputed.  The great-circle distance of the runtime is
    taken to be non-negative. *)
Lemma endTrip_endOdometer now upstream uid id body (w : World) c t' :
  (forall p q, 0 <= calculateHaversineDistance p q)%Q ->
  reachable w ->
  (endTrip now upstream uid id body w).2 = Success c (Some t') ->
  status t' = completed /\
  endOdometer t' =
    Some (startOdometer t' + inject_Z (roundDistance (Num (distance t'))))%Q.
Proof.
  intros Hhav Hw Hr. apply reachable_inv in Hw as (_ & _ & Hall & _).
  rewrite Forall_forall in Hall.
  apply endTrip_Success in Hr as (trip & t & ts' & Hin & Hs & Hso & Hro & Hst & Heo).
  destruct (Hall trip Hin) as (Hd & _). unfold metricsFresh in Hd.
  apply save_Some in Hs as (_ & -> & _).
  rewrite calculateMetrics_distance.
  destruct (calculateMetrics_fields t) as (_ & _ & -> & _ & _ & _ & -> & ->).
  split; [done|]. rewrite Heo, Hso, Hro, <- Hd. f_equal.
  rewrite roundDistance_orZero. apply Math_max_left.
  assert (0 <= roundDistance (Num (distance trip)))%Z as Hr.
  { apply roundDistance_nonneg. rewrite Hd. by apply totalDistance_nonneg. }
  assert (0 <= inject_Z (roundDistance (Num (distance trip))))%Q.
  { change 0%Q with (inject_Z 0). by rewrite <- Zle_Qle. }
  lra.
Qed.
End EndTrip.

Section EndExamples.
#[local] Existing Instance rationalRuntime.

(** C1. The claim says an End always stores [startOdometer +
    roundDistance distance] and never the client's value.  The copy of the
    handler in routes/trips.js stores the client's [endOdometer]: on the
    trip started at 100 with no route (distance 0) a body with [endOdometer
    = 500] completes the trip with 500, where the current handler, on the
    same request, stores 100. *)
Theorem legacy_endTrip_stores_client_odometer :
  (Legacy.endTrip 5000 7 0
     {| end_endOdometer := JsUndefined; end_endLocation := JsUndefined |}
     oneActiveTrip).2 = Failure 400 "Please provide end odometer reading" /\
  (exists t',
     (Legacy.endTrip 5000 7 0 (clientEnd 500) oneActiveTrip).2 =
       Success 200 (Some t') /\
     status t' = completed /\ startOdometer t' = 100%Q /\ distance t' = 0%Q /\
     endOdometer t' = Some 500%Q /\
     ~ (500 == startOdometer t' +
               inject_Z (roundDistance (Num (distance t'))))%Q) /\
  (exists t',
     (endTrip 5000 noUpstream 7 0 (clientEnd 500) oneActiveTrip).2 =
       Success 200 (Some t') /\
     status t' = completed /\ startOdometer t' = 100%Q /\ distance t' = 0%Q /\
     endOdometer t' = Some 100%Q).
Proof.
  split; [reflexivity|]. split.
  - eexists. split; [reflexivity|]. repeat split. discriminate.
  - eexists. split; [reflexivity|]. repeat split.
Qed.
End EndExamples.

(** ** Appending fixes *)

Section Append.
Context `{JsRuntime}.

Lemma validate_set_route (r : list TripPoint) (t : Trip) :
  validate t = true -> forallb validPoint r = true ->
  validate (set_route r t) = true.
Proof.
  unfold validate. simpl. intros Hv Hr.
  apply andb_true_iff in Hv as [Hv _]. by rewrite Hv, Hr.
Qed.

Lemma validate_route (t : Trip) :
  validate t = true -> forallb validPoint (route t) = true.
Proof. unfold validate. intros Hv. by apply andb_true_iff in Hv as [_ Hv]. Qed.

(** Appending fixes that pass the schema to the Active trip of a reachable
    state is accepted, and the fixes go to the end of the route in the order
    given. *)
Lemma pushAndSave_appends uid (trip : Trip) (pts : list TripPoint) failure
    (w : World) :
  reachable w -> trip ∈ trips w -> forallb validPoint pts = true ->
  exists t',
    (pushAndSave uid trip pts failure w).2 = Success 200 (Some t') /\
    route t' = route trip ++ pts /\ t' ∈ trips (pushAndSave uid trip pts failure w).1.
Proof.
  intros Hw Hin Hpts. apply reachable_inv in Hw.
  assert (validate trip = true) as Hv.
  { destruct Hw as (_ & _ & Hall & _). rewrite Forall_forall in Hall.
    by destruct (Hall trip Hin) as (_ & _ & _ & Hv). }
  assert (validate (set_route (route trip ++ pts) trip) = true) as Hv'.
  { apply validate_set_route; [done|].
    rewrite forallb_app, (validate_route _ Hv), Hpts. done. }
  pose proof (pushAndSave_ok uid trip pts failure w Hw Hin) as [_ Hdata].
  unfold pushAndSave in *. unfold save in *. rewrite Hv' in *. cbn [snd fst] in *.
  eexists. split; [reflexivity|].
  split; [|by eapply Hdata].
  by destruct (calculateMetrics_fields (set_route (route trip ++ pts) trip))
    as (_ & _ & _ & -> & _).
Qed.

(** A single fix whose four fields are non-zero numbers within the schema
    ranges is appended. *)
Lemma addRoutePoint_appends uid (la lo ac ts : Q) (w : World) (trip : Trip) :
  reachable w -> findActiveTrip uid (trips w) = Some trip ->
  ~ (la == 0)%Q -> ~ (lo == 0)%Q -> ~ (ac == 0)%Q -> ~ (ts == 0)%Q ->
  validPoint {| latitude := la; longitude := lo; timestamp := ts;
                accuracy := ac |} = true ->
  exists t',
    (addRoutePoint uid {| Raw.latitude := JsNum la; Raw.longitude := JsNum lo;
                          Raw.accuracy := JsNum ac; Raw.timestamp := JsNum ts |}
                   w).2 = Success 200 (Some t') /\
    route t' = route trip ++ [ {| latitude := la; longitude := lo;
                                  timestamp := ts; accuracy := ac |} ].
Proof.
  intros Hw Hf Hla Hlo Hac Hts Hp. unfold addRoutePoint. simpl.
  assert (forall q, ~ (q == 0)%Q -> Qeq_bool q 0 = false) as Hnz.
  { intros q Hq. destruct (Qeq_bool q 0) eqn:E; [|done].
    by apply Qeq_bool_iff in E. }
  rewrite (Hnz la Hla), (Hnz lo Hlo), (Hnz ac Hac), (Hnz ts Hts). simpl.
  rewrite Hf. apply findActiveTrip_Some in Hf as (Hin & _).
  destruct (pushAndSave_appends uid trip
              [ {| latitude := la; longitude := lo; timestamp := ts;
                   accuracy := ac |} ]
              "Server error while adding route point" w Hw Hin)
    as (t' & Hr & Hroute & _).
  { simpl. by rewrite Hp. }
  by exists t'.
Qed.

(** A batch keeps, in order, the entries whose four fields are numbers; it
    is refused as an input error exactly when none is left. *)
Lemma addRoutePointsBulk_appends uid (pts : list Raw.Point) (w : World)
    (trip : Trip) :
  reachable w -> findActiveTrip uid (trips w) = Some trip ->
  (sanitize pts = [] ->
   errorKind (addRoutePointsBulk uid (Some pts) w).2 = Some InvalidInput) /\
  (sanitize pts <> [] -> forallb validPoint (sanitize pts) = true ->
   exists t',
     (addRoutePointsBulk uid (Some pts) w).2 = Success 200 (Some t') /\
     route t' = route trip ++ sanitize pts) /\
  (errorKind (addRoutePointsBulk uid (Some pts) w).2 = Some InvalidInput ->
   sanitize pts = []).
Proof.
  intros Hw Hf. unfold addRoutePointsBulk. rewrite Hf.
  apply findActiveTrip_Some in Hf as (Hin & _).
  destruct pts as [|p pts]; [by repeat split|].
  destruct (sanitize (p :: pts)) as [|q qs] eqn:Hs.
  - by repeat split.
  - split; [done|]. split.
    + intros _ Hvalid.
      destruct (pushAndSave_appends uid trip (q :: qs)
                  "Server error while adding route points" w Hw Hin Hvalid)
        as (t' & Hr & Hroute & _).
      by exists t'.
    + unfold pushAndSave. by destruct (save _ _) as [[? ?]|].
Qed.
End Append.

Section AppendExamples.
#[local] Existing Instance rationalRuntime.

(** C7. The claim says a fix with latitude 0, longitude 0 or accuracy 0 is
    valid and is appended.  The single-fix handler answers each of them with
    the input error, because [!latitude], [!longitude] and [!accuracy] hold
    of 0; the bulk handler, which tests [typeof ... === 'number'], appends
    the same fix. *)
Theorem addRoutePoint_zero_rejected :
  findActiveTrip 7 (trips oneActiveTrip) = Some startedAt100 /\
  addRoutePoint 7 (fixAt 0 (7759 # 100) 5) oneActiveTrip =
    (oneActiveTrip,
     Failure 400 "Please provide latitude, longitude, accuracy, and timestamp") /\
  addRoutePoint 7 (fixAt (1297 # 100) 0 5) oneActiveTrip =
    (oneActiveTrip,
     Failure 400 "Please provide latitude, longitude, accuracy, and timestamp") /\
  addRoutePoint 7 (fixAt (1297 # 100) (7759 # 100) 0) oneActiveTrip =
    (oneActiveTrip,
     Failure 400 "Please provide latitude, longitude, accuracy, and timestamp") /\
  errorKind (addRoutePoint 7 (fixAt 0 (7759 # 100) 5) oneActiveTrip).2 =
    Some InvalidInput /\
  (addRoutePointsBulk 7 (Some [fixAt 0 (7759 # 100) 5]) oneActiveTrip).2 =
    Success 200
      (Some (set_route [ {| latitude := 0; longitude := 7759 # 100;
                            timestamp := 1700000000000; accuracy := 5 |} ]
                       startedAt100)).
Proof. repeat split; reflexivity. Qed.

(** The bulk handler keeps every entry whose four fields are numbers,
    whatever their range; an entry out of range is then refused by the
    schema and the whole batch fails with the generic 500. *)
Lemma addRoutePointsBulk_out_of_range :
  (addRoutePointsBulk 7
     (Some [fixAt (1297 # 100) (7759 # 100) 5; fixAt 100 (7759 # 100) 5])
     oneActiveTrip).2 =
    Failure 500 "Server error while adding route points".
Proof. reflexivity. Qed.
End AppendExamples.

(** ** The reverse-geocoding cache *)

Module ReverseGeocodeFacts.
Import ReverseGeocode.

Lemma orNull_Some (v : option string) (s : string) :
  orNull v = Some s <-> v = Some s /\ s <> "".
Proof.
  unfold orNull. destruct v as [x|]; [|by split; [|intros []]].
  destruct (String.eqb_spec x "") as [->|Hx].
  - split; [done | intros [[= <-] Hs]; done].
  - split; [intros [= ->]; done | intros [[= ->] _]; done].
Qed.

Lemma firstField_nonempty (addr : gmap string string) (fs : list string)
    (s : string) :
  firstField addr fs = Some s -> s <> "".
Proof.
  induction fs as [|f fs IH]; simpl; [done|].
  destruct (orNull (addr !! f)) as [x|] eqn:Hx; [|exact IH].
  intros [= <-]. by apply orNull_Some in Hx as [_ Hx].
Qed.

Lemma extractName_nonempty (json : option Json) (s : string) :
  extractName json = Some s -> s <> "".
Proof.
  unfold extractName. destruct json as [j|]; [|done].
  destruct (address j) as [addr|].
  - destruct (firstField addr fields) as [x|] eqn:Hx.
    + intros [= <-]. by apply firstField_nonempty in Hx.
    + intros Hs. by apply orNull_Some in Hs as [_ Hs].
  - intros Hs. by apply orNull_Some in Hs as [_ Hs].
Qed.

(** A call that queried upstream and returned a name stored it under the
    key of its coordinates, stamped with the clock of the store. *)
Lemma reverseGeocode_stored tGet tSet upstream lat lon
    (c : gmap string Entry) (n : string) :
  queried (reverseGeocode tGet tSet upstream (Some lat) (Some lon) c) = true ->
  result (reverseGeocode tGet tSet upstream (Some lat) (Some lon) c) = Some n ->
  n <> "" /\
  cacheAfter (reverseGeocode tGet tSet upstream (Some lat) (Some lon) c) =
    setCache tSet lat lon n c.
Proof.
  unfold reverseGeocode.
  destruct (orNull (getCached tGet lat lon c)); [done|].
  destruct (extractName (upstream lat lon)) as [nm|] eqn:Hn; [|done].
  simpl. intros _ [= <-]. split; [by apply extractName_nonempty in Hn | done].
Qed.
End ReverseGeocodeFacts.

(** C9 (amended). When a lookup has queried upstream and cached a name,
    a second lookup whose coordinates have the same cache key (the same
    [toFixed(5)] strings for latitude and for longitude) returns that name
    without querying upstream and without touching the cache if it happens
    less than six hours after the entry was stored, and queries upstream
    again once six hours have elapsed. *)
Theorem reverseGeocode_cache_hit
    (t1 t1' t2 t2' : Z) (up1 up2 : ReverseGeocode.Upstream)
    (lat1 lon1 lat2 lon2 : Q) (c : gmap string ReverseGeocode.Entry)
    (n : string) :
  ReverseGeocode.queried
    (ReverseGeocode.reverseGeocode t1 t1' up1 (Some lat1) (Some lon1) c) = true ->
  ReverseGeocode.result
    (ReverseGeocode.reverseGeocode t1 t1' up1 (Some lat1) (Some lon1) c) = Some n ->
  ReverseGeocode.cacheKey lat1 lon1 = ReverseGeocode.cacheKey lat2 lon2 ->
  ((t2 - t1' < ReverseGeocode.CACHE_TTL_MS)%Z ->
   ReverseGeocode.reverseGeocode t2 t2' up2 (Some lat2) (Some lon2)
     (ReverseGeocode.cacheAfter
        (ReverseGeocode.reverseGeocode t1 t1' up1 (Some lat1) (Some lon1) c)) =
   {| ReverseGeocode.result := Some n;
      ReverseGeocode.cacheAfter :=
        ReverseGeocode.cacheAfter
          (ReverseGeocode.reverseGeocode t1 t1' up1 (Some lat1) (Some lon1) c);
      ReverseGeocode.queried := false |}) /\
  ((ReverseGeocode.CACHE_TTL_MS <= t2 - t1')%Z ->
   ReverseGeocode.queried
     (ReverseGeocode.reverseGeocode t2 t2' up2 (Some lat2) (Some lon2)
        (ReverseGeocode.cacheAfter
           (ReverseGeocode.reverseGeocode t1 t1' up1 (Some lat1) (Some lon1) c)))
   = true).
Proof.
  intros Hq Hr Hkey.
  destruct (ReverseGeocodeFacts.reverseGeocode_stored _ _ _ _ _ _ _ Hq Hr)
    as [Hn ->].
  unfold ReverseGeocode.reverseGeocode.
  unfold ReverseGeocode.getCached, ReverseGeocode.setCache.
  rewrite <- Hkey, lookup_insert_eq. simpl. split; intros Ht.
  - destruct (Z.ltb_spec (t2 - t1') ReverseGeocode.CACHE_TTL_MS); [|lia].
    assert (ReverseGeocode.orNull (Some n) = Some n) as ->
      by (by apply ReverseGeocodeFacts.orNull_Some).
    reflexivity.
  - destruct (Z.ltb_spec (t2 - t1') ReverseGeocode.CACHE_TTL_MS); [lia|].
    simpl. by destruct (ReverseGeocode.extractName (up2 lat2 lon2)).
Qed.

(** C10. A lookup on numeric coordinates that ends with no name (request
    error, unparseable body, or no name field) has queried upstream and
    leaves the cache as it was, so every later lookup for the same
    coordinates queries upstream again; for any coordinates, a call that
    changes the cache returns a name. *)
Theorem reverseGeocode_null_not_cached
    (tGet tSet : Z) (upstream : ReverseGeocode.Upstream) (lat lon : Q)
    (c : gmap string ReverseGeocode.Entry) :
  ReverseGeocode.result
    (ReverseGeocode.reverseGeocode tGet tSet upstream (Some lat) (Some lon) c)
    = None ->
  ReverseGeocode.queried
    (ReverseGeocode.reverseGeocode tGet tSet upstream (Some lat) (Some lon) c)
    = true /\
  ReverseGeocode.cacheAfter
    (ReverseGeocode.reverseGeocode tGet tSet upstream (Some lat) (Some lon) c)
    = c /\
  (forall (t2 t2' : Z) (up2 : ReverseGeocode.Upstream),
     (tGet <= t2)%Z ->
     ReverseGeocode.queried
       (ReverseGeocode.reverseGeocode t2 t2' up2 (Some lat) (Some lon)
          (ReverseGeocode.cacheAfter
             (ReverseGeocode.reverseGeocode tGet tSet upstream
                (Some lat) (Some lon) c))) = true) /\
  (forall (tg ts : Z) (up : ReverseGeocode.Upstream) (la lo : option Q)
          (c0 : gmap string ReverseGeocode.Entry),
     ReverseGeocode.cacheAfter (ReverseGeocode.reverseGeocode tg ts up la lo c0)
       <> c0 ->
     exists nm,
       nm <> "" /\
       ReverseGeocode.result (ReverseGeocode.reverseGeocode tg ts up la lo c0)
         = Some nm).
Proof.
  intros Hr.
  assert (ReverseGeocode.orNull (ReverseGeocode.getCached tGet lat lon c) = None
          /\ ReverseGeocode.extractName (upstream lat lon) = None) as [Hc Hx].
  { unfold ReverseGeocode.reverseGeocode in Hr.
    destruct (ReverseGeocode.orNull (ReverseGeocode.getCached tGet lat lon c));
      [done|].
    by destruct (ReverseGeocode.extractName (upstream lat lon)). }
  assert (ReverseGeocode.reverseGeocode tGet tSet upstream (Some lat) (Some lon) c
          = {| ReverseGeocode.result := None; ReverseGeocode.cacheAfter := c;
               ReverseGeocode.queried := true |}) as ->.
  { unfold ReverseGeocode.reverseGeocode. by rewrite Hc, Hx. }
  simpl. split; [done|]. split; [done|]. split.
  - intros t2 t2' up2 Hlater.
    assert (ReverseGeocode.orNull (ReverseGeocode.getCached t2 lat lon c) = None)
      as Hc2.
    { unfold ReverseGeocode.getCached in *.
      destruct (c !! ReverseGeocode.cacheKey lat lon) as [entry|]; [|done].
      destruct (Z.ltb_spec (t2 - ReverseGeocode.timestamp entry)
                           ReverseGeocode.CACHE_TTL_MS); [|done].
      destruct (Z.ltb_spec (tGet - ReverseGeocode.timestamp entry)
                           ReverseGeocode.CACHE_TTL_MS); [done | lia]. }
    unfold ReverseGeocode.reverseGeocode. rewrite Hc2.
    by destruct (ReverseGeocode.extractName (up2 lat lon)).
  - intros tg ts up la lo c0. unfold ReverseGeocode.reverseGeocode.
    destruct la as [la|], lo as [lo|]; try done.
    destruct (ReverseGeocode.orNull (ReverseGeocode.getCached tg la lo c0));
      [done|].
    destruct (ReverseGeocode.extractName (up la lo)) as [nm|] eqn:Hn; [|done].
    intros _. exists nm. split; [|done].
    by apply ReverseGeocodeFacts.extractName_nonempty in Hn.
Qed.

Section GeocodeExamples.

Lemma reverseGeocode_cache_hit_witness :
  ReverseGeocode.cacheKey (12971601 # 1000000) (775946 # 10000) =
  ReverseGeocode.cacheKey (12971603 # 1000000) (775946 # 10000) /\
  ReverseGeocode.reverseGeocode 3600000 3600500 noUpstream
    (Some (12971603 # 1000000)) (Some (775946 # 10000))
    (ReverseGeocode.cacheAfter
       (ReverseGeocode.reverseGeocode 0 500 suburbUpstream
          (Some (12971601 # 1000000)) (Some (775946 # 10000)) ∅)) =
  {| ReverseGeocode.result := Some "Indiranagar";
     ReverseGeocode.cacheAfter :=
       ReverseGeocode.cacheAfter
         (ReverseGeocode.reverseGeocode 0 500 suburbUpstream
            (Some (12971601 # 1000000)) (Some (775946 # 10000)) ∅);
     ReverseGeocode.queried := false |}.
Proof.
  split; [reflexivity|].
  apply (reverseGeocode_cache_hit 0 500 3600000 3600500 suburbUpstream
           noUpstream (12971601 # 1000000) (775946 # 10000)
           (12971603 # 1000000) (775946 # 10000) ∅ "Indiranagar");
    [reflexivity | reflexivity | reflexivity | reflexivity].
Defined.

(** The claim as first worded fails: the two latitudes differ by 0.000002,
    less than 0.00001, but they round to different fifth decimals, so the
    second lookup, one second after the first cached its name, misses the
    cache and queries upstream. *)
Lemma reverseGeocode_nearby_counterexample :
  (Qabs ((12000004 # 1000000) - (12000006 # 1000000)) < 1 # 100000)%Q /\
  ReverseGeocode.reverseGeocode 0 500 suburbUpstream
    (Some (12000004 # 1000000)) (Some (775946 # 10000)) ∅ =
  {| ReverseGeocode.result := Some "Indiranagar";
     ReverseGeocode.cacheAfter :=
       {[ "12.00000,77.59460" :=
            {| ReverseGeocode.name := "Indiranagar";
               ReverseGeocode.timestamp := 500 |} ]};
     ReverseGeocode.queried := true |} /\
  ReverseGeocode.cacheKey (12000006 # 1000000) (775946 # 10000) =
    "12.00001,77.59460" /\
  ReverseGeocode.queried
    (ReverseGeocode.reverseGeocode 1500 2000 noUpstream
       (Some (12000006 # 1000000)) (Some (775946 # 10000))
       (ReverseGeocode.cacheAfter
          (ReverseGeocode.reverseGeocode 0 500 suburbUpstream
             (Some (12000004 # 1000000)) (Some (775946 # 10000)) ∅))) = true /\
  ReverseGeocode.result
    (ReverseGeocode.reverseGeocode 1500 2000 noUpstream
       (Some (12000006 # 1000000)) (Some (775946 # 10000))
       (ReverseGeocode.cacheAfter
          (ReverseGeocode.reverseGeocode 0 500 suburbUpstream
             (Some (12000004 # 1000000)) (Some (775946 # 10000)) ∅))) = None.
Proof. repeat split; vm_compute; reflexivity. Qed.

Lemma reverseGeocode_null_not_cached_witness :
  ReverseGeocode.result
    (ReverseGeocode.reverseGeocode 0 500 noUpstream
       (Some (129716 # 10000)) (Some (775946 # 10000)) ∅) = None /\
  ReverseGeocode.cacheAfter
    (ReverseGeocode.reverseGeocode 0 500 noUpstream
       (Some (129716 # 10000)) (Some (775946 # 10000)) ∅) = ∅.
Proof.
  split; [reflexivity|].
  apply (reverseGeocode_null_not_cached 0 500 noUpstream
           (129716 # 10000) (775946 # 10000) ∅).
  reflexivity.
Defined.
End GeocodeExamples.

(** * Further properties of the handlers *)

(** ** What a request does to the trips collection *)

Lemma elem_of_replaceById_ne (t' x : Trip) (ts : list Trip) :
  x ∈ replaceById t' ts -> x = t' \/ (x ∈ ts /\ _id x <> _id t').
Proof.
  unfold replaceById. induction ts as [|y ts IH]; simpl.
  - intros Hx. by apply elem_of_nil in Hx.
  - intros Hx. apply elem_of_cons in Hx as [->|Hx].
    + destruct (Nat.eqb_spec (_id y) (_id t')); [by left|].
      right. split; [apply elem_of_cons; by left | done].
    + destruct (IH Hx) as [->|[Hin Hne]]; [by left|].
      right. split; [apply elem_of_cons; by right | done].
Qed.

Lemma replaceById_keeps (t' x : Trip) (ts : list Trip) :
  x ∈ ts -> _id x <> _id t' -> x ∈ replaceById t' ts.
Proof.
  unfold replaceById. induction ts as [|y ts IH]; simpl; intros Hin Hne.
  - by apply elem_of_nil in Hin.
  - apply elem_of_cons in Hin as [->|Hin].
    + destruct (Nat.eqb_spec (_id y) (_id t')); [done|].
      apply elem_of_cons; by left.
    + apply elem_of_cons; right. by apply IH.
Qed.

Lemma findOwned_Some id uid (ts : list Trip) (trip : Trip) :
  findOwned id uid ts = Some trip ->
  trip ∈ ts /\ _id trip = id /\ userId trip = uid.
Proof.
  unfold findOwned. intros Hf. apply find_elem_of in Hf as [Hin Hp].
  apply andb_true_iff in Hp as [Hi Hu]. by apply Nat.eqb_eq in Hi, Hu.
Qed.

Lemma find_None_elem_of {A} (f : A -> bool) (l : list A) (x : A) :
  List.find f l = None -> x ∈ l -> f x = false.
Proof. intros Hf Hx. apply (find_none f l Hf). by apply list_elem_of_In. Qed.

Lemma status_not_completed (t : Trip) : status t <> completed -> status t = active.
Proof. by destruct (status t). Qed.

Section Effects.
Context `{JsRuntime}.

Lemma noTripChange_failure (w w' : World) code msg :
  trips w' = trips w -> nextId w' = nextId w ->
  noTripChange w (w', Failure code msg).
Proof. intros Ht Hn. split; [by exists code, msg | done]. Qed.

Lemma save_fields (t t' : Trip) (ts ts' : list Trip) :
  save t ts = Some (t', ts') ->
  ts' = replaceById t' ts /\ _id t' = _id t /\ userId t' = userId t /\
  status t' = status t /\ route t' = route t /\ startTime t' = startTime t /\
  endTime t' = endTime t /\ startOdometer t' = startOdometer t /\
  endOdometer t' = endOdometer t /\ purpose t' = purpose t /\
  startLocation t' = startLocation t /\ endLocation t' = endLocation t /\
  distance t' = totalDistance (route t).
Proof.
  intros Hs. apply save_Some in Hs as (_ & -> & ->).
  rewrite calculateMetrics_distance.
  unfold calculateMetrics. destruct (endTime t) eqn:He; simpl; rewrite ?He; done.
Qed.

Lemma Trip_create_endOdometer (now : Z) (id uid : nat) (purp : string)
    (so : JsNumber) (r : list Raw.Point) (loc : option string) (trip : Trip) :
  Trip_create now id uid purp so r loc = Some trip -> endOdometer trip = None.
Proof.
  unfold Trip_create. destruct so as [|q]; [done|].
  destruct (castRoute r) as [r'|]; [|done].
  match goal with |- context [validate ?t] => set (t0 := t) end.
  destruct (validate t0); [|done]. intros [= <-].
  by destruct (calculateMetrics_fields t0) as (_ & _ & _ & _ & _ & _ & _ & ->).
Qed.

Lemma createTrip_effect now upstream uid body (w : World) :
  noTripChange w (createTrip now upstream uid body w) \/
  inserted uid w (createTrip now upstream uid body w).
Proof.
  unfold createTrip.
  destruct (negb (truthy (create_purpose body)) ||
            negb (truthy (create_startOdometer body)));
    [left; by apply noTripChange_failure|].
  destruct (findActiveTrip uid (trips w)) eqn:Hact;
    [left; by apply noTripChange_failure|].
  match goal with |- context [match ?c with Some _ => _ | None => _ end] =>
    destruct c as [trip|] eqn:Hc end; [|left; by apply noTripChange_failure].
  right. exists trip. cbn [fst snd trips].
  assert (_id trip = nextId w /\ userId trip = uid /\ status trip = active /\
          endOdometer trip = None)
    as (Hid & Hu & Hs & Ho).
  { destruct (create_purpose body); try done.
    pose proof (Trip_create_endOdometer _ _ _ _ _ _ _ _ Hc).
    apply Trip_create_Some in Hc. tauto. }
  done.
Qed.

Lemma updateTrip_effect uid id body (w : World) :
  noTripChange w (updateTrip uid id body w) \/
  overwritten uid w (updateTrip uid id body w).
Proof.
  unfold updateTrip.
  destruct (findOwned id uid (trips w)) as [trip|] eqn:Hf;
    [|left; by apply noTripChange_failure].
  apply findOwned_Some in Hf as (Hin & _ & Hu).
  case_bool_decide as Hst; [left; by apply noTripChange_failure|].
  apply status_not_completed in Hst.
  match goal with |- context [match ?c with Some _ => _ | None => _ end] =>
    destruct c as [t|] eqn:Hc end; [|left; by apply noTripChange_failure].
  match goal with |- context [save ?x (trips w)] =>
    destruct (save x (trips w)) as [[t' ts']|] eqn:Hs end;
    [|left; by apply noTripChange_failure].
  right. exists trip, t'. cbn [fst snd trips nextId withTrips].
  apply save_fields in Hs
    as (-> & -> & -> & -> & _ & -> & _ & -> & -> & -> & _).
  assert (_id t = _id trip /\ userId t = userId trip /\
          startOdometer t = startOdometer trip /\ startTime t = startTime trip /\
          purpose t = purpose trip /\ status t = status trip /\
          endOdometer t = endOdometer trip) as Ht.
  { destruct (update_route body) as [r|]; simpl in Hc.
    - destruct (castRoute r); simplify_eq/=. done.
    - by simplify_eq. }
  repeat case_match; simpl; intuition congruence.
Qed.

Lemma endTrip_effect now upstream uid id body (w : World) :
  noTripChange w (endTrip now upstream uid id body w) \/
  overwritten uid w (endTrip now upstream uid id body w).
Proof.
  unfold endTrip.
  destruct (findOwnedActive id uid (trips w)) as [trip|] eqn:Hf;
    [|left; by apply noTripChange_failure].
  apply findOwnedActive_Some in Hf as (Hin & _ & Hu & Hst).
  set (final := Math_max _ _).
  assert (Math_max
            (startOdometer trip +
             inject_Z (roundDistance (Num (orZero (Num (distance trip))))))
            (startOdometer trip) = final) as Hfinal by reflexivity.
  clearbody final.
  match goal with |- context [save ?x (trips w)] =>
    destruct (save x (trips w)) as [[t' ts']|] eqn:Hs end;
    [|left; by apply noTripChange_failure].
  right. exists trip, t'. cbn [fst snd trips nextId]. rewrite Hfinal.
  apply save_fields in Hs
    as (-> & -> & -> & -> & -> & -> & _ & -> & -> & -> & _).
  repeat case_match; simpl; intuition congruence.
Qed.

Lemma pushAndSave_effect uid (trip : Trip) pts failure (w : World) :
  trip ∈ trips w -> userId trip = uid -> status trip = active ->
  noTripChange w (pushAndSave uid trip pts failure w) \/
  overwritten uid w (pushAndSave uid trip pts failure w).
Proof.
  intros Hin Hu Hst. unfold pushAndSave.
  destruct (save _ (trips w)) as [[t' ts']|] eqn:Hs;
    [|left; by apply noTripChange_failure].
  right. exists trip, t'. cbn [fst snd trips nextId].
  apply save_fields in Hs
    as (-> & -> & -> & -> & _ & -> & _ & -> & -> & -> & _).
  simpl. intuition congruence.
Qed.

Lemma addRoutePoint_effect uid body (w : World) :
  noTripChange w (addRoutePoint uid body w) \/
  overwritten uid w (addRoutePoint uid body w).
Proof.
  unfold addRoutePoint.
  case_match; [left; by apply noTripChange_failure|].
  destruct (findActiveTrip uid (trips w)) as [trip|] eqn:Hf;
    [|left; by apply noTripChange_failure].
  apply findActiveTrip_Some in Hf as (Hin & Hu & Hst).
  repeat case_match; try (left; by apply noTripChange_failure);
    by apply pushAndSave_effect.
Qed.

Lemma addRoutePointsBulk_effect uid points (w : World) :
  noTripChange w (addRoutePointsBulk uid points w) \/
  overwritten uid w (addRoutePointsBulk uid points w).
Proof.
  unfold addRoutePointsBulk.
  destruct points as [[|p pts]|]; try (left; by apply noTripChange_failure).
  destruct (findActiveTrip uid (trips w)) as [trip|] eqn:Hf;
    [|left; by apply noTripChange_failure].
  apply findActiveTrip_Some in Hf as (Hin & Hu & Hst).
  destruct (sanitize (p :: pts)); [left; by apply noTripChange_failure|].
  by apply pushAndSave_effect.
Qed.

Lemma deleteTrip_effect uid id (w : World) :
  noTripChange w (deleteTrip uid id w) \/ deleted uid id w (deleteTrip uid id w).
Proof.
  unfold deleteTrip.
  destruct (findOwned id uid (trips w)) as [trip|] eqn:Hf;
    [|left; by apply noTripChange_failure].
  apply findOwned_Some in Hf as (Hin & Hid & Hu).
  right. by exists trip.
Qed.

Lemma handle_effect (r : Request) (w : World) :
  noTripChange w (handle r w) \/
  inserted (requestUser r) w (handle r w) \/
  overwritten (requestUser r) w (handle r w) \/
  (exists id, r = DeleteTrip (requestUser r) id /\
              deleted (requestUser r) id w (handle r w)).
Proof.
  destruct r; simpl.
  - destruct (createTrip_effect now upstream uid body w); auto.
  - destruct (updateTrip_effect uid id body w); auto.
  - destruct (endTrip_effect now upstream uid id body w); auto.
  - destruct (deleteTrip_effect uid id w); [auto|].
    right; right; right. by exists id.
  - destruct (addRoutePoint_effect uid body w); auto.
  - destruct (addRoutePointsBulk_effect uid points w); auto.
Qed.
End Effects.

Lemma findByIdAndDelete_keeps (id : nat) (x : Trip) (ts : list Trip) :
  x ∈ ts -> _id x <> id -> x ∈ findByIdAndDelete id ts.
Proof.
  unfold findByIdAndDelete. intros Hx Hne.
  apply list_elem_of_In, List.filter_In. split; [by apply list_elem_of_In|].
  apply negb_true_iff. by apply Nat.eqb_neq.
Qed.

Lemma findByIdAndDelete_gone (id : nat) (x : Trip) (ts : list Trip) :
  x ∈ findByIdAndDelete id ts -> _id x <> id.
Proof.
  unfold findByIdAndDelete. intros Hx.
  apply list_elem_of_In, List.filter_In in Hx as [_ Hx].
  apply negb_true_iff in Hx. by apply Nat.eqb_neq.
Qed.

Section Store.
Context `{JsRuntime}.

Lemma findOwned_stored (w : World) (t : Trip) :
  reachable w -> t ∈ trips w ->
  findOwned (_id t) (userId t) (trips w) = Some t.
Proof.
  intros Hw Hin. apply reachable_inv in Hw as (Hnd & _).
  destruct (findOwned (_id t) (userId t) (trips w)) as [x|] eqn:Hf.
  - apply findOwned_Some in Hf as (Hx & Hid & _).
    f_equal. by apply (unique_id (trips w)).
  - unfold findOwned in Hf.
    pose proof (find_None_elem_of _ _ t Hf Hin) as Hno. simpl in Hno.
    by rewrite !Nat.eqb_refl in Hno.
Qed.

Lemma findOwned_other_user (w : World) (t : Trip) (uid : nat) :
  reachable w -> t ∈ trips w -> uid <> userId t ->
  findOwned (_id t) uid (trips w) = None.
Proof.
  intros Hw Hin Hne. apply reachable_inv in Hw as (Hnd & _).
  destruct (findOwned (_id t) uid (trips w)) as [x|] eqn:Hf; [|done].
  apply findOwned_Some in Hf as (Hx & Hid & Hu).
  assert (x = t) as -> by (by apply (unique_id (trips w))). done.
Qed.

Lemma findOwnedActive_completed (w : World) (t : Trip) (uid : nat) :
  reachable w -> t ∈ trips w -> status t = completed ->
  findOwnedActive (_id t) uid (trips w) = None.
Proof.
  intros Hw Hin Hst. apply reachable_inv in Hw as (Hnd & _).
  destruct (findOwnedActive (_id t) uid (trips w)) as [x|] eqn:Hf; [|done].
  apply findOwnedActive_Some in Hf as (Hx & Hid & _ & Hs).
  assert (x = t) as -> by (by apply (unique_id (trips w))). congruence.
Qed.

(** The state a failed request leaves: the state it found, that state with
    the cache written under one key, or that state with the ledger pointer
    of the caller set to the caller's Active trip. *)
Lemma failure_state (r : Request) (w : World) code msg :
  (handle r w).2 = Failure code msg ->
  (handle r w).1 = w \/
  (exists lat lon e,
     (handle r w).1 =
       withCache (<[ReverseGeocode.cacheKey lat lon := e]> (cache w)) w) \/
  (exists trip,
     findActiveTrip (requestUser r) (trips w) = Some trip /\
     (handle r w).1 =
       withUserData (syncActiveTrip (requestUser r) (_id trip) (userData w)) w).
Proof.
  assert (forall now upstream la lo,
            ReverseGeocode.cacheAfter
              (ReverseGeocode.reverseGeocode now now upstream la lo (cache w)) =
              cache w \/
            exists lat lon e,
              ReverseGeocode.cacheAfter
                (ReverseGeocode.reverseGeocode now now upstream la lo (cache w)) =
                <[ReverseGeocode.cacheKey lat lon := e]> (cache w)) as Hgeo.
  { intros now upstream la lo. unfold ReverseGeocode.reverseGeocode.
    destruct la as [la|], lo as [lo|]; try (by left).
    destruct (ReverseGeocode.orNull _); [by left|].
    destruct (ReverseGeocode.extractName _); [|by left].
    right. unfold ReverseGeocode.setCache. simpl. by eexists _, _, _. }
  assert (forall c : gmap string ReverseGeocode.Entry,
            c = cache w -> withCache c w = w) as Hsame.
  { intros c ->. by destruct w. }
  assert (forall c : gmap string ReverseGeocode.Entry,
            (c = cache w \/
             exists lat lon e, c = <[ReverseGeocode.cacheKey lat lon := e]> (cache w)) ->
            withCache c w = w \/
            exists lat lon e,
              withCache c w =
                withCache (<[ReverseGeocode.cacheKey lat lon := e]> (cache w)) w)
    as Hcache.
  { intros c [->|(lat & lon & e & ->)]; [left; by apply Hsame|].
    right. by eexists _, _, _. }
  destruct r as [now upstream uid body|uid id body|now upstream uid id body
                |uid id|uid body|uid points]; cbn [handle requestUser fst snd].
  - unfold createTrip.
    destruct (negb (truthy (create_purpose body)) ||
              negb (truthy (create_startOdometer body))); [by left|].
    destruct (findActiveTrip uid (trips w)) eqn:Hact; [by left|].
    match goal with |- context [match ?c with Some _ => _ | None => _ end] =>
      destruct c as [trip|] eqn:Hc end; [done|].
    cbn [fst snd]. intros _.
    match goal with |- withCache ?c w = w \/ _ =>
      destruct (Hcache c) as [Heq|Heq]; [|by left|by right; left] end.
    destruct (create_route body) as [[|p ?]|]; cbn [snd]; try (by left).
    destruct (Raw.latitude p); try (by left).
    destruct (Raw.longitude p); try (by left).
    cbn [snd]. apply Hgeo.
  - unfold updateTrip.
    destruct (findOwned id uid (trips w)); [|by left].
    case_bool_decide; [by left|].
    repeat case_match; try done; by left.
  - unfold endTrip.
    destruct (findOwnedActive id uid (trips w)) as [trip|]; [|by left].
    match goal with |- context [save ?x (trips w)] =>
      destruct (save x (trips w)) as [[t' ts']|] end; [done|].
    cbn [fst snd]. intros _.
    match goal with |- withCache ?c w = w \/ _ =>
      destruct (Hcache c) as [Heq|Heq]; [|by left|by right; left] end.
    destruct (truthy (end_endLocation body)); cbn [snd]; [by left|].
    destruct (last (route trip)); cbn [snd]; [apply Hgeo | by left].
  - unfold deleteTrip. destruct (findOwned id uid (trips w)); [done | by left].
  - unfold addRoutePoint.
    case_match; [by left|].
    destruct (findActiveTrip uid (trips w)) as [trip|] eqn:Hf; [|by left].
    assert (forall pts failure,
              (pushAndSave uid trip pts failure w).2 = Failure code msg ->
              (pushAndSave uid trip pts failure w).1 =
                withUserData (syncActiveTrip uid (_id trip) (userData w)) w)
      as Hpush.
    { intros pts failure. unfold pushAndSave.
      by destruct (save _ (trips w)) as [[? ?]|]. }
    intros Hr. right; right. exists trip. split; [done|].
    repeat case_match; try done; by apply Hpush.
  - unfold addRoutePointsBulk.
    destruct points as [[|p pts]|]; [by left| |by left].
    destruct (findActiveTrip uid (trips w)) as [trip|] eqn:Hf; [|by left].
    intros Hr. right; right. exists trip. split; [done|].
    destruct (sanitize (p :: pts)); [done|].
    revert Hr. unfold pushAndSave.
    by destruct (save _ (trips w)) as [[? ?]|].
Qed.

(** X1. A trip request that is answered with an error has changed no trip
    and used no trip id, and of the other stores it has written at most
    the ledger pointer of the caller or one key of the geocoding cache: the
    ledger records of the other users are as they were, the caller has a
    record exactly when they had one before and its [currentOdometer] is
    unchanged, its [activeTrip] is either unchanged or the user's Active
    trip, and the cache is as it was or has one entry written. *)
Theorem failure_changes_no_trip (r : Request) (w : World) code msg :
  (handle r w).2 = Failure code msg ->
  trips (handle r w).1 = trips w /\ nextId (handle r w).1 = nextId w /\
  (forall uid', uid' <> requestUser r ->
     userData (handle r w).1 !! uid' = userData w !! uid') /\
  currentOdometer <$> userData (handle r w).1 !! requestUser r =
    currentOdometer <$> userData w !! requestUser r /\
  (forall u', userData (handle r w).1 !! requestUser r = Some u' ->
     userData w !! requestUser r = Some u' \/
     exists trip, trip ∈ trips w /\ userId trip = requestUser r /\
                  status trip = active /\ activeTrip u' = Some (_id trip)) /\
  (cache (handle r w).1 = cache w \/
   exists lat lon e,
     cache (handle r w).1 =
       <[ReverseGeocode.cacheKey lat lon := e]> (cache w)).
Proof.
  intros Hr.
  destruct (failure_state r w code msg Hr)
    as [->|[(lat & lon & e & ->)|(trip & Hf & ->)]].
  - repeat split; try done; auto.
  - cbn [withCache trips nextId userData cache].
    repeat split; try done; auto. right. by eexists _, _, _.
  - cbn [withUserData trips nextId userData cache].
    apply findActiveTrip_Some in Hf as (Hin & Hu & Hst).
    unfold syncActiveTrip.
    destruct (userData w !! requestUser r) as [u|] eqn:Hud;
      [|rewrite ?Hud; repeat split; try done; auto].
    case_bool_decide as Ha; [rewrite ?Hud; repeat split; try done; auto|].
    split; [done|]. split; [done|]. split; [|split; [|split]].
    + intros uid' Hne. by rewrite lookup_insert_ne.
    + by rewrite lookup_insert_eq.
    + intros u'. rewrite lookup_insert_eq. intros [= <-]. right.
      by exists trip.
    + by left.
Qed.

(** X2. A completed trip is frozen: in a reachable state no request other
    than the owner's Delete of that very trip removes or alters it. *)
Theorem completed_trip_frozen (r : Request) (w : World) (t : Trip) :
  reachable w -> t ∈ trips w -> status t = completed ->
  r <> DeleteTrip (userId t) (_id t) ->
  t ∈ trips (handle r w).1.
Proof.
  intros Hw Hin Hst Hr. pose proof (reachable_inv w Hw) as (Hnd & _).
  destruct (handle_effect r w) as [(_ & -> & _)|[(x & _ & -> & _)|
    [(trip & t' & _ & Htrip & _ & Hact & Hid & _ & _ & _ & _ & _ & -> & _)|
     (id & Hdel & trip & _ & Htrip & Hid & Hu & -> & _)]]].
  - done.
  - apply elem_of_app. by left.
  - apply replaceById_keeps; [done|]. rewrite Hid. intros Heq.
    assert (t = trip) as -> by (by apply (unique_id (trips w))). congruence.
  - apply findByIdAndDelete_keeps; [done|]. intros Heq.
    assert (t = trip) as -> by (apply (unique_id (trips w)); congruence).
    apply Hr. rewrite Hdel. congruence.
Qed.

(** X3. On a completed trip of the caller, Update is refused as a Conflict
    and End is refused as NotFound, and neither changes anything. *)
Theorem completed_trip_refuses_update_and_end
    (w : World) (t : Trip) now upstream ubody ebody :
  reachable w -> t ∈ trips w -> status t = completed ->
  updateTrip (userId t) (_id t) ubody w =
    (w, Failure 400 "Cannot update completed trip") /\
  errorKind (updateTrip (userId t) (_id t) ubody w).2 = Some Conflict /\
  endTrip now upstream (userId t) (_id t) ebody w =
    (w, Failure 404 "Active trip not found").
Proof.
  intros Hw Hin Hst.
  assert (updateTrip (userId t) (_id t) ubody w =
          (w, Failure 400 "Cannot update completed trip")) as Hu.
  { unfold updateTrip. rewrite (findOwned_stored w t Hw Hin).
    by rewrite bool_decide_eq_true_2. }
  split; [exact Hu|]. split; [by rewrite Hu|].
  unfold endTrip. by rewrite (findOwnedActive_completed w t _ Hw Hin Hst).
Qed.

(** X4. Delete by the owner removes exactly that trip, Active or Completed,
    and writes neither the ledger nor the cache (a ledger that pointed at the
    trip still points at it); Delete by anyone else is NotFound and changes
    nothing. *)
Theorem deleteTrip_removes_own_trip_only (w : World) (t : Trip) (uid : nat) :
  reachable w -> t ∈ trips w ->
  (deleteTrip (userId t) (_id t) w).2 = Success 200 None /\
  (forall x, x ∈ trips (deleteTrip (userId t) (_id t) w).1 <->
             x ∈ trips w /\ x <> t) /\
  userData (deleteTrip (userId t) (_id t) w).1 = userData w /\
  cache (deleteTrip (userId t) (_id t) w).1 = cache w /\
  (uid <> userId t ->
   deleteTrip uid (_id t) w = (w, Failure 404 "Trip not found")).
Proof.
  intros Hw Hin. pose proof (reachable_inv w Hw) as (Hnd & _).
  unfold deleteTrip. rewrite (findOwned_stored w t Hw Hin). cbn [fst snd].
  split; [done|]. split; [|split; [done|split; [done|]]].
  - intros x. simpl. split.
    + intros Hx. split; [by apply (elem_of_findByIdAndDelete (_id t))|].
      intros ->. by apply findByIdAndDelete_gone in Hx.
    + intros [Hx Hne]. apply findByIdAndDelete_keeps; [done|].
      intros Hid. apply Hne. by apply (unique_id (trips w)).
  - intros Hne. by rewrite (findOwned_other_user w t uid Hw Hin Hne).
Qed.

(** X5. No request touches the trips of another user: a trip whose owner
    is not the caller is in the collection after the request exactly when
    it was there before. *)
Theorem other_users_trips_untouched (r : Request) (w : World) (t : Trip) :
  reachable w -> userId t <> requestUser r ->
  (t ∈ trips (handle r w).1 <-> t ∈ trips w).
Proof.
  intros Hw Hne. pose proof (reachable_inv w Hw) as (Hnd & _).
  destruct (handle_effect r w) as [(_ & -> & _)|[(x & _ & -> & _ & Hx & _)|
    [(trip & t' & _ & Htrip & Hu & _ & Hid & Hu' & _ & _ & _ & _ & -> & _)|
     (id & _ & trip & _ & Htrip & Hid & Hu & -> & _)]]].
  - done.
  - rewrite elem_of_app, list_elem_of_singleton. split; [|by left].
    intros [Hold| ->]; [done | congruence].
  - split.
    + intros Hin. apply elem_of_replaceById_ne in Hin as [->|[Hin _]];
        [congruence | done].
    + intros Hin. apply replaceById_keeps; [done|]. rewrite Hid. intros Heq.
      assert (t = trip) as -> by (by apply (unique_id (trips w))). congruence.
  - split; [apply elem_of_findByIdAndDelete|].
    intros Hin. apply findByIdAndDelete_keeps; [done|]. intros Heq.
    assert (t = trip) as -> by (apply (unique_id (trips w)); congruence).
    congruence.
Qed.

(** X6. In a reachable state [getActiveTrip] answers with a trip exactly
    when that trip is the caller's Active one, and [getTrip] answers with a
    trip exactly when it is the caller's trip with the requested id. *)
Theorem getters_characterised (w : World) (uid id : nat) (t : Trip) :
  reachable w ->
  (getActiveTrip uid w = Success 200 (Some t) <->
   t ∈ trips w /\ userId t = uid /\ status t = active) /\
  (getTrip uid id w = Success 200 (Some t) <->
   t ∈ trips w /\ _id t = id /\ userId t = uid).
Proof.
  intros Hw. pose proof (reachable_inv w Hw) as (Hnd & _ & _ & Hcnt). split.
  - unfold getActiveTrip. split.
    + destruct (findActiveTrip uid (trips w)) as [x|] eqn:Hf; [|done].
      intros [= <-]. by apply findActiveTrip_Some in Hf.
    + intros (Hin & Hu & Hs).
      destruct (findActiveTrip_exists uid (trips w) t Hin Hu Hs) as [x Hf].
      rewrite Hf. apply findActiveTrip_Some in Hf as (Hx & Hxu & Hxs).
      do 2 f_equal. apply (unique_active uid (trips w)); try done;
        by apply isActiveOf_true.
  - unfold getTrip. split.
    + destruct (findOwned id uid (trips w)) as [x|] eqn:Hf; [|done].
      intros [= <-]. by apply findOwned_Some in Hf.
    + intros (Hin & <- & <-). by rewrite (findOwned_stored w t Hw Hin).
Qed.
End Store.

(** ** The ledger *)

Section Ledger.
Context `{JsRuntime}.

Lemma endTrip_shape now upstream uid id body (w : World) c t' :
  (endTrip now upstream uid id body w).2 = Success c (Some t') ->
  exists trip,
    trip ∈ trips w /\ _id trip = id /\ userId trip = uid /\
    status trip = active /\ _id t' = id /\ status t' = completed /\
    startOdometer t' = startOdometer trip /\ route t' = route trip /\
    endOdometer t' =
      Some (Math_max
              (startOdometer trip +
               inject_Z (roundDistance (Num (distance trip))))
              (startOdometer trip)) /\
    userData (endTrip now upstream uid id body w).1 =
      incOdometerAndClear uid (inject_Z (roundDistance (Num (distance trip))))
                          (userData w).
Proof.
  unfold endTrip.
  destruct (findOwnedActive id uid (trips w)) as [trip|] eqn:Hf; [|done].
  apply findOwnedActive_Some in Hf as (Hin & Hid & Hu & Hst).
  rewrite roundDistance_orZero.
  set (final := Math_max _ _).
  assert (Math_max
            (startOdometer trip + inject_Z (roundDistance (Num (distance trip))))
            (startOdometer trip) = final) as Hfinal by reflexivity.
  clearbody final.
  match goal with |- context [save ?x (trips w)] =>
    destruct (save x (trips w)) as [[t1 ts']|] eqn:Hs end; [|done].
  cbn [fst snd userData]. intros [= _ <-]. exists trip. rewrite Hfinal.
  apply save_fields in Hs
    as (_ & -> & _ & -> & -> & _ & _ & -> & -> & _).
  repeat case_match; simpl; done.
Qed.

Lemma pushAndSave_shape uid (trip : Trip) pts failure (w : World) c t' :
  (pushAndSave uid trip pts failure w).2 = Success c (Some t') ->
  _id t' = _id trip /\ status t' = status trip /\
  startOdometer t' = startOdometer trip /\ route t' = route trip ++ pts /\
  userData (pushAndSave uid trip pts failure w).1 =
    setLiveOdometer uid
      (startOdometer t' + inject_Z (roundDistance (Num (distance t'))))%Q
      (syncActiveTrip uid (_id trip) (userData w)).
Proof.
  unfold pushAndSave.
  destruct (save _ (trips w)) as [[t1 ts']|] eqn:Hs; [|done].
  cbn [fst snd userData withUserData]. intros [= _ <-].
  rewrite roundDistance_orZero.
  apply save_fields in Hs as (_ & -> & _ & -> & -> & _ & _ & -> & _).
  done.
Qed.

(** A successful append, single or bulk, is a [pushAndSave] on the Active
    trip of the caller. *)
Lemma append_shape (r : Request) uid body points (w : World) c t' :
  r = AddRoutePoint uid body \/ r = AddRoutePointsBulk uid points ->
  (handle r w).2 = Success c (Some t') ->
  exists trip pts failure,
    findActiveTrip uid (trips w) = Some trip /\
    handle r w = pushAndSave uid trip pts failure w.
Proof.
  intros [-> | ->]; simpl.
  - unfold addRoutePoint. case_match; [done|].
    destruct (findActiveTrip uid (trips w)) as [trip|] eqn:Hf; [|done].
    repeat case_match; try done. intros _. by eexists trip, _, _.
  - unfold addRoutePointsBulk. destruct points as [[|p pts]|]; try done.
    destruct (findActiveTrip uid (trips w)) as [trip|] eqn:Hf; [|done].
    destruct (sanitize (p :: pts)) eqn:Hs; [done|].
    intros _. by eexists trip, _, _.
Qed.

(** X7. A successful End adds the rounded distance of the trip to the
    [currentOdometer] the ledger had (0 for a user without a record), clears
    [activeTrip], and leaves the records of the other users alone. *)
Theorem endTrip_ledger now upstream uid id body (w : World) c t' :
  reachable w ->
  (endTrip now upstream uid id body w).2 = Success c (Some t') ->
  (exists u,
     userData (endTrip now upstream uid id body w).1 !! uid = Some u /\
     activeTrip u = None /\
     (currentOdometer u ==
      previousOdometer uid w + inject_Z (roundDistance (Num (distance t'))))%Q) /\
  (forall uid', uid' <> uid ->
     userData (endTrip now upstream uid id body w).1 !! uid' =
     userData w !! uid').
Proof.
  intros Hw Hr.
  pose proof (handle_ok (EndTrip now upstream uid id body) w (reachable_inv w Hw))
    as [_ Hdata].
  destruct (Hdata c t' Hr) as [_ (Hd' & _)].
  apply endTrip_shape in Hr
    as (trip & Hin & _ & _ & _ & _ & _ & _ & Hroute & _ & ->).
  assert (distance t' = distance trip) as ->.
  { apply reachable_inv in Hw as (_ & _ & Hall & _).
    rewrite Forall_forall in Hall. destruct (Hall trip Hin) as (Hd & _).
    unfold metricsFresh in *. congruence. }
  unfold incOdometerAndClear, previousOdometer.
  destruct (userData w !! uid) as [u0|] eqn:Hu; split.
  - eexists. rewrite lookup_insert_eq. split; [done|]. simpl. split; [done|].
    reflexivity.
  - intros uid' Hne. by rewrite lookup_insert_ne.
  - eexists. rewrite lookup_insert_eq. split; [done|]. simpl. split; [done|].
    lra.
  - intros uid' Hne. by rewrite lookup_insert_ne.
Qed.

Lemma append_userData (r : Request) uid body points (w : World) c t' :
  r = AddRoutePoint uid body \/ r = AddRoutePointsBulk uid points ->
  (handle r w).2 = Success c (Some t') ->
  userData (handle r w).1 !! uid =
    (fun _ => {| currentOdometer :=
                   (startOdometer t' +
                    inject_Z (roundDistance (Num (distance t'))))%Q;
                 activeTrip := Some (_id t') |}) <$> userData w !! uid /\
  (forall uid', uid' <> uid ->
     userData (handle r w).1 !! uid' = userData w !! uid').
Proof.
  intros Hcase Hr.
  destruct (append_shape r uid body points w c t' Hcase Hr)
    as (trip & pts & failure & _ & Heq).
  rewrite Heq in Hr |- *.
  apply pushAndSave_shape in Hr as (Hid & _ & _ & _ & ->). rewrite Hid.
  unfold setLiveOdometer, syncActiveTrip.
  destruct (userData w !! uid) as [u0|] eqn:Hu.
  - case_bool_decide as Hp.
    + rewrite Hu. split.
      * rewrite lookup_insert_eq. simpl. by rewrite Hp.
      * intros uid' Hne. by rewrite lookup_insert_ne.
    + rewrite lookup_insert_eq. split.
      * by rewrite lookup_insert_eq.
      * intros uid' Hne. by rewrite !lookup_insert_ne.
  - rewrite Hu. by split.
Qed.

(** X8. A successful append, single or bulk, repairs the ledger pointer
    and sets the live odometer: a user with a ledger record gets
    [activeTrip] = the trip and [currentOdometer] = [startOdometer] + the
    rounded distance so far; a user without a record still has none (these
    two writes do not upsert); other users' records are left alone. *)
Theorem append_ledger (r : Request) uid body points (w : World) c t' :
  r = AddRoutePoint uid body \/ r = AddRoutePointsBulk uid points ->
  (handle r w).2 = Success c (Some t') ->
  userData (handle r w).1 !! uid =
    (fun _ => {| currentOdometer :=
                   (startOdometer t' +
                    inject_Z (roundDistance (Num (distance t'))))%Q;
                 activeTrip := Some (_id t') |}) <$> userData w !! uid /\
  (forall uid', uid' <> uid ->
     userData (handle r w).1 !! uid' = userData w !! uid').
Proof. apply append_userData. Qed.
End Ledger.

(** ** How the lifecycle operations compose *)

Section Composition.
Context `{JsRuntime}.

Lemma Math_max_ge (a b : Q) : (b <= Math_max a b)%Q.
Proof. unfold Math_max. destruct (Qlt_le_dec a b); lra. Qed.

(** X9. After a successful End the caller has no Active trip left (so that
    [getActiveTrip] answers 404 and a Start is no longer refused for that
    reason), and a second End of the same trip is NotFound and changes
    nothing. *)
Theorem endTrip_then_no_active_trip now upstream uid id body (w : World) c t' :
  reachable w ->
  (endTrip now upstream uid id body w).2 = Success c (Some t') ->
  findActiveTrip uid (trips (endTrip now upstream uid id body w).1) = None /\
  getActiveTrip uid (endTrip now upstream uid id body w).1 =
    Failure 404 "No active trip found" /\
  (forall now2 upstream2 body2,
     endTrip now2 upstream2 uid id body2 (endTrip now upstream uid id body w).1 =
     ((endTrip now upstream uid id body w).1,
      Failure 404 "Active trip not found")).
Proof.
  intros Hw Hr.
  pose proof (reachable_handle (EndTrip now upstream uid id body) w Hw) as Hw'.
  simpl in Hw'.
  pose proof (handle_ok (EndTrip now upstream uid id body) w (reachable_inv w Hw))
    as [_ Hdata].
  destruct (Hdata c t' Hr) as [Hin' _]. simpl in Hin'.
  pose proof (reachable_inv w Hw) as (Hnd & _ & _ & Hcnt).
  destruct (endTrip_shape _ _ _ _ _ _ _ _ Hr)
    as (trip & Htrip & Hid & Hu & Hact & Hid' & Hst' & _).
  assert (findActiveTrip uid (trips (endTrip now upstream uid id body w).1) = None)
    as Hnone.
  { destruct (findActiveTrip uid _) as [x|] eqn:Hf; [|done]. exfalso.
    apply findActiveTrip_Some in Hf as (Hx & Hxu & Hxs).
    destruct (endTrip_effect now upstream uid id body w)
      as [[(code & msg & Hfail) _]|(trip0 & t0 & Hs0 & _ & _ & _ & _ & _ & _ & _ & _ & _ & Heq & _)];
      [congruence|].
    assert (t0 = t') as -> by congruence.
    rewrite Heq in Hx. apply elem_of_replaceById_ne in Hx as [->|[Hx Hne]];
      [congruence|].
    assert (x = trip) as ->.
    { apply (unique_active uid (trips w)); try done; by apply isActiveOf_true. }
    congruence. }
  split; [exact Hnone|]. split.
  - unfold getActiveTrip. by rewrite Hnone.
  - intros now2 upstream2 body2.
    pose proof (findOwnedActive_completed _ t' uid Hw' Hin' Hst') as Hnf.
    rewrite Hid' in Hnf. unfold endTrip at 1. by rewrite Hnf.
Qed.

(** X10. The live odometer and the final increment add up: when a user
    with a ledger record appends fixes and then ends the trip, the ledger
    ends at [startOdometer] plus twice the rounded distance, while the
    trip's own [endOdometer] is computed from one. *)
Theorem append_then_end_counts_distance_twice
    (r : Request) uid body points (w : World) c1 t1
    now upstream id ebody c2 t2 (u0 : UserData) :
  reachable w ->
  r = AddRoutePoint uid body \/ r = AddRoutePointsBulk uid points ->
  userData w !! uid = Some u0 ->
  (handle r w).2 = Success c1 (Some t1) ->
  (endTrip now upstream uid id ebody (handle r w).1).2 = Success c2 (Some t2) ->
  userData (endTrip now upstream uid id ebody (handle r w).1).1 !! uid =
    Some {| currentOdometer :=
              (startOdometer t1 +
               inject_Z (roundDistance (Num (distance t1))) +
               inject_Z (roundDistance (Num (distance t1))))%Q;
            activeTrip := None |} /\
  endOdometer t2 =
    Some (Math_max
            (startOdometer t1 + inject_Z (roundDistance (Num (distance t1))))
            (startOdometer t1)).
Proof.
  intros Hw Hcase Hu Hr1 Hr2.
  pose proof (reachable_handle r w Hw) as Hw1.
  pose proof (reachable_inv _ Hw1) as (_ & _ & _ & Hcnt1).
  pose proof (handle_ok r w (reachable_inv w Hw)) as [_ Hdata].
  destruct (Hdata c1 t1 Hr1) as [Hin1 _].
  destruct (append_userData r uid body points w c1 t1 Hcase Hr1) as [Hl _].
  rewrite Hu in Hl. simpl in Hl.
  assert (userId t1 = uid /\ status t1 = active) as [Hu1 Hs1].
  { destruct (append_shape r uid body points w c1 t1 Hcase Hr1)
      as (trip & pts & failure & Hf & Heq).
    apply findActiveTrip_Some in Hf as (Htrip & Hut & Hst).
    destruct (pushAndSave_effect uid trip pts failure w Htrip Hut Hst)
      as [[(code & msg & Hfail) _]|(trip0 & t0 & Hs0 & _ & _ & _ & _ & Hu0 & _ & _ & _ & _)];
      rewrite <- Heq in *; [congruence|].
    assert (t0 = t1) as -> by congruence. split; [done|].
    rewrite Heq in Hr1. apply pushAndSave_shape in Hr1 as (_ & -> & _). done. }
  apply endTrip_shape in Hr2
    as (trip & Htrip & _ & Hut & Hst & _ & _ & _ & _ & Ho & ->).
  assert (trip = t1) as ->.
  { apply (unique_active uid (trips (handle r w).1)); try done;
      by apply isActiveOf_true. }
  split; [|exact Ho].
  unfold incOdometerAndClear. rewrite Hl. by rewrite lookup_insert_eq.
Qed.
End Composition.

Section Odometer.
Context `{JsRuntime}.

Lemma replaceById_same (t : Trip) (ts : list Trip) :
  NoDup (_id <$> ts) -> t ∈ ts -> replaceById t ts = ts.
Proof.
  unfold replaceById. intros Hnd Hin.
  induction ts as [|x ts IH]; csimpl in *; [done|].
  apply NoDup_cons in Hnd as [Hx Hnd].
  destruct (Nat.eqb_spec (_id x) (_id t)) as [Heq|Hne].
  - apply elem_of_cons in Hin as [->|Hin].
    + f_equal. clear IH. induction ts as [|y ts IH]; csimpl in *; [done|].
      apply not_elem_of_cons in Hx as [Hy Hx].
      apply NoDup_cons in Hnd as [_ Hnd].
      destruct (Nat.eqb_spec (_id y) (_id x)); [congruence|].
      f_equal. by apply IH.
    + exfalso. apply Hx. rewrite Heq. by apply list_elem_of_fmap_2.
  - apply elem_of_cons in Hin as [->|Hin]; [done|]. f_equal. by apply IH.
Qed.

Lemma reachable_either (w : World) : reachable w -> reachableEither w.
Proof.
  induction 1 as [|r w _ IH|ud w _ IH];
    [apply either_initial | by apply either_handle | by apply either_userdata].
Qed.

(** What the End of routes/trips.js does to the collection: nothing, or it
    completes an Active trip with a reading that is not below its
    [startOdometer]. *)
Lemma legacy_endTrip_effect now uid id body (w : World) :
  worldInv w ->
  (Legacy.endTrip now uid id body w).1 = w \/
  exists trip t' e,
    trip ∈ trips w /\ status trip = active /\
    trips (Legacy.endTrip now uid id body w).1 = replaceById t' (trips w) /\
    status t' = completed /\ startOdometer t' = startOdometer trip /\
    endOdometer t' = Some e /\ (startOdometer trip <= e)%Q /\
    worldInv (Legacy.endTrip now uid id body w).1.
Proof.
  intros Hw. unfold Legacy.endTrip.
  destruct (negb (truthy (end_endOdometer body))); [by left|].
  destruct (findOwnedActive id uid (trips w)) as [trip|] eqn:Hf; [|by left].
  apply findOwnedActive_Some in Hf as (Hin & _ & _ & Hst).
  destruct (Number (end_endOdometer body)) as [|e]; [by left|].
  destruct (Qlt_le_dec e (startOdometer trip)) as [Hlt|Hle]; [by left|].
  match goal with |- context [save ?x (trips w)] =>
    destruct (save x (trips w)) as [[t1 ts']|] eqn:Hs end; [|by left].
  right. exists trip, t1, e. cbn [fst trips withTrips].
  assert (editOf trip
            (if truthy (end_endLocation body)
             then set_endLocation (castString (end_endLocation body))
                    (set_completed now e trip)
             else set_completed now e trip)) as Hedit.
  { case_match; unfold editOf; simpl; (split; [done|split; [done|by right]]). }
  destruct (save_storeInv _ _ _ _ _ _ Hw Hin Hedit Hs) as (Hstore & _ & _).
  apply save_fields in Hs
    as (-> & _ & _ & -> & _ & _ & _ & -> & -> & _).
  split; [done|]. split; [done|]. split; [done|].
  split; [by case_match|]. split; [by case_match|].
  split; [by case_match|]. split; [done|]. exact Hstore.
Qed.

(** Under either version of the routes the stores keep their invariant,
    an Active trip has no [endOdometer], and a completed trip has one that
    is not below its [startOdometer]. *)
Lemma reachableEither_readings (w : World) :
  reachableEither w ->
  worldInv w /\
  Forall (fun t =>
            (status t = active -> endOdometer t = None) /\
            (status t = completed ->
             exists e, endOdometer t = Some e /\ (startOdometer t <= e)%Q))
         (trips w).
Proof.
  induction 1 as [|r w _ [Hinv IH]|now uid id body w _ [Hinv IH]|ud w _ IH].
  - split; [|constructor].
    unfold worldInv, storeInv, activeCount. simpl.
    split; [constructor|]. split; [constructor|]. split; [constructor|].
    intros _. lia.
  - split; [by apply handle_ok|].
    rewrite Forall_forall in IH. apply Forall_forall. intros x Hx.
    destruct (handle_effect r w) as [(_ & Heq & _)|[(t & Hs & Heq & _ & _ & Hst & _ & Hnew)|
      [(trip & t' & Hs & Htrip & _ & Hact & _ & _ & Hso & _ & _ & Hodo & Heq & _)|
       (id & _ & trip & _ & _ & _ & _ & Heq & _)]]]; rewrite Heq in Hx.
    + by apply IH.
    + apply elem_of_app in Hx as [Hx|Hx]; [by apply IH|].
      apply list_elem_of_singleton in Hx as ->.
      split; [done | congruence].
    + apply elem_of_replaceById_ne in Hx as [->|[Hx _]]; [|by apply IH].
      destruct (IH trip Htrip) as [Hnone _].
      destruct Hodo as [[Hs' Ho]|(Hs' & Hroute & Ho)].
      * split; [intros _; rewrite Ho; by apply Hnone | congruence].
      * split; [congruence|]. intros _. eexists. split; [exact Ho|].
        rewrite Hso. apply Math_max_ge.
    + apply IH. by apply (elem_of_findByIdAndDelete id).
  - destruct (legacy_endTrip_effect now uid id body w Hinv)
      as [->|(trip & t' & e & Htrip & Hact & Heq & Hst' & Hso & Ho & Hle & Hinv')];
      [by split|].
    split; [exact Hinv'|].
    rewrite Forall_forall in IH. apply Forall_forall. intros x Hx.
    rewrite Heq in Hx.
    apply elem_of_replaceById_ne in Hx as [->|[Hx _]]; [|by apply IH].
    split; [congruence|]. intros _. exists e. split; [done|]. by rewrite Hso.
  - exact IH.
Qed.

(** X11. In every state that requests to either version of the routes can
    reach, the odometer readings of a trip are consistent: [startOdometer]
    is not negative; an Active trip has no [endOdometer] and its virtual
    [odometerDistance] is 0; a completed trip has an [endOdometer] that is
    at least [startOdometer]; the [odometerDistance] is never negative,
    never more than the [endOdometer], and 0 exactly when the two readings
    are equal. *)
Theorem odometer_readings_consistent (w : World) (t : Trip) :
  reachableEither w -> t ∈ trips w ->
  (0 <= startOdometer t)%Q /\
  (0 <= odometerDistance t)%Q /\
  (status t = active -> endOdometer t = None /\ odometerDistance t = 0%Q) /\
  (status t = completed ->
   exists e, endOdometer t = Some e /\ (startOdometer t <= e)%Q /\
     (odometerDistance t <= e)%Q /\
     ((odometerDistance t == 0)%Q <-> (e == startOdometer t)%Q)).
Proof.
  intros Hw Hin.
  destruct (reachableEither_readings w Hw) as [(_ & _ & Hall & _) Hodo].
  rewrite Forall_forall in Hodo. destruct (Hodo t Hin) as [Hact Hcomp].
  rewrite Forall_forall in Hall. destruct (Hall t Hin) as (_ & _ & _ & Hv).
  assert (0 <= startOdometer t)%Q as Hso.
  { unfold validate in Hv. repeat (apply andb_true_iff in Hv as [Hv ?]).
    by apply Qle_bool_iff. }
  assert (status t = completed ->
          exists e, endOdometer t = Some e /\ (startOdometer t <= e)%Q /\
            (odometerDistance t <= e)%Q /\
            ((odometerDistance t == 0)%Q <-> (e == startOdometer t)%Q) /\
            (0 <= odometerDistance t)%Q) as Hdone.
  { intros Hs. destruct (Hcomp Hs) as (e & He & Hle). exists e.
    split; [done|]. split; [done|].
    unfold odometerDistance. rewrite He.
    destruct (Qeq_bool e 0) eqn:E.
    - apply Qeq_bool_iff in E. split; [lra|]. split; [|lra].
      split; intros _; [lra | reflexivity].
    - split; [lra|]. split; [|lra]. split; intros Hz; lra. }
  split; [exact Hso|]. split; [|split].
  - destruct (status t) eqn:Hs.
    + unfold odometerDistance. rewrite (Hact eq_refl). lra.
    + by destruct (Hdone eq_refl) as (e & _ & _ & _ & _ & Hpos).
  - intros Hs. unfold odometerDistance. by rewrite (Hact Hs).
  - intros Hs. destruct (Hdone Hs) as (e & He & Hle & Hub & Hiff & _).
    by exists e.
Qed.

(** X12. An Update that carries no field is accepted on an Active trip of
    the caller and changes nothing: saving a stored document again
    recomputes the same derived values. *)
Theorem updateTrip_without_fields_changes_nothing (w : World) (t : Trip) :
  reachable w -> t ∈ trips w -> status t = active ->
  updateTrip (userId t) (_id t)
    {| update_route := None; update_startLocation := JsUndefined;
       update_endLocation := JsUndefined |} w =
  (w, Success 200 (Some t)).
Proof.
  intros Hw Hin Hst. unfold updateTrip.
  rewrite (findOwned_stored w t Hw Hin).
  rewrite bool_decide_eq_false_2 by congruence. simpl.
  apply reachable_inv in Hw as (Hnd & _ & Hall & _).
  rewrite Forall_forall in Hall. pose proof (Hall t Hin) as Ht.
  unfold save. destruct Ht as (Hd & Htime & Hs & ->).
  rewrite (tripInv_calculateMetrics t) by (by apply Hall).
  rewrite (replaceById_same t (trips w) Hnd Hin). by destruct w.
Qed.

(** X13. A successful Update writes neither the ledger nor the cache; the
    route it stores is the supplied one, cast entry by entry in the order
    given, or the old one when none is supplied, and the status stays
    Active. *)
Theorem updateTrip_effect_on_success uid id body (w : World) c t' :
  (updateTrip uid id body w).2 = Success c (Some t') ->
  userData (updateTrip uid id body w).1 = userData w /\
  cache (updateTrip uid id body w).1 = cache w /\
  status t' = active /\
  exists trip, findOwned id uid (trips w) = Some trip /\
    match update_route body with
    | Some r => castRoute r = Some (route t')
    | None => route t' = route trip
    end /\
    distance t' = totalDistance (route t').
Proof.
  unfold updateTrip.
  destruct (findOwned id uid (trips w)) as [trip|] eqn:Hf; [|done].
  case_bool_decide as Hst; [done|]. apply status_not_completed in Hst.
  match goal with |- context [match ?c with Some _ => _ | None => _ end] =>
    destruct c as [t|] eqn:Hc end; [|done].
  match goal with |- context [save ?x (trips w)] =>
    destruct (save x (trips w)) as [[t1 ts']|] eqn:Hs end; [|done].
  cbn [fst snd userData cache withTrips]. intros [= _ <-].
  apply save_fields in Hs
    as (_ & _ & _ & Hs' & Hr' & _ & _ & _ & _ & _ & _ & _ & Hd').
  split; [done|]. split; [done|].
  assert (status t = active /\
          match update_route body with
          | Some r => castRoute r = Some (route t)
          | None => route t = route trip
          end) as [Hst2 Hroute].
  { destruct (update_route body) as [r|]; simpl in Hc.
    - destruct (castRoute r); simplify_eq/=. done.
    - by simplify_eq. }
  assert (status t1 = active /\ route t1 = route t) as [-> Hrt].
  { rewrite Hs', Hr'. repeat case_match; done. }
  split; [done|]. exists trip. split; [done|]. rewrite Hrt in *.
  split; [exact Hroute | by rewrite Hd', Hr'; repeat case_match].
Qed.
End Odometer.

(** ** Rounding and distance *)

Lemma roundDistance_bounds (d : Q) :
  (d - (1 # 2) <= inject_Z (roundDistance (Num d)))%Q /\
  (inject_Z (roundDistance (Num d)) < d + (1 # 2))%Q.
Proof.
  rewrite roundDistance_Qeq.
  pose proof (Qfloor_le d) as Hlo. pose proof (Qlt_floor d) as Hhi.
  rewrite inject_Z_plus in Hhi. change (inject_Z 1) with 1%Q in Hhi.
  destruct (Qlt_le_dec (1 # 2) (d - inject_Z (Qfloor d))) as [Hf|Hf];
    rewrite inject_Z_plus.
  - change (inject_Z 1) with 1%Q. split; lra.
  - change (inject_Z 0) with 0%Q. split; lra.
Qed.

Lemma roundDistance_mono (d1 d2 : Q) :
  (d1 <= d2)%Q -> (roundDistance (Num d1) <= roundDistance (Num d2))%Z.
Proof.
  intros Hd.
  destruct (roundDistance_bounds d1) as [_ H1].
  destruct (roundDistance_bounds d2) as [H2 _].
  assert (inject_Z (roundDistance (Num d1)) <
          inject_Z (roundDistance (Num d2) + 1))%Q as Hlt.
  { rewrite inject_Z_plus. change (inject_Z 1) with 1%Q. lra. }
  rewrite <- Zlt_Qlt in Hlt. lia.
Qed.

(** X14. The odometer rounding returns the integer nearest to the distance,
    the lower one on a tie: the result lies in [[d - 1/2, d + 1/2)]; it
    leaves whole numbers alone, and a missing or [NaN] distance rounds to
    0. *)
Theorem roundDistance_nearest_integer (d : Q) (n : Z) :
  (d - (1 # 2) <= inject_Z (roundDistance (Num d)))%Q /\
  (inject_Z (roundDistance (Num d)) < d + (1 # 2))%Q /\
  roundDistance (Num (inject_Z n)) = n /\
  roundDistance NaN = 0%Z.
Proof.
  destruct (roundDistance_bounds d) as [Hlo Hhi].
  split; [exact Hlo|]. split; [exact Hhi|]. split; [|reflexivity].
  rewrite roundDistance_Qeq, Qfloor_Z.
  destruct (Qlt_le_dec (1 # 2) (inject_Z n - inject_Z n)); [lra | lia].
Qed.

(** X15. The odometer rounding is monotone: a longer distance never rounds
    to fewer kilometres. *)
Theorem roundDistance_monotone (d1 d2 : Q) :
  (d1 <= d2)%Q -> (roundDistance (Num d1) <= roundDistance (Num d2))%Z.
Proof. apply roundDistance_mono. Qed.

Section Distance.
Context `{JsRuntime}.

Lemma specDistance_snoc (r : list TripPoint) (q p : TripPoint) :
  (specDistance ((r ++ [q]) ++ [p]) ==
   specDistance (r ++ [q]) + calculateHaversineDistance q p)%Q.
Proof.
  induction r as [|a r IH].
  - unfold specDistance. simpl. lra.
  - destruct r as [|b r].
    + unfold specDistance. simpl. lra.
    + change (((a :: b :: r) ++ [q]) ++ [p])
        with (a :: b :: ((r ++ [q]) ++ [p])).
      change ((a :: b :: r) ++ [q]) with (a :: b :: (r ++ [q])).
      rewrite !specDistance_cons2.
      change (b :: (r ++ [q]) ++ [p]) with (((b :: r) ++ [q]) ++ [p]).
      change (b :: r ++ [q]) with ((b :: r) ++ [q]).
      rewrite IH. lra.
Qed.

Lemma totalDistance_snoc (r : list TripPoint) (q p : TripPoint) :
  (totalDistance ((r ++ [q]) ++ [p]) ==
   totalDistance (r ++ [q]) + calculateHaversineDistance q p)%Q.
Proof. rewrite !totalDistance_specDistance. apply specDistance_snoc. Qed.

Lemma totalDistance_snoc_le (l : list TripPoint) (p : TripPoint) :
  (forall p q, 0 <= calculateHaversineDistance p q)%Q ->
  (totalDistance l <= totalDistance (l ++ [p]))%Q.
Proof.
  intros Hh. induction l as [|a l _] using rev_ind.
  - rewrite totalDistance_short by (simpl; lia).
    by apply totalDistance_nonneg.
  - rewrite totalDistance_snoc. specialize (Hh a p). lra.
Qed.

Lemma totalDistance_app_le (r pts : list TripPoint) :
  (forall p q, 0 <= calculateHaversineDistance p q)%Q ->
  (totalDistance r <= totalDistance (r ++ pts))%Q.
Proof.
  intros Hh. induction pts as [|p pts IH] using rev_ind.
  - rewrite app_nil_r. lra.
  - rewrite app_assoc. apply (Qle_trans _ _ _ IH).
    by apply totalDistance_snoc_le.
Qed.

(** X16. The distance is incremental: appending one fix to a route that
    ends at [q] adds the great-circle distance from [q] to the new fix; and
    the first fix of a route adds nothing. *)
Theorem totalDistance_append_one (r : list TripPoint) (q p : TripPoint) :
  (totalDistance ((r ++ [q]) ++ [p]) ==
   totalDistance (r ++ [q]) + calculateHaversineDistance q p)%Q /\
  totalDistance ([] ++ [p]) = 0%Q.
Proof. split; [apply totalDistance_snoc | reflexivity]. Qed.

(** X17. When the great-circle distance of the runtime is never negative,
    a successful append, single or bulk, never lowers the distance of the
    trip nor the rounded distance that the live odometer is computed
    from. *)
Theorem append_never_lowers_distance
    (r : Request) uid body points (w : World) (trip : Trip) c t' :
  (forall p q, 0 <= calculateHaversineDistance p q)%Q ->
  reachable w ->
  r = AddRoutePoint uid body \/ r = AddRoutePointsBulk uid points ->
  findActiveTrip uid (trips w) = Some trip ->
  (handle r w).2 = Success c (Some t') ->
  (distance trip <= distance t')%Q /\
  (roundDistance (Num (distance trip)) <= roundDistance (Num (distance t')))%Z /\
  startOdometer t' = startOdometer trip.
Proof.
  intros Hh Hw Hcase Hf Hr.
  pose proof (handle_ok r w (reachable_inv w Hw)) as [_ Hdata].
  destruct (Hdata c t' Hr) as [_ (Hd' & _)].
  destruct (append_shape r uid body points w c t' Hcase Hr)
    as (trip0 & pts & failure & Hf0 & Heq).
  assert (trip0 = trip) as -> by congruence.
  rewrite Heq in Hr. apply pushAndSave_shape in Hr as (_ & _ & Hso & Hroute & _).
  apply findActiveTrip_Some in Hf as (Hin & _).
  apply reachable_inv in Hw as (_ & _ & Hall & _).
  rewrite Forall_forall in Hall. destruct (Hall trip Hin) as (Hd & _).
  unfold metricsFresh in *.
  assert (distance trip <= distance t')%Q as Hle.
  { rewrite Hd, Hd', Hroute. by apply totalDistance_app_le. }
  split; [exact Hle|]. split; [by apply roundDistance_mono | exact Hso].
Qed.

(** X18. For a runtime whose sine is odd, whose square root is 0 at 0 and
    whose arc tangent of 0 over the square root of 1 is 0 (all three
    compatible with equality of numbers), the great-circle distance is
    symmetric and is 0 from a fix to itself. *)
Theorem haversine_symmetric_and_zero (p q : TripPoint) :
  (forall x y, x == y -> Math_sin x == Math_sin y)%Q ->
  (forall x, Math_sin (- x) == - Math_sin x)%Q ->
  (forall x y, x == y -> Math_sqrt x == Math_sqrt y)%Q ->
  (forall y1 y2 x1 x2, y1 == y2 -> x1 == x2 ->
                       Math_atan2 y1 x1 == Math_atan2 y2 x2)%Q ->
  (Math_sqrt 0 == 0)%Q ->
  (Math_atan2 0 (Math_sqrt 1) == 0)%Q ->
  (calculateHaversineDistance p q == calculateHaversineDistance q p)%Q /\
  (calculateHaversineDistance p p == 0)%Q.
Proof.
  intros Hsin Hodd Hsqrt Hatan Hsqrt0 Hatan0.
  assert (forall a b : Q,
            Math_sin ((a - b) * Math_PI / 180 / 2) *
            Math_sin ((a - b) * Math_PI / 180 / 2) ==
            Math_sin ((b - a) * Math_PI / 180 / 2) *
            Math_sin ((b - a) * Math_PI / 180 / 2))%Q as Hsq.
  { intros a b.
    assert ((a - b) * Math_PI / 180 / 2 == - ((b - a) * Math_PI / 180 / 2))%Q
      as He by field.
    rewrite (Hsin _ _ He), Hodd. ring. }
  assert (Math_sin 0 == 0)%Q as Hsin0.
  { pose proof (Hodd 0%Q) as H0.
    assert (- 0 == 0)%Q as Hz by reflexivity.
    rewrite (Hsin _ _ Hz) in H0. lra. }
  unfold calculateHaversineDistance. split.
  - assert (forall y1 y2 x1 x2 : Q, y1 == y2 -> x1 == x2 ->
              6371 * (2 * Math_atan2 (Math_sqrt y1) (Math_sqrt (1 - x1))) ==
              6371 * (2 * Math_atan2 (Math_sqrt y2) (Math_sqrt (1 - x2))))%Q
      as Hc.
    { intros y1 y2 x1 x2 Hy Hx.
      rewrite (Hatan (Math_sqrt y1) (Math_sqrt y2)
                     (Math_sqrt (1 - x1)) (Math_sqrt (1 - x2))).
      - reflexivity.
      - by apply Hsqrt.
      - apply Hsqrt. by rewrite Hx. }
    apply Hc.
    + rewrite (Hsq (latitude q) (latitude p)).
      rewrite <- !Qmult_assoc.
      rewrite (Hsq (longitude q) (longitude p)). ring.
    + rewrite (Hsq (latitude q) (latitude p)).
      rewrite <- !Qmult_assoc.
      rewrite (Hsq (longitude q) (longitude p)). ring.
  - assert (forall a : Q, Math_sin ((a - a) * Math_PI / 180 / 2) == 0)%Q as Hz.
    { intros a. assert ((a - a) * Math_PI / 180 / 2 == 0)%Q as He by field.
      by rewrite (Hsin _ _ He). }
    assert (Math_sqrt
              (Math_sin ((latitude p - latitude p) * Math_PI / 180 / 2) *
               Math_sin ((latitude p - latitude p) * Math_PI / 180 / 2) +
               Math_cos (latitude p * Math_PI / 180) *
               Math_cos (latitude p * Math_PI / 180) *
               Math_sin ((longitude p - longitude p) * Math_PI / 180 / 2) *
               Math_sin ((longitude p - longitude p) * Math_PI / 180 / 2)) == 0)%Q
      as Hs.
    { rewrite <- Hsqrt0. apply Hsqrt. rewrite !Hz. ring. }
    rewrite (Hatan _ 0%Q _ (Math_sqrt 1) Hs); [rewrite Hatan0; ring|].
    apply Hsqrt. rewrite !Hz. ring.
Qed.
End Distance.

(** ** More on the reverse-geocoding cache *)

Lemma firstField_app (addr : gmap string string) (pre post : list string) :
  (forall g, g ∈ pre -> ReverseGeocode.orNull (addr !! g) = None) ->
  ReverseGeocode.firstField addr (pre ++ post) =
  ReverseGeocode.firstField addr post.
Proof.
  induction pre as [|g pre IH]; intros Hpre; [done|]. simpl.
  rewrite (Hpre g) by (apply elem_of_cons; by left).
  apply IH. intros g' Hg'. apply Hpre. apply elem_of_cons; by right.
Qed.

(** X19. A lookup writes no cache entry but the one of its own
    coordinates and never removes an entry; the entry under its own key is
    either left as it was or becomes the returned name stamped with the
    clock of the store; a lookup without a latitude or a longitude returns
    nothing, queries nothing and leaves the cache alone. *)
Theorem reverseGeocode_cache_frame
    (tGet tSet : Z) (upstream : ReverseGeocode.Upstream) (la lo : Q)
    (lat lon : option Q) (c : gmap string ReverseGeocode.Entry) (k : string) :
  (k <> ReverseGeocode.cacheKey la lo ->
   ReverseGeocode.cacheAfter
     (ReverseGeocode.reverseGeocode tGet tSet upstream (Some la) (Some lo) c)
     !! k = c !! k) /\
  (is_Some (c !! k) ->
   is_Some (ReverseGeocode.cacheAfter
              (ReverseGeocode.reverseGeocode tGet tSet upstream lat lon c) !! k)) /\
  (ReverseGeocode.cacheAfter
     (ReverseGeocode.reverseGeocode tGet tSet upstream (Some la) (Some lo) c)
     !! ReverseGeocode.cacheKey la lo = c !! ReverseGeocode.cacheKey la lo \/
   exists nm,
     ReverseGeocode.result
       (ReverseGeocode.reverseGeocode tGet tSet upstream (Some la) (Some lo) c)
       = Some nm /\
     ReverseGeocode.cacheAfter
       (ReverseGeocode.reverseGeocode tGet tSet upstream (Some la) (Some lo) c)
       !! ReverseGeocode.cacheKey la lo =
     Some {| ReverseGeocode.name := nm; ReverseGeocode.timestamp := tSet |}) /\
  (lat = None \/ lon = None ->
   ReverseGeocode.reverseGeocode tGet tSet upstream lat lon c =
   {| ReverseGeocode.result := None; ReverseGeocode.cacheAfter := c;
      ReverseGeocode.queried := false |}).
Proof.
  split; [|split; [|split]].
  - intros Hk. unfold ReverseGeocode.reverseGeocode.
    repeat case_match; simpl; try done.
    unfold ReverseGeocode.setCache. by rewrite lookup_insert_ne.
  - intros Hsome. unfold ReverseGeocode.reverseGeocode.
    repeat case_match; simpl; try done.
    unfold ReverseGeocode.setCache.
    match goal with |- is_Some (<[?k' := _]> _ !! _) =>
      destruct (decide (k' = k)) as [->|Hne] end.
    + rewrite lookup_insert_eq. by eexists.
    + by rewrite lookup_insert_ne.
  - unfold ReverseGeocode.reverseGeocode.
    destruct (ReverseGeocode.orNull (ReverseGeocode.getCached tGet la lo c));
      [by left|].
    destruct (ReverseGeocode.extractName (upstream la lo)) as [nm|];
      [|by left].
    right. exists nm. simpl. split; [done|].
    unfold ReverseGeocode.setCache. by rewrite lookup_insert_eq.
  - intros [-> | ->]; [done|]. by destruct lat.
Qed.

(** X20. The name extracted from an upstream answer is the first
    non-empty field of the address in the order suburb, neighbourhood,
    quarter, hamlet, village, town, city, municipality, state_district,
    state, country; when none of them is present it is the non-empty
    [display_name], which is also the answer for a body without address;
    and it is never the empty string. *)
Theorem extractName_preference
    (addr : gmap string string) (dn : option string)
    (pre post : list string) (f s : string) :
  ReverseGeocode.fields = pre ++ f :: post ->
  (forall g, g ∈ pre -> addr !! g = None \/ addr !! g = Some "") ->
  addr !! f = Some s -> s <> "" ->
  ReverseGeocode.extractName
    (Some {| ReverseGeocode.address := Some addr;
             ReverseGeocode.display_name := dn |}) = Some s /\
  (forall addr',
     (forall g, g ∈ ReverseGeocode.fields ->
                addr' !! g = None \/ addr' !! g = Some "") ->
     ReverseGeocode.extractName
       (Some {| ReverseGeocode.address := Some addr';
                ReverseGeocode.display_name := dn |}) =
     ReverseGeocode.orNull dn) /\
  ReverseGeocode.extractName
    (Some {| ReverseGeocode.address := None;
             ReverseGeocode.display_name := dn |}) = ReverseGeocode.orNull dn /\
  ReverseGeocode.extractName None = None.
Proof.
  intros Hfields Hpre Hf Hs.
  assert (forall (a : gmap string string) g,
            a !! g = None \/ a !! g = Some "" ->
            ReverseGeocode.orNull (a !! g) = None) as Hnull.
  { intros a g [-> | ->]; done. }
  split; [|split; [|done]].
  - unfold ReverseGeocode.extractName. cbn [ReverseGeocode.address].
    rewrite Hfields, firstField_app by (intros g Hg; by apply Hnull, Hpre).
    cbn [ReverseGeocode.firstField]. rewrite Hf.
    assert (ReverseGeocode.orNull (Some s) = Some s) as ->
      by (by apply ReverseGeocodeFacts.orNull_Some).
    done.
  - intros addr' Hall. unfold ReverseGeocode.extractName.
    cbn [ReverseGeocode.address ReverseGeocode.display_name].
    rewrite <- (app_nil_r ReverseGeocode.fields).
    rewrite firstField_app by (intros g Hg; by apply Hnull, Hall).
    done.
Qed.

(** ** routes/userdata.js *)

(** X21. [getUserData] creates the ledger record of a user on first
    access, with odometer 0 and no active trip, and otherwise returns the
    record as it is; a second call returns the same record and changes
    nothing; trips and the records of other users are never touched. *)
Theorem getUserData_lazy_and_idempotent (uid : nat) (w : World) :
  (getUserData uid w).2 =
    UserDataSuccess
      (default {| currentOdometer := 0; activeTrip := None |}
               (userData w !! uid)) /\
  userData (getUserData uid w).1 !! uid =
    Some (default {| currentOdometer := 0; activeTrip := None |}
                  (userData w !! uid)) /\
  (forall uid', uid' <> uid ->
     userData (getUserData uid w).1 !! uid' = userData w !! uid') /\
  trips (getUserData uid w).1 = trips w /\
  getUserData uid (getUserData uid w).1 =
    ((getUserData uid w).1, (getUserData uid w).2).
Proof.
  unfold getUserData. destruct (userData w !! uid) as [u|] eqn:Hu; simpl.
  - rewrite Hu. done.
  - rewrite lookup_insert_eq. repeat split; try done.
    intros uid' Hne. by rewrite lookup_insert_ne.
Qed.

Section UserDataRoutes.
Context `{JsRuntime}.

(** X22. [updateOdometer] refuses a missing value and a negative number
    with 400 and changes nothing; it accepts every number from 0 upwards,
    0 included, and then overwrites [currentOdometer] with it, also with a
    lower value than before, keeping the [activeTrip] pointer; whatever the
    body, a stored value is never negative and no trip is changed. *)
Theorem updateOdometer_behaviour (uid : nat) (w : World) :
  updateOdometer uid JsUndefined w =
    (w, UserDataFailure 400 "Valid odometer reading is required") /\
  (forall q, (q < 0)%Q ->
     updateOdometer uid (JsNum q) w =
       (w, UserDataFailure 400 "Valid odometer reading is required")) /\
  (forall q, (0 <= q)%Q ->
     (updateOdometer uid (JsNum q) w).2 =
       UserDataSuccess {| currentOdometer := q;
                          activeTrip := userData w !! uid ≫= activeTrip |} /\
     userData (updateOdometer uid (JsNum q) w).1 !! uid =
       Some {| currentOdometer := q;
               activeTrip := userData w !! uid ≫= activeTrip |}) /\
  (forall v u,
     (updateOdometer uid v w).2 = UserDataSuccess u ->
     (0 <= currentOdometer u)%Q /\
     userData (updateOdometer uid v w).1 !! uid = Some u) /\
  (forall v, trips (updateOdometer uid v w).1 = trips w).
Proof.
  split; [done|]. split; [|split; [|split]].
  - intros q Hq. unfold updateOdometer, lessThanZero. simpl.
    destruct (Qlt_le_dec q 0); [done | lra].
  - intros q Hq. unfold updateOdometer, lessThanZero. simpl.
    destruct (Qlt_le_dec q 0); [lra|]. simpl.
    assert (Qle_bool 0 q = true) as -> by (by apply Qle_bool_iff).
    simpl. by rewrite lookup_insert_eq.
  - intros v u. unfold updateOdometer.
    destruct (_ || _); [done|].
    destruct (castNumber v) as [q|]; [|done].
    destruct (Qle_bool 0 q) eqn:Hq; [|done].
    simpl. intros [= <-]. simpl. split; [by apply Qle_bool_iff|].
    by rewrite lookup_insert_eq.
  - intros v. unfold updateOdometer. by repeat case_match.
Qed.
End UserDataRoutes.

(** ** The older End *)

Section LegacyEnd.
Context `{JsRuntime}.

(** X23. The End of routes/trips.js keeps the invariants of the store (one
    Active trip per user at most, derived fields fresh); on success the
    trip is completed with the client's number as [endOdometer], which is
    not below [startOdometer]; it never writes the ledger or the cache, so
    the ledger keeps pointing at the ended trip. *)
Theorem legacy_endTrip_keeps_store_but_not_ledger
    now uid id body (w : World) :
  reachable w ->
  worldInv (Legacy.endTrip now uid id body w).1 /\
  userData (Legacy.endTrip now uid id body w).1 = userData w /\
  cache (Legacy.endTrip now uid id body w).1 = cache w /\
  (forall c t', (Legacy.endTrip now uid id body w).2 = Success c (Some t') ->
     status t' = completed /\ t' ∈ trips (Legacy.endTrip now uid id body w).1 /\
     exists e, Number (end_endOdometer body) = Num e /\
               endOdometer t' = Some e /\ (startOdometer t' <= e)%Q).
Proof.
  intros Hw. apply reachable_inv in Hw. unfold Legacy.endTrip.
  assert (forall code msg,
            worldInv (w, Failure code msg).1 /\
            userData (w, Failure code msg).1 = userData w /\
            cache (w, Failure code msg).1 = cache w /\
            (forall c t', (w, Failure code msg).2 = Success c (Some t') ->
               status t' = completed /\ t' ∈ trips (w, Failure code msg).1 /\
               exists e, Number (end_endOdometer body) = Num e /\
                         endOdometer t' = Some e /\ (startOdometer t' <= e)%Q))
    as Hfail.
  { intros code msg. split; [exact Hw|]. split; [done|]. split; [done|].
    intros c t' [=]. }
  destruct (negb (truthy (end_endOdometer body))); [apply Hfail|].
  destruct (findOwnedActive id uid (trips w)) as [trip|] eqn:Hf;
    [|apply Hfail].
  apply findOwnedActive_Some in Hf as (Hin & _).
  destruct (Number (end_endOdometer body)) as [|e] eqn:Hnum; [apply Hfail|].
  destruct (Qlt_le_dec e (startOdometer trip)) as [Hlt|Hle];
    [apply Hfail|].
  match goal with |- context [save ?x (trips w)] =>
    destruct (save x (trips w)) as [[t1 ts']|] eqn:Hs end;
    [|apply Hfail].
  clear Hfail.
  cbn [fst snd userData cache trips withTrips].
  assert (editOf trip
            (if truthy (end_endLocation body)
             then set_endLocation (castString (end_endLocation body))
                    (set_completed now e trip)
             else set_completed now e trip)) as Hedit.
  { case_match; unfold editOf; simpl; (split; [done|split; [done|by right]]). }
  destruct (save_storeInv _ _ _ _ _ _ Hw Hin Hedit Hs) as (Hst & _ & Hin1).
  split; [exact Hst|]. split; [done|]. split; [done|].
  intros c t' [= _ <-].
  apply save_fields in Hs
    as (_ & _ & _ & -> & _ & _ & _ & -> & -> & _).
  split; [by case_match|]. split; [done|].
  exists e. split; [done|]. by case_match.
Qed.
End LegacyEnd.

(** ** Worked instances of the properties above *)

Section MoreExamples.
#[local] Existing Instance rationalRuntime.

Lemma oneEndedTrip_reachable : reachable oneEndedTrip.
Proof.
  exact (reachable_handle (EndTrip 5000 noUpstream 7 0 (clientEnd 500))
                          oneActiveTrip oneActiveTrip_reachable).
Qed.

Lemma endedAt100_stored : endedAt100 ∈ trips oneEndedTrip.
Proof. vm_compute. apply list_elem_of_here. Qed.

Lemma startedAt100_stored : startedAt100 ∈ trips oneActiveTrip.
Proof. vm_compute. apply list_elem_of_here. Qed.

(** A batch of one fix sent as strings, on a ledger that points at no
    trip: the answer is the input error, no trip has changed, and the
    ledger pointer has been set to the Active trip, the odometer staying
    at 80. *)
Lemma failure_changes_no_trip_witness :
  (handle (AddRoutePointsBulk 7 (Some [stringFix])) ledgerBehind).2 =
    Failure 400 "No valid points provided" /\
  userData ledgerBehind !! 7%nat =
    Some {| currentOdometer := 80; activeTrip := None |} /\
  userData (handle (AddRoutePointsBulk 7 (Some [stringFix])) ledgerBehind).1
    !! 7%nat = Some {| currentOdometer := 80; activeTrip := Some 0%nat |} /\
  trips (handle (AddRoutePointsBulk 7 (Some [stringFix])) ledgerBehind).1 =
    trips ledgerBehind /\
  nextId (handle (AddRoutePointsBulk 7 (Some [stringFix])) ledgerBehind).1 =
    nextId ledgerBehind /\
  (forall uid', uid' <> 7%nat ->
     userData (handle (AddRoutePointsBulk 7 (Some [stringFix])) ledgerBehind).1
       !! uid' = userData ledgerBehind !! uid') /\
  currentOdometer <$>
    userData (handle (AddRoutePointsBulk 7 (Some [stringFix])) ledgerBehind).1
      !! 7%nat =
    currentOdometer <$> userData ledgerBehind !! 7%nat /\
  (forall u',
     userData (handle (AddRoutePointsBulk 7 (Some [stringFix])) ledgerBehind).1
       !! 7%nat = Some u' ->
     userData ledgerBehind !! 7%nat = Some u' \/
     exists trip, trip ∈ trips ledgerBehind /\ userId trip = 7%nat /\
                  status trip = active /\ activeTrip u' = Some (_id trip)) /\
  (cache (handle (AddRoutePointsBulk 7 (Some [stringFix])) ledgerBehind).1 =
     cache ledgerBehind \/
   exists lat lon e,
     cache (handle (AddRoutePointsBulk 7 (Some [stringFix])) ledgerBehind).1 =
       <[ReverseGeocode.cacheKey lat lon := e]> (cache ledgerBehind)).
Proof.
  split; [reflexivity|]. split; [reflexivity|]. split; [reflexivity|].
  apply (failure_changes_no_trip
           (AddRoutePointsBulk 7 (Some [stringFix])) ledgerBehind 400
           "No valid points provided").
  reflexivity.
Defined.

Lemma completed_trip_frozen_witness :
  status endedAt100 = completed /\
  endedAt100 ∈ trips (handle (UpdateTrip 7 0 renameStart) oneEndedTrip).1.
Proof.
  split; [reflexivity|].
  apply (completed_trip_frozen (UpdateTrip 7 0 renameStart) oneEndedTrip
                               endedAt100);
    [exact oneEndedTrip_reachable | exact endedAt100_stored | reflexivity
    | discriminate].
Defined.

Lemma completed_trip_refuses_update_and_end_witness :
  updateTrip (userId endedAt100) (_id endedAt100) renameStart oneEndedTrip =
    (oneEndedTrip, Failure 400 "Cannot update completed trip") /\
  errorKind
    (updateTrip (userId endedAt100) (_id endedAt100) renameStart oneEndedTrip).2
    = Some Conflict /\
  endTrip 9000 noUpstream (userId endedAt100) (_id endedAt100) (clientEnd 500)
          oneEndedTrip =
    (oneEndedTrip, Failure 404 "Active trip not found").
Proof.
  apply (completed_trip_refuses_update_and_end oneEndedTrip endedAt100 9000
           noUpstream renameStart (clientEnd 500));
    [exact oneEndedTrip_reachable | exact endedAt100_stored | reflexivity].
Defined.

Lemma deleteTrip_removes_own_trip_only_witness :
  (deleteTrip (userId startedAt100) (_id startedAt100) oneActiveTrip).2 =
    Success 200 None /\
  (forall x,
     x ∈ trips (deleteTrip (userId startedAt100) (_id startedAt100)
                           oneActiveTrip).1 <->
     x ∈ trips oneActiveTrip /\ x <> startedAt100) /\
  userData (deleteTrip (userId startedAt100) (_id startedAt100)
                       oneActiveTrip).1 = userData oneActiveTrip /\
  cache (deleteTrip (userId startedAt100) (_id startedAt100)
                    oneActiveTrip).1 = cache oneActiveTrip /\
  (8%nat <> userId startedAt100 ->
   deleteTrip 8 (_id startedAt100) oneActiveTrip =
     (oneActiveTrip, Failure 404 "Trip not found")).
Proof.
  apply (deleteTrip_removes_own_trip_only oneActiveTrip startedAt100 8);
    [exact oneActiveTrip_reachable | exact startedAt100_stored].
Defined.

Lemma other_users_trips_untouched_witness :
  userId startedAt100 <> 8%nat /\
  (startedAt100 ∈
     trips (handle (CreateTrip 2000 noUpstream 8 (commute (JsNum 40)))
                   oneActiveTrip).1 <->
   startedAt100 ∈ trips oneActiveTrip).
Proof.
  split; [discriminate|].
  apply (other_users_trips_untouched
           (CreateTrip 2000 noUpstream 8 (commute (JsNum 40))) oneActiveTrip
           startedAt100);
    [exact oneActiveTrip_reachable | discriminate].
Defined.

Lemma getters_characterised_witness :
  (getActiveTrip 7 oneActiveTrip = Success 200 (Some startedAt100) <->
   startedAt100 ∈ trips oneActiveTrip /\ userId startedAt100 = 7%nat /\
   status startedAt100 = active) /\
  (getTrip 7 0 oneActiveTrip = Success 200 (Some startedAt100) <->
   startedAt100 ∈ trips oneActiveTrip /\ _id startedAt100 = 0%nat /\
   userId startedAt100 = 7%nat).
Proof.
  apply (getters_characterised oneActiveTrip 7 0 startedAt100).
  exact oneActiveTrip_reachable.
Defined.

Lemma endTrip_then_no_active_trip_witness :
  findActiveTrip 7
    (trips (endTrip 5000 noUpstream 7 0 (clientEnd 500) oneActiveTrip).1) = None /\
  getActiveTrip 7 (endTrip 5000 noUpstream 7 0 (clientEnd 500) oneActiveTrip).1 =
    Failure 404 "No active trip found" /\
  (forall now2 upstream2 body2,
     endTrip now2 upstream2 7 0 body2
       (endTrip 5000 noUpstream 7 0 (clientEnd 500) oneActiveTrip).1 =
     ((endTrip 5000 noUpstream 7 0 (clientEnd 500) oneActiveTrip).1,
      Failure 404 "Active trip not found")).
Proof.
  apply (endTrip_then_no_active_trip 5000 noUpstream 7 0 (clientEnd 500)
           oneActiveTrip 200 endedAt100);
    [exact oneActiveTrip_reachable | reflexivity].
Defined.

Lemma updateTrip_without_fields_changes_nothing_witness :
  status startedAt100 = active /\
  updateTrip (userId startedAt100) (_id startedAt100)
    {| update_route := None; update_startLocation := JsUndefined;
       update_endLocation := JsUndefined |} oneActiveTrip =
  (oneActiveTrip, Success 200 (Some startedAt100)).
Proof.
  split; [reflexivity|].
  apply (updateTrip_without_fields_changes_nothing oneActiveTrip startedAt100);
    [exact oneActiveTrip_reachable | exact startedAt100_stored | reflexivity].
Defined.

Lemma updateTrip_effect_on_success_witness :
  (updateTrip 7 0 renameStart oneActiveTrip).2 =
    Success 200 (Some (set_startLocation (Some "Home") startedAt100)) /\
  userData (updateTrip 7 0 renameStart oneActiveTrip).1 =
    userData oneActiveTrip /\
  cache (updateTrip 7 0 renameStart oneActiveTrip).1 = cache oneActiveTrip /\
  status (set_startLocation (Some "Home") startedAt100) = active /\
  exists trip, findOwned 0 7 (trips oneActiveTrip) = Some trip /\
    match update_route renameStart with
    | Some r => castRoute r =
                Some (route (set_startLocation (Some "Home") startedAt100))
    | None => route (set_startLocation (Some "Home") startedAt100) = route trip
    end /\
    distance (set_startLocation (Some "Home") startedAt100) =
    totalDistance (route (set_startLocation (Some "Home") startedAt100)).
Proof.
  split; [reflexivity|].
  apply (updateTrip_effect_on_success 7 0 renameStart oneActiveTrip 200
           (set_startLocation (Some "Home") startedAt100)).
  reflexivity.
Defined.

Lemma roundDistance_monotone_witness :
  ((24 # 10) <= (251 # 100))%Q /\
  (roundDistance (Num (24 # 10)) <= roundDistance (Num (251 # 100)))%Z.
Proof.
  split; [vm_compute; discriminate|].
  apply (roundDistance_monotone (24 # 10) (251 # 100)).
  vm_compute. discriminate.
Defined.

Lemma extractName_preference_witness :
  ReverseGeocode.fields =
    ["suburb"; "neighbourhood"; "quarter"; "hamlet"] ++
    "village" :: ["town"; "city"; "municipality"; "state_district"; "state";
                  "country"] /\
  ReverseGeocode.extractName
    (Some {| ReverseGeocode.address := Some hampiAddress;
             ReverseGeocode.display_name := Some "Hampi, Karnataka" |}) =
    Some "Hampi".
Proof.
  split; [reflexivity|].
  apply (extractName_preference hampiAddress (Some "Hampi, Karnataka")
           ["suburb"; "neighbourhood"; "quarter"; "hamlet"]
           ["town"; "city"; "municipality"; "state_district"; "state";
            "country"] "village" "Hampi").
  - reflexivity.
  - intros g Hg. left.
    repeat (apply elem_of_cons in Hg as [->|Hg]; [reflexivity|]).
    by apply elem_of_nil in Hg.
  - reflexivity.
  - discriminate.
Defined.

Lemma legacy_endTrip_keeps_store_but_not_ledger_witness :
  worldInv (Legacy.endTrip 5000 7 0 (clientEnd 500) oneActiveTrip).1 /\
  userData (Legacy.endTrip 5000 7 0 (clientEnd 500) oneActiveTrip).1 =
    userData oneActiveTrip /\
  cache (Legacy.endTrip 5000 7 0 (clientEnd 500) oneActiveTrip).1 =
    cache oneActiveTrip /\
  (forall c t',
     (Legacy.endTrip 5000 7 0 (clientEnd 500) oneActiveTrip).2 =
       Success c (Some t') ->
     status t' = completed /\
     t' ∈ trips (Legacy.endTrip 5000 7 0 (clientEnd 500) oneActiveTrip).1 /\
     exists e, Number (end_endOdometer (clientEnd 500)) = Num e /\
               endOdometer t' = Some e /\ (startOdometer t' <= e)%Q).
Proof.
  apply (legacy_endTrip_keeps_store_but_not_ledger 5000 7 0 (clientEnd 500)
           oneActiveTrip).
  exact oneActiveTrip_reachable.
Defined.
End MoreExamples.

Section LawfulExamples.
#[local] Existing Instance lawfulRuntime.

Lemma lawful_haversine_nonneg (p q : TripPoint) :
  (0 <= calculateHaversineDistance p q)%Q.
Proof.
  unfold calculateHaversineDistance.
  cbn [Math_sqrt Math_atan2 lawfulRuntime].
  match goal with |- (0 <= 6371 * (2 * (Qabs ?a / (1 + Qabs ?b))))%Q =>
    pose proof (Qabs_nonneg a) as Ha; pose proof (Qabs_nonneg b) as Hb;
    assert (0 <= Qabs a / (1 + Qabs b))%Q as Hdiv
  end.
  { apply Qle_shift_div_l; lra. }
  lra.
Qed.

(** The two fixes are a leg of positive length, the same in both
    directions. *)
Lemma haversine_symmetric_and_zero_witness :
  (0 < calculateHaversineDistance bengaluru mysuru)%Q /\
  (calculateHaversineDistance bengaluru mysuru ==
   calculateHaversineDistance mysuru bengaluru)%Q /\
  (calculateHaversineDistance bengaluru bengaluru == 0)%Q.
Proof.
  split; [vm_compute; reflexivity|].
  apply (haversine_symmetric_and_zero bengaluru mysuru); simpl.
  - intros x y Hxy. exact Hxy.
  - intros x. reflexivity.
  - intros x y Hxy. by rewrite Hxy.
  - intros y1 y2 x1 x2 Hy Hx. by rewrite Hy, Hx.
  - reflexivity.
  - reflexivity.
Defined.

(** Ending the trip of [twoFixesAppended], whose distance rounds to 1:
    the ledger goes from 101 to 102 and the pointer is cleared. *)
Lemma endTrip_ledger_witness :
  (endTrip 5000 noUpstream 7 0 (clientEnd 500) twoFixesAppended).2 =
    Success 200 (Some twoFixEnded) /\
  roundDistance (Num (distance twoFixEnded)) = 1%Z /\
  userData twoFixesAppended !! 7%nat =
    Some {| currentOdometer := 101; activeTrip := Some 0%nat |} /\
  userData (endTrip 5000 noUpstream 7 0 (clientEnd 500) twoFixesAppended).1
    !! 7%nat = Some {| currentOdometer := 102; activeTrip := None |} /\
  (exists u,
     userData (endTrip 5000 noUpstream 7 0 (clientEnd 500) twoFixesAppended).1
       !! 7%nat = Some u /\
     activeTrip u = None /\
     (currentOdometer u ==
      previousOdometer 7 twoFixesAppended +
      inject_Z (roundDistance (Num (distance twoFixEnded))))%Q) /\
  (forall uid', uid' <> 7%nat ->
     userData (endTrip 5000 noUpstream 7 0 (clientEnd 500) twoFixesAppended).1
       !! uid' = userData twoFixesAppended !! uid').
Proof.
  split; [vm_compute; reflexivity|]. split; [vm_compute; reflexivity|].
  split; [vm_compute; reflexivity|]. split; [vm_compute; reflexivity|].
  apply (endTrip_ledger 5000 noUpstream 7 0 (clientEnd 500) twoFixesAppended
                        200 twoFixEnded);
    [exact twoFixesAppended_reachable | vm_compute; reflexivity].
Defined.

(** The batch of two fixes on a ledger that stands at 80 and points at no
    trip: both writes show, the pointer is repaired and the odometer is set
    to 100 + 1. *)
Lemma append_ledger_witness :
  (handle twoFixBatch ledgerBehind).2 = Success 200 (Some twoFixTrip) /\
  userData ledgerBehind !! 7%nat =
    Some {| currentOdometer := 80; activeTrip := None |} /\
  userData (handle twoFixBatch ledgerBehind).1 !! 7%nat =
    Some {| currentOdometer := 101; activeTrip := Some 0%nat |} /\
  userData (handle twoFixBatch ledgerBehind).1 !! 7%nat =
    (fun _ => {| currentOdometer :=
                   (startOdometer twoFixTrip +
                    inject_Z (roundDistance (Num (distance twoFixTrip))))%Q;
                 activeTrip := Some (_id twoFixTrip) |})
      <$> userData ledgerBehind !! 7%nat /\
  (forall uid', uid' <> 7%nat ->
     userData (handle twoFixBatch ledgerBehind).1 !! uid' =
     userData ledgerBehind !! uid').
Proof.
  split; [vm_compute; reflexivity|]. split; [reflexivity|].
  split; [vm_compute; reflexivity|].
  apply (append_ledger twoFixBatch 7 (bodyOf bengaluru)
           (Some [bodyOf bengaluru; bodyOf mysuru]) ledgerBehind 200
           twoFixTrip);
    [right; reflexivity | vm_compute; reflexivity].
Defined.

(** The batch of two fixes, then End, from a ledger at 100: the trip ends
    at odometer 101 and the ledger at 102. *)
Lemma append_then_end_counts_distance_twice_witness :
  userData oneActiveTrip !! 7%nat =
    Some {| currentOdometer := 100; activeTrip := Some 0%nat |} /\
  roundDistance (Num (distance twoFixTrip)) = 1%Z /\
  userData
    (endTrip 5000 noUpstream 7 0 (clientEnd 500)
       (handle twoFixBatch oneActiveTrip).1).1 !! 7%nat =
    Some {| currentOdometer := 102; activeTrip := None |} /\
  endOdometer twoFixEnded = Some 101%Q /\
  userData
    (endTrip 5000 noUpstream 7 0 (clientEnd 500)
       (handle twoFixBatch oneActiveTrip).1).1 !! 7%nat =
    Some {| currentOdometer :=
              (startOdometer twoFixTrip +
               inject_Z (roundDistance (Num (distance twoFixTrip))) +
               inject_Z (roundDistance (Num (distance twoFixTrip))))%Q;
            activeTrip := None |} /\
  endOdometer twoFixEnded =
    Some (Math_max
            (startOdometer twoFixTrip +
             inject_Z (roundDistance (Num (distance twoFixTrip))))
            (startOdometer twoFixTrip)).
Proof.
  split; [reflexivity|]. split; [vm_compute; reflexivity|].
  split; [vm_compute; reflexivity|]. split; [vm_compute; reflexivity|].
  apply (append_then_end_counts_distance_twice
           twoFixBatch 7 (bodyOf bengaluru)
           (Some [bodyOf bengaluru; bodyOf mysuru]) oneActiveTrip 200
           twoFixTrip 5000 noUpstream 0 (clientEnd 500) 200 twoFixEnded
           {| currentOdometer := 100; activeTrip := Some 0%nat |});
    [exact lawful_oneActiveTrip_reachable | right; reflexivity | reflexivity
    | vm_compute; reflexivity | vm_compute; reflexivity].
Defined.

Lemma twoFixEnded_stored : twoFixEnded ∈ trips twoFixesEnded.
Proof.
  assert (trips twoFixesEnded = [twoFixEnded]) as ->
    by (vm_compute; reflexivity).
  apply list_elem_of_here.
Qed.

(** The ended trip of [twoFixesEnded]: readings 100 and 101, an
    [odometerDistance] of 1. *)
Lemma odometer_readings_consistent_witness :
  status twoFixEnded = completed /\
  startOdometer twoFixEnded = 100%Q /\
  endOdometer twoFixEnded = Some 101%Q /\
  (odometerDistance twoFixEnded == 1)%Q /\
  (0 <= startOdometer twoFixEnded)%Q /\
  (0 <= odometerDistance twoFixEnded)%Q /\
  (status twoFixEnded = active ->
   endOdometer twoFixEnded = None /\ odometerDistance twoFixEnded = 0%Q) /\
  (status twoFixEnded = completed ->
   exists e, endOdometer twoFixEnded = Some e /\
     (startOdometer twoFixEnded <= e)%Q /\
     (odometerDistance twoFixEnded <= e)%Q /\
     ((odometerDistance twoFixEnded == 0)%Q <->
      (e == startOdometer twoFixEnded)%Q)).
Proof.
  split; [reflexivity|]. split; [reflexivity|].
  split; [vm_compute; reflexivity|]. split; [vm_compute; reflexivity|].
  apply (odometer_readings_consistent twoFixesEnded twoFixEnded);
    [exact (reachable_either _ twoFixesEnded_reachable)
    | exact twoFixEnded_stored].
Defined.

(** The same trip ended by the End of routes/trips.js with the client's
    reading 500: an [odometerDistance] of 400. *)
Lemma odometer_readings_legacy_example :
  exists t,
    (Legacy.endTrip 5000 7 0 (clientEnd 500) twoFixesAppended).2 =
      Success 200 (Some t) /\
    endOdometer t = Some 500%Q /\ (odometerDistance t == 400)%Q.
Proof. eexists. repeat split; vm_compute; reflexivity. Qed.

Lemma lawful_oneFixAppended_reachable : reachable oneFixAppended.
Proof.
  exact (reachable_handle
           (AddRoutePoint 7 (fixAt (1297 # 100) (7759 # 100) 5))
           oneActiveTrip lawful_oneActiveTrip_reachable).
Qed.

(** A second fix appended to a route of one fix: the distance goes from 0
    to a positive number and the rounded distance from 0 to 1. *)
Lemma append_never_lowers_distance_witness :
  findActiveTrip 7 (trips oneFixAppended) = Some oneFixTrip /\
  (handle (AddRoutePoint 7 (bodyOf mysuru)) oneFixAppended).2 =
    Success 200 (Some twoFixTrip) /\
  distance oneFixTrip = 0%Q /\ (0 < distance twoFixTrip)%Q /\
  roundDistance (Num (distance oneFixTrip)) = 0%Z /\
  roundDistance (Num (distance twoFixTrip)) = 1%Z /\
  (distance oneFixTrip <= distance twoFixTrip)%Q /\
  (roundDistance (Num (distance oneFixTrip)) <=
   roundDistance (Num (distance twoFixTrip)))%Z /\
  startOdometer twoFixTrip = startOdometer oneFixTrip.
Proof.
  split; [reflexivity|]. split; [vm_compute; reflexivity|].
  split; [reflexivity|]. split; [vm_compute; reflexivity|].
  split; [reflexivity|]. split; [vm_compute; reflexivity|].
  apply (append_never_lowers_distance
           (AddRoutePoint 7 (bodyOf mysuru)) 7 (bodyOf mysuru) None
           oneFixAppended oneFixTrip 200 twoFixTrip);
    [exact lawful_haversine_nonneg | exact lawful_oneFixAppended_reachable
    | left; reflexivity | reflexivity | vm_compute; reflexivity].
Defined.
End LawfulExamples.

(** ** One batch and the same fixes sent one at a time *)

Section BulkAppend.
Context `{JsRuntime}.

Lemma calculateMetrics_set_route_twice (r1 r2 : list TripPoint) (t : Trip) :
  calculateMetrics (set_route r2 (calculateMetrics (set_route r1 t))) =
  calculateMetrics (set_route r2 t).
Proof.
  unfold calculateMetrics. simpl.
  destruct (endTime t) eqn:He; simpl; rewrite ?He; reflexivity.
Qed.

Lemma replaceById_twice (t1 t2 : Trip) (ts : list Trip) :
  _id t1 = _id t2 -> replaceById t2 (replaceById t1 ts) = replaceById t2 ts.
Proof.
  intros Hid. unfold replaceById. rewrite map_map. apply map_ext. intros x.
  rewrite <- Hid. destruct (_id x =? _id t1)%nat eqn:E; [|by rewrite E].
  by rewrite Nat.eqb_refl.
Qed.

Lemma findActiveTrip_replaceById uid (trip t1 : Trip) (ts : list Trip) :
  findActiveTrip uid ts = Some trip -> _id t1 = _id trip ->
  isActiveOf uid t1 = true ->
  findActiveTrip uid (replaceById t1 ts) = Some t1.
Proof.
  unfold findActiveTrip, replaceById. intros Hf Hid Ha.
  induction ts as [|x ts IH]; simpl in *; [done|].
  destruct (_id x =? _id t1)%nat eqn:E; [by rewrite Ha|].
  destruct (isActiveOf uid x) eqn:Hx; [|by apply IH].
  injection Hf as ->. by rewrite Hid, Nat.eqb_refl in E.
Qed.

(** The two ledger writes of an append, done twice, leave what the second
    pair alone leaves. *)
Lemma ledger_after_two_appends uid id (v1 v2 : Q) (ud : gmap nat UserData) :
  setLiveOdometer uid v2
    (syncActiveTrip uid id (setLiveOdometer uid v1 (syncActiveTrip uid id ud))) =
  setLiveOdometer uid v2 (syncActiveTrip uid id ud).
Proof.
  unfold setLiveOdometer, syncActiveTrip.
  destruct (ud !! uid) as [u|] eqn:Hu; [|by rewrite !Hu].
  case_bool_decide as Ha.
  - rewrite Hu, lookup_insert_eq. simpl. rewrite Ha.
    rewrite bool_decide_eq_true_2 by done.
    by rewrite lookup_insert_eq, insert_insert_eq.
  - rewrite !lookup_insert_eq. simpl.
    rewrite bool_decide_eq_true_2 by done.
    by rewrite lookup_insert_eq, !insert_insert_eq.
Qed.

(** A fix sent alone after the fixes [qs] were stored gives the state that
    storing [qs ++ [p]] at once gives. *)
Lemma addRoutePoint_after_pushAndSave uid (trip : Trip) (qs : list TripPoint)
    (p : TripPoint) f1 f2 (w : World) :
  findActiveTrip uid (trips w) = Some trip -> validate trip = true ->
  forallb validPoint qs = true -> validPoint p = true ->
  ~ (latitude p == 0)%Q -> ~ (longitude p == 0)%Q ->
  ~ (accuracy p == 0)%Q -> ~ (timestamp p == 0)%Q ->
  (addRoutePoint uid (bodyOf p) (pushAndSave uid trip qs f1 w).1).1 =
  (pushAndSave uid trip (qs ++ [p]) f2 w).1.
Proof.
  intros Hf Hv Hqs Hp Hla Hlo Hac Hts.
  destruct p as [la lo ts ac]. cbn [latitude longitude accuracy timestamp] in *.
  set (p := {| latitude := la; longitude := lo; timestamp := ts;
               accuracy := ac |}) in *.
  assert (forall q, ~ (q == 0)%Q -> Qeq_bool q 0 = false) as Hnz.
  { intros q Hq. destruct (Qeq_bool q 0) eqn:E; [|done].
    by apply Qeq_bool_iff in E. }
  pose proof (findActiveTrip_Some _ _ _ Hf) as (Hin & Hu & Hst).
  assert (validate (set_route (route trip ++ qs) trip) = true) as Hv1.
  { apply validate_set_route; [done|].
    by rewrite forallb_app, (validate_route _ Hv), Hqs. }
  assert (validate (set_route (route trip ++ qs ++ [p]) trip) = true) as Hv2.
  { apply validate_set_route; [done|].
    rewrite !forallb_app, (validate_route _ Hv), Hqs. simpl. by rewrite Hp. }
  set (t1 := calculateMetrics (set_route (route trip ++ qs) trip)).
  assert (_id t1 = _id trip /\ userId t1 = userId trip /\
          status t1 = status trip /\ route t1 = route trip ++ qs)
    as (Hid1 & Hu1 & Hs1 & Hr1).
  { subst t1.
    destruct (calculateMetrics_fields (set_route (route trip ++ qs) trip))
      as (-> & -> & -> & -> & _). done. }
  assert (isActiveOf uid t1 = true) as Ha1.
  { unfold isActiveOf. rewrite Hu1, Hs1, Hu, Hst, Nat.eqb_refl. done. }
  assert ((pushAndSave uid trip qs f1 w).1 =
          {| trips := replaceById t1 (trips w);
             userData :=
               setLiveOdometer uid
                 (startOdometer t1 +
                  inject_Z (roundDistance (Num (orZero (Num (distance t1))))))%Q
                 (syncActiveTrip uid (_id trip) (userData w));
             cache := cache w; nextId := nextId w |}) as ->.
  { unfold pushAndSave, save. by rewrite Hv1. }
  unfold addRoutePoint, bodyOf. subst p.
  cbn [Raw.latitude Raw.longitude Raw.accuracy Raw.timestamp
       latitude longitude accuracy timestamp truthy Number trips].
  set (p := {| latitude := la; longitude := lo; timestamp := ts;
               accuracy := ac |}) in *.
  rewrite (Hnz _ Hla), (Hnz _ Hlo), (Hnz _ Hac), (Hnz _ Hts). cbn [negb orb].
  rewrite (findActiveTrip_replaceById uid trip t1 _ Hf Hid1 Ha1).
  unfold pushAndSave, save. cbn [trips userData cache nextId withUserData].
  assert (set_route (route t1 ++ [p]) t1 =
          set_route (route trip ++ qs ++ [p])
            (calculateMetrics (set_route (route trip ++ qs) trip))) as Hset.
  { rewrite Hr1, <- app_assoc. done. }
  rewrite Hset, validate_set_route; cycle 1.
  { by rewrite validate_calculateMetrics. }
  { rewrite !forallb_app, (validate_route _ Hv), Hqs. simpl. by rewrite Hp. }
  rewrite Hv2, calculateMetrics_set_route_twice. cbn [fst].
  set (t2 := calculateMetrics (set_route (route trip ++ qs ++ [p]) trip)).
  assert (_id t1 = _id t2) as Hid12.
  { subst t2. rewrite Hid1.
    by destruct (calculateMetrics_fields
                   (set_route (route trip ++ qs ++ [p]) trip)) as (-> & _). }
  rewrite (replaceById_twice t1 t2 _ Hid12), Hid1,
    ledger_after_two_appends. done.
Qed.

Lemma sanitize_bodyOf (ps : list TripPoint) : sanitize (bodyOf <$> ps) = ps.
Proof.
  unfold sanitize. induction ps as [|[la lo ts ac] ps IH]; [done|].
  csimpl. by rewrite IH.
Qed.

(** X24. A batch and the same fixes sent one request at a time leave the
    same state.  When every fix is one the single handler accepts (its four
    fields are not 0, and it passes the schema), sending the fixes [ps] in
    one [addRoutePoint] request each leaves the trips, the ledger and the
    cache exactly as one [addRoutePointsBulk] request with all of them
    does; that request succeeds and its trip has the fixes at the end of
    the route, in order. *)
Theorem bulk_append_is_repeated_append uid (w : World) (trip : Trip)
    (ps : list TripPoint) :
  reachable w -> findActiveTrip uid (trips w) = Some trip ->
  ps <> [] ->
  Forall (fun p => ~ (latitude p == 0)%Q /\ ~ (longitude p == 0)%Q /\
                   ~ (accuracy p == 0)%Q /\ ~ (timestamp p == 0)%Q /\
                   validPoint p = true) ps ->
  appendEach uid ps w = (addRoutePointsBulk uid (Some (bodyOf <$> ps)) w).1 /\
  exists t',
    (addRoutePointsBulk uid (Some (bodyOf <$> ps)) w).2 = Success 200 (Some t') /\
    route t' = route trip ++ ps.
Proof.
  intros Hw Hf Hne Hall.
  pose proof (findActiveTrip_Some _ _ _ Hf) as (Hin & _).
  assert (validate trip = true) as Hv.
  { apply reachable_inv in Hw. destruct Hw as (_ & _ & Hinv & _).
    rewrite Forall_forall in Hinv.
    by destruct (Hinv trip Hin) as (_ & _ & _ & Hv). }
  assert (forallb validPoint ps = true) as Hvalid.
  { apply forallb_forall. intros p Hp%list_elem_of_In.
    rewrite Forall_forall in Hall. by destruct (Hall p Hp) as (_ & _ & _ & _ & ?). }
  assert (addRoutePointsBulk uid (Some (bodyOf <$> ps)) w =
          pushAndSave uid trip ps "Server error while adding route points" w)
    as Hbulk.
  { unfold addRoutePointsBulk. rewrite Hf, sanitize_bodyOf.
    destruct ps as [|p ps']; [done|]. done. }
  split.
  - rewrite Hbulk. unfold appendEach. clear Hbulk Hvalid.
    induction ps as [|q qs IH] using rev_ind; [done|].
    apply Forall_app in Hall as [Hqs Hq].
    apply Forall_singleton in Hq as (Hla & Hlo & Hac & Hts & Hq).
    assert (forallb validPoint qs = true) as Hvalid.
    { apply forallb_forall. intros p Hp%list_elem_of_In.
      rewrite Forall_forall in Hqs. by destruct (Hqs p Hp) as (_ & _ & _ & _ & ?). }
    rewrite foldl_app. cbn [foldl].
    destruct qs as [|q0 qs'].
    + cbn [foldl]. unfold addRoutePoint, bodyOf.
      cbn [Raw.latitude Raw.longitude Raw.accuracy Raw.timestamp truthy Number].
      assert (forall x, ~ (x == 0)%Q -> Qeq_bool x 0 = false) as Hnz.
      { intros x Hx. destruct (Qeq_bool x 0) eqn:E; [|done].
        by apply Qeq_bool_iff in E. }
      rewrite (Hnz _ Hla), (Hnz _ Hlo), (Hnz _ Hac), (Hnz _ Hts), Hf.
      cbn [negb orb]. destruct q. unfold pushAndSave. cbn.
      by destruct (save _ _) as [[? ?]|].
    + rewrite IH by done.
      by apply (addRoutePoint_after_pushAndSave uid trip (q0 :: qs') q).
  - rewrite Hbulk.
    destruct (pushAndSave_appends uid trip ps
                "Server error while adding route points" w Hw Hin Hvalid)
      as (t' & Hr & Hroute & _).
    by exists t'.
Qed.
End BulkAppend.

(** ** The text of a cache key *)

Lemma allChars_app P s1 s2 :
  allChars P (s1 +:+ s2) = allChars P s1 && allChars P s2.
Proof. induction s1 as [|c s1 IH]; simpl; [done|]. by rewrite IH, andb_assoc. Qed.

Lemma allChars_impl (P Q : ascii -> bool) s :
  (forall c, P c = true -> Q c = true) -> allChars P s = true -> allChars Q s = true.
Proof.
  intros HPQ. induction s as [|c s IH]; simpl; [done|].
  intros [Hc Hs]%andb_true_iff. by rewrite (HPQ c Hc), IH.
Qed.

(** Two strings that agree after prefixes free of the separator [c] agree
    on the prefixes and on what follows the separator. *)
Lemma split_at_separator P c s1 s2 r1 r2 :
  P c = false -> allChars P s1 = true -> allChars P s2 = true ->
  s1 +:+ String c r1 = s2 +:+ String c r2 -> s1 = s2 /\ r1 = r2.
Proof.
  intros Hc. revert s2. induction s1 as [|a s1 IH]; intros [|b s2]; simpl.
  - intros _ _ [= ->]. done.
  - intros _ [Hb _]%andb_true_iff [= <- _]. congruence.
  - intros [Ha _]%andb_true_iff _ [= -> _]. congruence.
  - intros [_ H1]%andb_true_iff [_ H2]%andb_true_iff [= -> Heq].
    destruct (IH s2 H1 H2 Heq) as [-> ->]. done.
Qed.

Lemma pretty_N_char_digit x : isDigit (pretty_N_char x) = true.
Proof. unfold pretty_N_char. by repeat case_match. Qed.

Lemma pretty_N_go_digits x s :
  allChars isDigit s = true -> allChars isDigit (pretty_N_go x s) = true.
Proof.
  revert s. induction (N.lt_wf_0 x) as [x _ IH]; intros s Hs.
  assert (x = 0 \/ 0 < x)%N as [->|Hx] by lia; [by rewrite pretty_N_go_0|].
  rewrite pretty_N_go_step by done. apply IH; [by apply N.div_lt|].
  simpl. by rewrite pretty_N_char_digit.
Qed.

Lemma pretty_N_digits (x : N) : allChars isDigit (pretty x) = true.
Proof.
  unfold pretty, pretty_N. case_decide; [done|]. by apply pretty_N_go_digits.
Qed.

Lemma pretty_N_go_nonempty x s : s <> "" -> pretty_N_go x s <> "".
Proof.
  revert s. induction (N.lt_wf_0 x) as [x _ IH]; intros s Hs.
  assert (x = 0 \/ 0 < x)%N as [->|Hx] by lia; [by rewrite pretty_N_go_0|].
  rewrite pretty_N_go_step by done. apply IH; [by apply N.div_lt|done].
Qed.

Lemma pretty_N_head (x : N) :
  exists c s, pretty x = String c s /\ isDigit c = true.
Proof.
  pose proof (pretty_N_digits x) as Hd.
  destruct (pretty x) as [|c s] eqn:E.
  - exfalso. unfold pretty, pretty_N in E. case_decide; [done|].
    assert (0 < x)%N as Hx by lia.
    rewrite pretty_N_go_step in E by done.
    by eapply pretty_N_go_nonempty in E.
  - simpl in Hd. apply andb_true_iff in Hd as [Hc _]. by exists c, s.
Qed.

(** The six digits of a number from 100000 to 199999. *)
Lemma pretty_six_digits (k : N) :
  (k < 100000)%N ->
  pretty (100000 + k)%N =
    String "1" (String (pretty_N_char (k / 10000 mod 10))
      (String (pretty_N_char (k / 1000 mod 10))
        (String (pretty_N_char (k / 100 mod 10))
          (String (pretty_N_char (k / 10 mod 10))
            (String (pretty_N_char (k mod 10)) ""))))).
Proof.
  intros Hk. unfold pretty, pretty_N. case_decide; [lia|].
  set (x := (100000 + k)%N).
  assert (x / 10 / 10 / 10 / 10 / 10 = 1)%N as H5.
  { rewrite !N.Div0.div_div. change (10 * _)%N with 100000%N.
    symmetry. apply N.div_unique with (r := k); [done|]. subst x. lia. }
  rewrite (pretty_N_go_step x) by (subst x; lia).
  rewrite (pretty_N_go_step (x / 10)).
  2: { apply N.div_str_pos. subst x. lia. }
  rewrite (pretty_N_go_step (x / 10 / 10)).
  2: { rewrite N.Div0.div_div. apply N.div_str_pos. subst x. lia. }
  rewrite (pretty_N_go_step (x / 10 / 10 / 10)).
  2: { rewrite !N.Div0.div_div. apply N.div_str_pos. subst x. lia. }
  rewrite (pretty_N_go_step (x / 10 / 10 / 10 / 10)).
  2: { rewrite !N.Div0.div_div. apply N.div_str_pos. subst x. lia. }
  rewrite (pretty_N_go_step (x / 10 / 10 / 10 / 10 / 10)) by (rewrite H5; lia).
  rewrite H5. change (1 / 10)%N with 0%N. rewrite pretty_N_go_0.
  change (pretty_N_char (1 mod 10)) with "1"%char.
  rewrite !N.Div0.div_div. simpl (10 * _)%N.
  assert (forall d, (d = 1 \/ d = 10 \/ d = 100 \/ d = 1000 \/ d = 10000)%N ->
            (x / d mod 10 = k / d mod 10)%N) as Hd.
  { intros d Hdv. subst x.
    destruct Hdv as [->|[->|[->|[->| ->]]]].
    - replace (100000 + k)%N with (k + 100000 * 1)%N by lia.
      rewrite N.div_add by lia.
      change 100000%N with (10000 * 10)%N. by rewrite N.Div0.mod_add.
    - replace (100000 + k)%N with (k + 10000 * 10)%N by lia.
      rewrite N.div_add by lia.
      change 10000%N with (1000 * 10)%N. by rewrite N.Div0.mod_add.
    - replace (100000 + k)%N with (k + 1000 * 100)%N by lia.
      rewrite N.div_add by lia.
      change 1000%N with (100 * 10)%N. by rewrite N.Div0.mod_add.
    - replace (100000 + k)%N with (k + 100 * 1000)%N by lia.
      rewrite N.div_add by lia.
      change 100%N with (10 * 10)%N. by rewrite N.Div0.mod_add.
    - replace (100000 + k)%N with (k + 10 * 10000)%N by lia.
      rewrite N.div_add by lia.
      change (k / 10000 + 10)%N with (k / 10000 + 1 * 10)%N.
      by rewrite N.Div0.mod_add. }
  rewrite <- (N.div_1_r x) at 5.
  rewrite !Hd by auto 10. by rewrite N.div_1_r.
Qed.

Lemma fractionDigits_digits (k : Z) : allChars isDigit (ReverseGeocode.fractionDigits k) = true.
Proof.
  unfold ReverseGeocode.fractionDigits.
  pose proof (pretty_N_digits (Z.to_N (100000 + k))) as Hd.
  destruct (pretty (Z.to_N (100000 + k))) as [|c s]; [done|].
  simpl in Hd. by apply andb_true_iff in Hd as [_ Hs].
Qed.

Lemma fractionDigits_inj (k1 k2 : Z) :
  (0 <= k1 < 100000)%Z -> (0 <= k2 < 100000)%Z ->
  ReverseGeocode.fractionDigits k1 = ReverseGeocode.fractionDigits k2 -> k1 = k2.
Proof.
  intros H1 H2. unfold ReverseGeocode.fractionDigits.
  replace (Z.to_N (100000 + k1)) with (100000 + Z.to_N k1)%N by lia.
  replace (Z.to_N (100000 + k2)) with (100000 + Z.to_N k2)%N by lia.
  rewrite !pretty_six_digits by lia.
  intros Heq. apply (f_equal (String "1")) in Heq.
  rewrite <- !pretty_six_digits in Heq by lia.
  apply (inj pretty) in Heq. lia.
Qed.

Lemma isDigit_notComma c : isDigit c = true -> notComma c = true.
Proof.
  unfold isDigit, notComma. intros [H1 H2]%andb_true_iff.
  destruct (Ascii.eqb_spec c ","); [|done]. subst. done.
Qed.

Lemma toFixed5_notComma (x : Q) : allChars notComma (ReverseGeocode.toFixed5 x) = true.
Proof.
  unfold ReverseGeocode.toFixed5. rewrite !allChars_app.
  rewrite (allChars_impl isDigit notComma _ isDigit_notComma (pretty_N_digits _)).
  rewrite (allChars_impl isDigit notComma _ isDigit_notComma (fractionDigits_digits _)).
  by destruct (Qlt_le_dec x 0).
Qed.

Lemma fixed5_nonneg (x : Q) : (0 <= fixed5 x)%Z.
Proof.
  unfold fixed5. change 0%Z with (Qfloor 0). apply Qfloor_resp_le.
  pose proof (Qabs_nonneg x). lra.
Qed.

Lemma toFixed5_inj (x y : Q) :
  ReverseGeocode.toFixed5 x = ReverseGeocode.toFixed5 y ->
  (x < 0 <-> y < 0)%Q /\ fixed5 x = fixed5 y.
Proof.
  unfold ReverseGeocode.toFixed5. fold (fixed5 x) (fixed5 y).
  pose proof (fixed5_nonneg x) as Hx. pose proof (fixed5_nonneg y) as Hy.
  assert (forall n m : Z, (0 <= n)%Z -> (0 <= m)%Z ->
            pretty (Z.to_N (n / 100000)) +:+ "." +:+ ReverseGeocode.fractionDigits (n mod 100000) =
            pretty (Z.to_N (m / 100000)) +:+ "." +:+ ReverseGeocode.fractionDigits (m mod 100000) ->
            n = m) as Hnum.
  { intros n m Hn Hm Heq.
    apply (split_at_separator isDigit) in Heq as [HI HF];
      [|done|apply pretty_N_digits..].
    apply (inj pretty) in HI.
    apply fractionDigits_inj in HF; [|apply Z.mod_pos_bound; lia..].
    assert (n / 100000 = m / 100000)%Z as HI'.
    { pose proof (Z.div_pos n 100000 Hn). pose proof (Z.div_pos m 100000 Hm). lia. }
    rewrite (Z.div_mod n 100000), (Z.div_mod m 100000) by lia. congruence. }
  assert (forall n s r, String "-" s <> pretty (Z.to_N n) +:+ r) as Hdash.
  { intros n s r Heq. destruct (pretty_N_head (Z.to_N n)) as (c & s' & Hp & Hc).
    rewrite Hp in Heq. simpl in Heq. injection Heq as <- _. done. }
  destruct (Qlt_le_dec x 0) as [Hsx|Hsx], (Qlt_le_dec y 0) as [Hsy|Hsy];
    simpl; intros Heq.
  - injection Heq as Heq. split; [done|]. by apply Hnum.
  - by apply Hdash in Heq.
  - symmetry in Heq. by apply Hdash in Heq.
  - split; [|by apply Hnum]. split; intros; lra.
Qed.

Lemma fixed5_close (x y : Q) :
  (x < 0 <-> y < 0)%Q -> fixed5 x = fixed5 y -> (Qabs (x - y) < 1 # 100000)%Q.
Proof.
  unfold fixed5. intros Hs Hn.
  pose proof (Qfloor_le (Qabs x * 100000 + (1 # 2))) as Hx1.
  pose proof (Qlt_floor (Qabs x * 100000 + (1 # 2))) as Hx2.
  pose proof (Qfloor_le (Qabs y * 100000 + (1 # 2))) as Hy1.
  pose proof (Qlt_floor (Qabs y * 100000 + (1 # 2))) as Hy2.
  rewrite Hn in Hx1, Hx2.
  set (n := inject_Z (Qfloor (Qabs y * 100000 + (1 # 2)))) in *.
  assert ((inject_Z (Qfloor (Qabs y * 100000 + (1 # 2)) + 1) == n + 1)%Q) as Hn1.
  { subst n. rewrite inject_Z_plus. reflexivity. }
  rewrite Hn1 in Hx2, Hy2. clearbody n. clear Hn Hn1.
  destruct (Qlt_le_dec x 0) as [Hx|Hx].
  - assert (y < 0)%Q as Hy by tauto.
    rewrite (Qabs_neg x) in Hx1, Hx2 by lra.
    rewrite (Qabs_neg y) in Hy1, Hy2 by lra.
    apply Qabs_Qlt_condition. lra.
  - assert (0 <= y)%Q as Hy.
    { destruct (Qlt_le_dec y 0) as [Hy|Hy]; [|done]. apply Hs in Hy. lra. }
    rewrite (Qabs_pos x) in Hx1, Hx2 by done.
    rewrite (Qabs_pos y) in Hy1, Hy2 by done.
    apply Qabs_Qlt_condition. lra.
Qed.

(** X25. Two coordinates share a cache key only when they print alike and
    lie close together: if [cacheKey] gives the same key for two pairs of
    coordinates, then the latitudes have the same [toFixed(5)] text and so
    have the longitudes, and both differ by less than 0.00001 degrees.  A
    name served from the cache was therefore stored for a place less than
    0.00001 degrees away in each coordinate. *)
Theorem cacheKey_shared_only_nearby (lat1 lon1 lat2 lon2 : Q) :
  ReverseGeocode.cacheKey lat1 lon1 = ReverseGeocode.cacheKey lat2 lon2 ->
  ReverseGeocode.toFixed5 lat1 = ReverseGeocode.toFixed5 lat2 /\ ReverseGeocode.toFixed5 lon1 = ReverseGeocode.toFixed5 lon2 /\
  (Qabs (lat1 - lat2) < 1 # 100000)%Q /\ (Qabs (lon1 - lon2) < 1 # 100000)%Q.
Proof.
  unfold ReverseGeocode.cacheKey. intros Heq.
  apply (split_at_separator notComma) in Heq as [Hlat Hlon];
    [|done|apply toFixed5_notComma..].
  pose proof (toFixed5_inj _ _ Hlat) as [? ?].
  pose proof (toFixed5_inj _ _ Hlon) as [? ?].
  auto using fixed5_close.
Qed.

(** ** Fields sent as strings *)

Section StringFields.
Context `{JsRuntime}.

(** X26. The two append handlers disagree on a fix whose fields are sent
    as strings.  When the four fields are non-empty strings that
    [Number] reads as numbers within the schema ranges, the single handler
    (which tests truthiness and converts with [Number]) appends the fix,
    also when a string reads as 0; the bulk handler (which tests
    [typeof ... === 'number']) drops the entry, and a batch of such entries
    only is refused with 400 'No valid points provided' and changes no
    trip. *)
Theorem string_fix_single_accepts_bulk_rejects uid (w : World) (trip : Trip)
    (sla slo sac sts : string) (la lo ac ts : Q) :
  reachable w -> findActiveTrip uid (trips w) = Some trip ->
  sla <> "" -> slo <> "" -> sac <> "" -> sts <> "" ->
  StringToNumber sla = Num la -> StringToNumber slo = Num lo ->
  StringToNumber sac = Num ac -> StringToNumber sts = Num ts ->
  validPoint {| latitude := la; longitude := lo; timestamp := ts;
                accuracy := ac |} = true ->
  let body := {| Raw.latitude := JsStr sla; Raw.longitude := JsStr slo;
                 Raw.accuracy := JsStr sac; Raw.timestamp := JsStr sts |} in
  (exists t',
     (addRoutePoint uid body w).2 = Success 200 (Some t') /\
     route t' = route trip ++ [ {| latitude := la; longitude := lo;
                                   timestamp := ts; accuracy := ac |} ]) /\
  forall n,
    (addRoutePointsBulk uid (Some (replicate (S n) body)) w).2 =
      Failure 400 "No valid points provided" /\
    trips (addRoutePointsBulk uid (Some (replicate (S n) body)) w).1 = trips w.
Proof.
  intros Hw Hf Hsla Hslo Hsac Hsts Hla Hlo Hac Hts Hp body.
  assert (forall s, s <> "" -> String.eqb s "" = false) as Hne.
  { intros s Hs. by apply String.eqb_neq. }
  pose proof (findActiveTrip_Some _ _ _ Hf) as (Hin & _).
  split.
  - unfold addRoutePoint, body.
    cbn [Raw.latitude Raw.longitude Raw.accuracy Raw.timestamp truthy Number].
    rewrite (Hne _ Hsla), (Hne _ Hslo), (Hne _ Hsac), (Hne _ Hsts), Hf.
    cbn [negb orb]. rewrite Hla, Hlo, Hac, Hts.
    destruct (pushAndSave_appends uid trip
                [ {| latitude := la; longitude := lo; timestamp := ts;
                     accuracy := ac |} ]
                "Server error while adding route point" w Hw Hin)
      as (t' & Hr & Hroute & _).
    { simpl. by rewrite Hp. }
    by exists t'.
  - intros n.
    assert (sanitize (replicate (S n) body) = []) as Hs.
    { unfold sanitize. induction (S n) as [|m IH]; [done|]. csimpl.
      by rewrite IH. }
    unfold addRoutePointsBulk. rewrite Hf, Hs. done.
Qed.
End StringFields.

Section CompositionExamples.
#[local] Existing Instance rationalRuntime.

Lemma bulk_append_is_repeated_append_witness :
  findActiveTrip 7 (trips oneActiveTrip) = Some startedAt100 /\
  appendEach 7 [bengaluru; mysuru] oneActiveTrip =
    (addRoutePointsBulk 7 (Some (bodyOf <$> [bengaluru; mysuru]))
                        oneActiveTrip).1 /\
  exists t',
    (addRoutePointsBulk 7 (Some (bodyOf <$> [bengaluru; mysuru]))
                        oneActiveTrip).2 = Success 200 (Some t') /\
    route t' = route startedAt100 ++ [bengaluru; mysuru].
Proof.
  split; [reflexivity|].
  apply (bulk_append_is_repeated_append 7 oneActiveTrip startedAt100
           [bengaluru; mysuru]);
    [exact oneActiveTrip_reachable | reflexivity | discriminate |].
  repeat constructor; discriminate.
Defined.

Lemma cacheKey_shared_only_nearby_witness :
  ReverseGeocode.cacheKey (12971601 # 1000000) (77594501 # 1000000) =
    ReverseGeocode.cacheKey (12971604 # 1000000) (77594499 # 1000000) /\
  ReverseGeocode.toFixed5 (12971601 # 1000000) =
    ReverseGeocode.toFixed5 (12971604 # 1000000) /\
  ReverseGeocode.toFixed5 (77594501 # 1000000) =
    ReverseGeocode.toFixed5 (77594499 # 1000000) /\
  (Qabs ((12971601 # 1000000) - (12971604 # 1000000)) < 1 # 100000)%Q /\
  (Qabs ((77594501 # 1000000) - (77594499 # 1000000)) < 1 # 100000)%Q.
Proof.
  split; [vm_compute; reflexivity|].
  apply (cacheKey_shared_only_nearby (12971601 # 1000000) (77594501 # 1000000)
           (12971604 # 1000000) (77594499 # 1000000)).
  vm_compute. reflexivity.
Defined.

End CompositionExamples.

Section StringFieldExamples.
#[local] Existing Instance lawfulRuntime.

Lemma string_fix_single_accepts_bulk_rejects_witness :
  findActiveTrip 7 (trips oneActiveTrip) = Some startedAt100 /\
  (exists t',
     (addRoutePoint 7 {| Raw.latitude := JsStr "12"; Raw.longitude := JsStr "0";
                         Raw.accuracy := JsStr "5";
                         Raw.timestamp := JsStr "1700" |}
                    oneActiveTrip).2 = Success 200 (Some t') /\
     route t' = route startedAt100 ++
                [ {| latitude := 12; longitude := 0;
                     timestamp := 1700; accuracy := 5 |} ]) /\
  forall n,
    (addRoutePointsBulk 7
       (Some (replicate (S n)
                {| Raw.latitude := JsStr "12"; Raw.longitude := JsStr "0";
                   Raw.accuracy := JsStr "5";
                   Raw.timestamp := JsStr "1700" |}))
       oneActiveTrip).2 = Failure 400 "No valid points provided" /\
    trips (addRoutePointsBulk 7
             (Some (replicate (S n)
                      {| Raw.latitude := JsStr "12"; Raw.longitude := JsStr "0";
                         Raw.accuracy := JsStr "5";
                         Raw.timestamp := JsStr "1700" |}))
             oneActiveTrip).1 = trips oneActiveTrip.
Proof.
  split; [reflexivity|].
  apply (string_fix_single_accepts_bulk_rejects 7 oneActiveTrip startedAt100
           "12" "0" "5" "1700" 12 0 5 1700);
    [exact lawful_oneActiveTrip_reachable | reflexivity | discriminate | discriminate
    | discriminate | discriminate | reflexivity | reflexivity | reflexivity
    | reflexivity | reflexivity].
Defined.
End StringFieldExamples.
